(** * StonFi-Price: the pair-derivation and query pipeline

    A shallow embedding of [src/api/pairs.js] (the stateless handler) — the
    long-running server carries the same four helpers verbatim:
    [formatPrice], [calculateTradingPairs], [filterAndSortPairs],
    [paginateResults] and the [GET /api/pairs] handler — of the routes of
    the server that read its cache ([/api/pairs/:poolAddress],
    [/api/pairs/search/:query], [/api/assets], [/api/pools],
    [/api/health]), of its [/api/simulate-swap] route and of
    [src/api/health.js].

    Conventions of the embedding.
    - A JavaScript string is a [string] of bytes; [toLowerCase] acts on the
      letters A–Z and leaves every other byte alone.
    - A JavaScript Number that holds a real quantity (price, reserve,
      liquidity, ...) is an IEEE-754 binary64 value, [spec_float] with
      precision 53 and maximal exponent 1024, and is computed with the
      operations of [SpecFloat].
    - A Number that holds a count or an index ([page], [limit], array
      lengths) is a [Z]; JavaScript computes these exactly below 2^53,
      as [IntegerFacts] proves of the labels of a page.
    - A query parameter is a text ([Query]); [Incoming] reads the handler
      also on a query that repeats a parameter, which [req.query] holds
      as an array.
    - [undefined] (an absent field) is [None].
    - What the engine supplies and ECMAScript leaves to the implementation
      ([Math.pow] on finite arguments, [localeCompare], the shortest-digits
      [Number::toString]) is a parameter of the section [Pipeline]. *)

From Stdlib Require Import ZArith List String Ascii Bool Lia.
From Stdlib Require Import Permutation Sorted.
From Stdlib Require Import Floats.SpecFloat.
From stdpp Require Import gmap strings.

Local Open Scope Z_scope.

(** ** Strings *)

Module JsString.

Definition ascii_toLower (c : ascii) : ascii :=
  let n := N_of_ascii c in
  if ((65 <=? n) && (n <=? 90))%N then ascii_of_N (n + 32) else c.

(** [String.prototype.toLowerCase]. *)
Fixpoint toLowerCase (s : string) : string :=
  match s with
  | EmptyString => EmptyString
  | String c r => String (ascii_toLower c) (toLowerCase r)
  end.

Fixpoint startsWith (k s : string) : bool :=
  match k, s with
  | EmptyString, _ => true
  | String _ _, EmptyString => false
  | String a k', String b s' => Ascii.eqb a b && startsWith k' s'
  end.

(** [s.includes(k)]: [k] occurs in [s] at some position. *)
Fixpoint includes (s k : string) : bool :=
  startsWith k s ||
  match s with
  | EmptyString => false
  | String _ r => includes r k
  end.

(** Truthiness of a possibly absent string: [undefined] and [''] are
    falsy. *)
Definition truthy (v : option string) : bool :=
  match v with
  | Some (String _ _) => true
  | _ => false
  end.

(** [v || d] for a possibly absent string [v] and a string [d]. *)
Definition orElse (v : option string) (d : string) : string :=
  match v with
  | Some (String c r) => String c r
  | _ => d
  end.

(** [a || b] where both may be absent: the first truthy one, else [b]. *)
Definition orOpt (a b : option string) : option string :=
  if truthy a then a else b.

(** [[a, b].join('')]: [undefined] elements are rendered as [''] . *)
Definition join2 (a b : option string) : string :=
  (default EmptyString a +:+ default EmptyString b)%string.

(** [`${v}`]: [undefined] is rendered as the text "undefined". *)
Definition interpolate (v : option string) : string :=
  default "undefined"%string v.

Definition isWhiteSpace (c : ascii) : bool :=
  let n := N_of_ascii c in
  ((9 <=? n) && (n <=? 13) || (n =? 32))%N.

(** Leading white space is skipped by [parseInt] and [parseFloat]. *)
Fixpoint trimStart (s : string) : string :=
  match s with
  | String c r => if isWhiteSpace c then trimStart r else s
  | EmptyString => EmptyString
  end.

Definition digitVal (c : ascii) : option Z :=
  let n := N_of_ascii c in
  if ((48 <=? n) && (n <=? 57))%N then Some (Z.of_N (n - 48)) else None.

Definition hexVal (c : ascii) : option Z :=
  let n := N_of_ascii c in
  if ((48 <=? n) && (n <=? 57))%N then Some (Z.of_N (n - 48))
  else if ((97 <=? n) && (n <=? 102))%N then Some (Z.of_N (n - 87))
  else if ((65 <=? n) && (n <=? 70))%N then Some (Z.of_N (n - 55))
  else None.

(** The longest prefix of digits in the given radix: its value, how many
    digits it has, and what follows it. *)
Fixpoint digitsFrom (val : ascii -> option Z) (radix : Z) (s : string)
    (acc : Z) (count : nat) : Z * nat * string :=
  match s with
  | String c r =>
      match val c with
      | Some d => digitsFrom val radix r (radix * acc + d) (S count)
      | None => (acc, count, s)
      end
  | EmptyString => (acc, count, s)
  end.

Definition digitChar (d : Z) : ascii := ascii_of_N (48 + Z.to_N d).

Fixpoint decimalDigits (fuel : nat) (n : Z) (acc : string) : string :=
  match fuel with
  | O => acc
  | S fuel' =>
      let acc' := String (digitChar (n mod 10)) acc in
      if n <? 10 then acc' else decimalDigits fuel' (n / 10) acc'
  end.

(** The decimal digits of a non-negative integer. *)
Definition ofNat (n : Z) : string :=
  decimalDigits (S (Z.to_nat (Z.log2 n))) n EmptyString.

Fixpoint zeros (k : nat) : string :=
  match k with
  | O => EmptyString
  | S k' => String "0" (zeros k')
  end.

(** [s.padStart(width, '0')]. *)
Definition padStart (width : nat) (s : string) : string :=
  (zeros (width - String.length s) +:+ s)%string.

Fixpoint take (k : nat) (s : string) : string :=
  match k, s with
  | S k', String c r => String c (take k' r)
  | _, _ => EmptyString
  end.

Fixpoint drop (k : nat) (s : string) : string :=
  match k, s with
  | S k', String _ r => drop k' r
  | _, _ => s
  end.

(** [k] occurs in [s]. *)
Definition occursIn (k s : string) : Prop :=
  exists pre post, s = (pre +:+ k +:+ post)%string.

(** Some piece of [s] equals [k] once its letters are lowered: [k]
    occurs in [s] up to letter case. *)
Definition occursIgnoringCase (k s : string) : Prop :=
  exists pre u post,
    s = (pre +:+ u +:+ post)%string /\ toLowerCase u = k.

End JsString.

(** ** Numbers *)

Module Number.

Definition prec : Z := 53.
Definition emax : Z := 1024.

Abbreviation float := spec_float.

Definition NaN : float := S754_nan.
Definition zero : float := S754_zero false.
Definition infinity (neg : bool) : float := S754_infinity neg.

Definition sub : float -> float -> float := SFsub prec emax.
Definition mul : float -> float -> float := SFmul prec emax.
Definition div : float -> float -> float := SFdiv prec emax.
Definition neg : float -> float := SFopp.

(** [x < y], [x <= y], [x === y]; every comparison with NaN is false. *)
Definition ltb : float -> float -> bool := SFltb.
Definition leb : float -> float -> bool := SFleb.
Definition eqb : float -> float -> bool := SFeqb.

(** The Number nearest to the integer [z]. *)
Definition ofZ (z : Z) : float := binary_normalize prec emax z 0 false.

(** The Number nearest to [m * 10^e] (ties to even), for [0 <= m]; the
    sign is kept on a zero. This is how a decimal literal or a parsed
    decimal string becomes a Number. *)
Definition ofDecimal (negative : bool) (m e : Z) : float :=
  match m with
  | Zpos p =>
      if 0 <=? e then binary_round prec emax negative (p * Z.to_pos (10 ^ e)) 0
      else
        let '(q, e', l) :=
          SFdiv_core_binary prec emax (Zpos p) 0 (10 ^ (- e)) 0 in
        binary_round_aux prec emax negative q e' l
  | _ => S754_zero negative
  end.

Definition one : float := ofZ 1.
Definition ten : float := ofZ 10.

(** Truthiness of a Number: NaN, +0 and -0 are falsy. *)
Definition truthy (x : float) : bool :=
  match x with
  | S754_nan | S754_zero _ => false
  | _ => true
  end.

(** [x || d]. *)
Definition orElse (x d : float) : float := if truthy x then x else d.

(** *** Signs and order *)

(** The sign bit of [x] is [s], unless [x] is NaN. *)
Definition signIs (s : bool) (x : float) : Prop :=
  match x with
  | S754_nan => True
  | S754_zero s' | S754_infinity s' | S754_finite s' _ _ => s' = s
  end.

(** [x < 0] is false: [x] is NaN, a zero, or positive. *)
Definition notNegative (x : float) : Prop := ltb x zero = false.

(** [x] is a binary64 value: a finite [x] has the one mantissa and
    exponent its value admits. Every Number is. *)
Definition wellFormed (x : float) : Prop := valid_binary prec emax x = true.

(** A Number to sort on: a binary64 value other than NaN. *)
Definition sortable (x : float) : Prop := wellFormed x /\ x <> NaN.

(** The least exponent, -1074. *)
Definition emin : Z := SpecFloat.emin prec emax.

(** The value of [x] in units of [2^emin], an integer; the infinities
    stand beyond every finite value. *)
Definition units (x : float) : Z :=
  match x with
  | S754_zero _ | S754_nan => 0
  | S754_infinity s => cond_Zopp s (2 ^ 2098)
  | S754_finite s m e => cond_Zopp s (Zpos m * 2 ^ (e - emin))
  end.

(** *** parseFloat *)

Definition signOf (s : string) : bool * string :=
  match s with
  | String "-" r => (true, r)
  | String "+" r => (false, r)
  | _ => (false, s)
  end.

(** The exponent part [e±ddd] when present and well formed; an [e] that
    is not followed by digits does not belong to the literal. *)
Definition exponentPart (s : string) : Z :=
  match s with
  | String c r =>
      if (Ascii.eqb c "e" || Ascii.eqb c "E")%bool then
        let '(sg, r') := signOf r in
        let '(v, n, _) := JsString.digitsFrom JsString.digitVal 10 r' 0 O in
        match n with
        | O => 0
        | S _ => if sg then - v else v
        end
      else 0
  | EmptyString => 0
  end.

(** [parseFloat(s)]: the longest prefix of the trimmed text that is a
    decimal literal, [NaN] when there is none. *)
Definition parseFloat (s : string) : float :=
  let '(sg, r) := signOf (JsString.trimStart s) in
  if JsString.startsWith "Infinity" r then infinity sg
  else
    let '(ip, n1, r1) := JsString.digitsFrom JsString.digitVal 10 r 0 O in
    let '(m, n2, r2) :=
      match r1 with
      | String "." f => JsString.digitsFrom JsString.digitVal 10 f ip O
      | _ => (ip, O, r1)
      end in
    match (n1 + n2)%nat with
    | O => NaN
    | S _ => ofDecimal sg m (exponentPart r2 - Z.of_nat n2)
    end.

(** *** parseInt

    [None] stands for NaN; an integer result is kept exactly. *)
Definition parseInt (s : string) : option Z :=
  let '(sg, r) := signOf (JsString.trimStart s) in
  let '(v, n, _) :=
    match r with
    | String "0" (String x h) =>
        if (Ascii.eqb x "x" || Ascii.eqb x "X")%bool
        then JsString.digitsFrom JsString.hexVal 16 h 0 O
        else JsString.digitsFrom JsString.digitVal 10 r 0 O
    | _ => JsString.digitsFrom JsString.digitVal 10 r 0 O
    end in
  match n with
  | O => None
  | S _ => Some (if sg then - v else v)
  end.

(** The Number a [parseInt] result denotes. *)
Definition ofInt (v : option Z) : float :=
  match v with
  | Some z => ofZ z
  | None => NaN
  end.

(** [v || d] on a [parseInt] result: NaN and 0 are falsy. *)
Definition intOrElse (v : option Z) (d : Z) : Z :=
  match v with
  | Some 0 | None => d
  | Some z => z
  end.

(** *** toFixed and toExponential *)

(** The integer nearest to [num / den], the larger one on a tie. *)
Definition roundHalfUp (num den : Z) : Z := (2 * num + den) / (2 * den).

(** A positive finite Number [m * 2^e] as a fraction. *)
Definition fraction (m : positive) (e : Z) : Z * Z :=
  if 0 <=? e then (Zpos m * 2 ^ e, 1) else (Zpos m, 2 ^ (- e)).

Definition signText (negative : bool) : string :=
  if negative then "-"%string else EmptyString.

(** The digits of [n] with a point before the last [f] of them. *)
Definition pointed (n : Z) (f : nat) : string :=
  match f with
  | O => JsString.ofNat n
  | S _ =>
      let d := JsString.padStart (S f) (JsString.ofNat n) in
      let k := (String.length d - f)%nat in
      (JsString.take k d +:+ "." +:+ JsString.drop k d)%string
  end.

Section Formatting.

(** [Number::toString] of a finite Number of magnitude at least 10^21
    (shortest digits that read back as the same Number, in exponent
    form); the engine supplies it. *)
Variable toStringLarge : float -> string.

(** [x.toFixed(f)]. *)
Definition toFixed (f : nat) (x : float) : string :=
  match x with
  | S754_nan => "NaN"%string
  | S754_infinity s => (signText s +:+ "Infinity")%string
  | S754_zero _ => pointed 0 f
  | S754_finite s m e =>
      let '(num, den) := fraction m e in
      if 10 ^ 21 * den <=? num
      then (signText s +:+ toStringLarge (S754_finite false m e))%string
      else (signText s +:+
            pointed (roundHalfUp (num * 10 ^ Z.of_nat f) den) f)%string
  end.

(** The least [k >= 1] with [num * 10^k >= den], for [0 < num < den]. *)
Fixpoint leadingZeros (fuel : nat) (num den k : Z) : Z :=
  match fuel with
  | O => k
  | S fuel' =>
      if den <=? num * 10 ^ k then k
      else leadingZeros fuel' num den (k + 1)
  end.

(** [floor (log10 (num / den))] for a positive fraction. *)
Definition decimalExponent (num den : Z) : Z :=
  if den <=? num
  then Z.of_nat (String.length (JsString.ofNat (num / den))) - 1
  else - leadingZeros (Z.to_nat (4 * Z.log2 den)) num den 1.

(** [x.toExponential(f)]. *)
Definition toExponential (f : nat) (x : float) : string :=
  match x with
  | S754_nan => "NaN"%string
  | S754_infinity s => (signText s +:+ "Infinity")%string
  | S754_zero _ => (pointed 0 f +:+ "e+0")%string
  | S754_finite s m e =>
      let '(num, den) := fraction m e in
      let e0 := decimalExponent num den in
      let n0 :=
        if Z.of_nat f <=? e0
        then roundHalfUp num (den * 10 ^ (e0 - Z.of_nat f))
        else roundHalfUp (num * 10 ^ (Z.of_nat f - e0)) den in
      let '(n, e1) :=
        if 10 ^ (Z.of_nat f + 1) <=? n0 then (n0 / 10, e0 + 1)
        else (n0, e0) in
      (signText s +:+ pointed n f +:+ "e" +:+
       (if (e1 <? 0)%Z then "-" else "+") +:+ JsString.ofNat (Z.abs e1))%string
  end.

End Formatting.

End Number.

(** ** Data model *)

(** An asset record as the upstream API sends it; every field may be
    absent. [decimals] is a JSON integer, the other fields are text. *)
Module Asset.
Record t := mk {
  contractAddress : option string;
  symbol : option string;
  displayName : option string;
  decimals : option Z;
  dexUsdPrice : option string
}.

(** An object none of whose fields is set. *)
Definition empty : t := mk None None None None None.
End Asset.

Module Pool.
Record t := mk {
  address : option string;
  token0Address : option string;
  token1Address : option string;
  reserve0 : option string;
  reserve1 : option string;
  lpTotalSupplyUsd : option string;
  lpTotalSupply : option string;
  volume24hUsd : option string;
  apy1D : option string;
  popularityIndex : option string
}.
End Pool.

Module Token.
Record t := mk {
  symbol : option string;
  name : option string;
  address : option string;
  decimals : option Z;
  usdPrice : Number.float
}.
End Token.

Module Reserves.
Record t := mk { token0 : Number.float; token1 : Number.float }.
End Reserves.

(** A TradingPair. *)
Module Pair.
Record t := mk {
  id : string;
  name : string;
  token0 : Token.t;
  token1 : Token.t;
  price : Number.float;
  formattedPrice : string;
  liquidity : Number.float;
  volume24h : Number.float;
  apy : Number.float;
  poolAddress : string;
  reserves : Reserves.t;
  popularityIndex : Number.float
}.
End Pair.

(** ** The asset map

    [const assetMap = {}] is a plain object: besides the entries the loop
    stores, a lookup also finds what the object inherits. Assigning to the
    key [__proto__] stores no entry; it makes the assigned asset the
    prototype of the map, and from then on the asset's own fields are
    inherited too. *)
Module AssetMap.

Record t := mk {
  own : gmap string Asset.t;
  proto : option Asset.t
}.

Definition empty : t := mk ∅ None.

(** [assetMap[k] = a]. *)
Definition set (m : t) (k : string) (a : Asset.t) : t :=
  if String.eqb k "__proto__" then mk (own m) (Some a)
  else mk (<[k := a]> (own m)) (proto m).

(** The members of [Object.prototype]; each is a function, hence truthy,
    and has none of the fields the pipeline reads. *)
Definition objectPrototypeNames : list string :=
  [ "constructor"; "hasOwnProperty"; "isPrototypeOf";
    "propertyIsEnumerable"; "toLocaleString"; "toString"; "valueOf";
    "__defineGetter__"; "__defineSetter__"; "__lookupGetter__";
    "__lookupSetter__" ]%string.

(** Whether asset [p] has a field named [k], and if so whether its value
    is truthy. *)
Definition inheritedField (p : Asset.t) (k : string) : option bool :=
  if String.eqb k "contractAddress"
  then (fun v => JsString.truthy (Some v)) <$> Asset.contractAddress p
  else if String.eqb k "symbol"
  then (fun v => JsString.truthy (Some v)) <$> Asset.symbol p
  else if String.eqb k "displayName"
  then (fun v => JsString.truthy (Some v)) <$> Asset.displayName p
  else if String.eqb k "dexUsdPrice"
  then (fun v => JsString.truthy (Some v)) <$> Asset.dexUsdPrice p
  else if String.eqb k "decimals"
  then (fun v => negb (v =? 0)) <$> Asset.decimals p
  else None.

(** [assetMap[k]] as the pipeline sees it: [None] when the value is
    falsy; otherwise the value, read as an asset. A value that is not a
    stored asset (an inherited function, or a text or number inherited
    from a prototype asset) has none of the asset fields, so it reads as
    [Asset.empty]. *)
Definition get (m : t) (k : string) : option Asset.t :=
  match own m !! k with
  | Some a => Some a
  | None =>
      if String.eqb k "__proto__" then Some (default Asset.empty (proto m))
      else
        match proto m ≫= (fun p => inheritedField p k) with
        | Some true => Some Asset.empty
        | Some false => None
        | None =>
            if existsb (String.eqb k) objectPrototypeNames
            then Some Asset.empty else None
        end
  end.

End AssetMap.

(** ** Array.prototype.sort and Array.prototype.slice *)

Module Array.

(** How the sort reads a comparator result [v]: before when [v < 0],
    after when [v > 0], a tie otherwise (NaN counts as 0). *)
Definition sign (v : Number.float) : comparison :=
  if Number.ltb v Number.zero then Lt
  else if Number.ltb Number.zero v then Gt
  else Eq.

Section Sort.
Context {A : Type}.
Variable comparefn : A -> A -> Number.float.

(** [x] stood before every element of [l]; it moves right only past
    elements the comparator puts strictly before it. *)
Fixpoint insert (x : A) (l : list A) : list A :=
  match l with
  | [] => [x]
  | y :: r =>
      match sign (comparefn x y) with
      | Gt => y :: insert x r
      | _ => x :: l
      end
  end.

(** [l.sort(comparefn)]: the stable sort ECMAScript prescribes. For a
    consistent comparator the result does not depend on the
    algorithm; this one is insertion sort. *)
Fixpoint sort (l : list A) : list A :=
  match l with
  | [] => []
  | x :: r => insert x (sort r)
  end.

(** What the comparator says of [x] and [y]. *)
Definition sgn (x y : A) : comparison := sign (comparefn x y).

(** The comparator does not put [x] after [y]. *)
Definition notAfter (x y : A) : Prop := sgn x y <> Gt.

(** The comparator puts [x] strictly before [y]. *)
Definition before (x y : A) : Prop := sgn x y = Lt.

(** The comparator reports a tie between [x] and [y]. *)
Definition ties (x y : A) : bool :=
  match sgn x y with
  | Eq => true
  | _ => false
  end.

(** No two entries of the list tie. *)
Definition NoTies (l : list A) : Prop :=
  List.NoDup l /\ forall x y, In x l -> In y l -> sgn x y = Eq -> x = y.

End Sort.

(** A relative index of [slice], clamped into [0, len]. *)
Definition relativeIndex (len i : Z) : Z :=
  if i <? 0 then Z.max (len + i) 0 else Z.min i len.

(** [l.slice(start, end)]. *)
Definition slice {A : Type} (l : list A) (start stop : Z) : list A :=
  let len := Z.of_nat (length l) in
  let k := relativeIndex len start in
  let final := relativeIndex len stop in
  firstn (Z.to_nat (Z.max (final - k) 0)) (skipn (Z.to_nat k) l).

End Array.

(** ** Query filters, pagination and the response *)

Module Filters.
Record t := mk {
  search : string;
  sortBy : string;
  sortOrder : string;
  minLiquidity : Number.float;
  category : string
}.
End Filters.

(** A quotient of integers that may have a zero divisor: [Math.ceil(n / 0)]
    is an infinity for [n <> 0] and [NaN] for [n = 0]. *)
Inductive Count :=
| CountNaN
| CountInfinity (negative : bool)
| CountOf (z : Z).

Module Pagination.
Record t := mk {
  currentPage : Z;
  totalPages : Count;
  totalItems : Z;
  itemsPerPage : Z;
  hasNextPage : bool;
  hasPrevPage : bool;
  startIndex : Z;
  endIndex : Z
}.
End Pagination.

Module Page.
Record t (A : Type) := mk { data : list A; pagination : Pagination.t }.
Arguments mk {A}.
Arguments data {A}.
Arguments pagination {A}.
End Page.

(** The query string of a request; a parameter that was not sent is
    [None]. *)
Module Query.
Record t := mk {
  page : option string;
  limit : option string;
  search : option string;
  sortBy : option string;
  sortOrder : option string;
  minLiquidity : option string;
  category : option string
}.
End Query.

Module Params.
Record t := mk { page : Z; limit : Z; filters : Filters.t }.
End Params.

(** The JSON body of a successful response; [lastUpdated], a clock
    reading, is left out. *)
Module Body.
Record t := mk {
  success : bool;
  data : list Pair.t;
  pagination : Pagination.t;
  filters : Filters.t;
  cached : bool;
  totalPairs : Z;
  priceDataFresh : bool
}.
End Body.

Inductive Response :=
| MethodNotAllowed            (* status 405 *)
| Success (body : Body.t)     (* status 200 *)
| ServerError.                (* status 500: an exception reached [catch] *)

(** [Math.ceil(a / b)]. *)
Definition ceilDiv (a b : Z) : Count :=
  if b =? 0 then (if a =? 0 then CountNaN else CountInfinity (a <? 0))
  else CountOf (- ((- a) / b)).

(** [page < totalPages]. *)
Definition ltCount (page : Z) (c : Count) : bool :=
  match c with
  | CountNaN => false
  | CountInfinity negative => negb negative
  | CountOf t => page <? t
  end.

(** [paginateResults(data, page, limit)]. *)
Definition paginateResults {A : Type} (data : list A) (page limit : Z)
    : Page.t A :=
  let totalItems := Z.of_nat (length data) in
  let totalPages := ceilDiv totalItems limit in
  let startIndex := (page - 1) * limit in
  let endIndex := startIndex + limit in
  let paginatedData := Array.slice data startIndex endIndex in
  Page.mk paginatedData
    (Pagination.mk page totalPages totalItems limit
       (ltCount page totalPages) (1 <? page)
       (startIndex + 1) (Z.min endIndex totalItems)).

(** [x + y] on Numbers. *)
Definition numberAdd : Number.float -> Number.float -> Number.float :=
  SFadd Number.prec Number.emax.

(** [Math.min(x, y)]: NaN if either is NaN, [-0] below [+0], else the
    lesser. *)
Definition Math_min (x y : Number.float) : Number.float :=
  match x, y with
  | S754_nan, _ | _, S754_nan => Number.NaN
  | S754_zero false, S754_zero true => y
  | _, _ => if Number.ltb y x then y else x
  end.

(** The labels [startIndex + 1] and [Math.min(endIndex, totalItems)] of
    [paginateResults], computed on Numbers as the code computes them. *)
Definition startIndexLabel (page limit : Number.float) : Number.float :=
  let startIndex := Number.mul (Number.sub page Number.one) limit in
  numberAdd startIndex Number.one.

Definition endIndexLabel (page limit totalItems : Number.float)
    : Number.float :=
  let startIndex := Number.mul (Number.sub page Number.one) limit in
  let endIndex := numberAdd startIndex limit in
  Math_min endIndex totalItems.

(** The category test of [filterAndSortPairs], the callback of its third
    [filter]. *)
Definition categoryMatches (category : string) (pair : Pair.t) : bool :=
  let symbols :=
    JsString.toLowerCase
      (JsString.join2 (Token.symbol (Pair.token0 pair))
                      (Token.symbol (Pair.token1 pair))) in
  let names :=
    JsString.toLowerCase
      (JsString.join2 (Token.name (Pair.token0 pair))
                      (Token.name (Pair.token1 pair))) in
  let sym := JsString.includes symbols in
  let nam := JsString.includes names in
  if String.eqb category "stablecoins" then
    sym "usdt" || sym "usd" || sym "usdc" ||
    sym "dai" || sym "busd" || sym "tusd" ||
    nam "tether" || nam "usd coin"
  else if String.eqb category "meme" then
    sym "not" || sym "notcoin" ||
    sym "hmstr" || sym "hamster" ||
    sym "dogs" || sym "dog" ||
    sym "fish" || sym "tpet" ||
    sym "doge" || sym "shib" ||
    sym "pepe" || sym "wojak" ||
    sym "cat" || sym "duck" ||
    sym "frog" || sym "bear" ||
    sym "meme" || sym "moon" ||
    sym "inu" || sym "floki" ||
    sym "elon" || sym "baby" ||
    sym "safe" || sym "rocket" ||
    nam "meme" || nam "dog" ||
    nam "cat" || nam "fish" ||
    nam "hamster" || nam "notcoin"
  else if String.eqb category "defi" then
    sym "ton" || sym "ston" ||
    sym "hton" || sym "tston" ||
    sym "uni" || sym "cake" ||
    sym "aave" || sym "comp" ||
    sym "curve" || sym "bal" ||
    sym "sushi" || sym "1inch" ||
    sym "dedust" || sym "storm" ||
    sym "lp" || sym "pool" ||
    nam "defi" || nam "staked" ||
    nam "liquid" || nam "vault"
  else true.

(** The categories other than [all]. *)
Inductive Category := Stablecoins | Meme | Defi.

Definition categoryName (c : Category) : string :=
  match c with
  | Stablecoins => "stablecoins"
  | Meme => "meme"
  | Defi => "defi"
  end.

(** The keyword sets of the glossary. *)
Definition glossaryKeywords (c : Category) : list string :=
  match c with
  | Stablecoins =>
      ["usdt"; "usd"; "usdc"; "dai"; "busd"; "tusd"; "tether"; "usd coin"]
  | Meme =>
      ["not"; "notcoin"; "hmstr"; "hamster"; "dogs"; "dog"; "fish"; "tpet";
       "doge"; "shib"; "pepe"; "wojak"; "cat"; "duck"; "frog"; "bear";
       "meme"; "moon"; "inu"; "floki"; "elon"; "baby"; "safe"; "rocket"]
  | Defi =>
      ["ton"; "ston"; "hton"; "tston"; "uni"; "cake"; "aave"; "comp";
       "curve"; "bal"; "sushi"; "1inch"; "dedust"; "storm"; "lp"; "pool";
       "defi"; "staked"; "liquid"; "vault"]
  end%string.

(** The keywords the code looks for in the joined symbols. *)
Definition symbolKeywords (c : Category) : list string :=
  match c with
  | Stablecoins => ["usdt"; "usd"; "usdc"; "dai"; "busd"; "tusd"]
  | Meme =>
      ["not"; "notcoin"; "hmstr"; "hamster"; "dogs"; "dog"; "fish"; "tpet";
       "doge"; "shib"; "pepe"; "wojak"; "cat"; "duck"; "frog"; "bear";
       "meme"; "moon"; "inu"; "floki"; "elon"; "baby"; "safe"; "rocket"]
  | Defi =>
      ["ton"; "ston"; "hton"; "tston"; "uni"; "cake"; "aave"; "comp";
       "curve"; "bal"; "sushi"; "1inch"; "dedust"; "storm"; "lp"; "pool"]
  end%string.

(** The keywords the code looks for in the joined display names. *)
Definition nameKeywords (c : Category) : list string :=
  match c with
  | Stablecoins => ["tether"; "usd coin"]
  | Meme => ["meme"; "dog"; "cat"; "fish"; "hamster"; "notcoin"]
  | Defi => ["defi"; "staked"; "liquid"; "vault"]
  end%string.

(** The two texts a pair is classified by. *)
Definition joinedSymbols (pair : Pair.t) : string :=
  JsString.join2 (Token.symbol (Pair.token0 pair))
                 (Token.symbol (Pair.token1 pair)).

Definition joinedNames (pair : Pair.t) : string :=
  JsString.join2 (Token.name (Pair.token0 pair))
                 (Token.name (Pair.token1 pair)).

(** [v.toLowerCase().includes(term)] on a field that may be absent: reading
    [toLowerCase] off [undefined] throws a TypeError, here [None]. *)
Definition lowerIncludes (v : option string) (term : string) : option bool :=
  (fun s => JsString.includes (JsString.toLowerCase s) term) <$> v.

(** [a || b] where evaluating either side may throw. *)
Definition orThrow (a : option bool) (b : option bool) : option bool :=
  match a with
  | Some true => Some true
  | Some false => b
  | None => None
  end.

(** The search test of [filterAndSortPairs], the callback of its first
    [filter]. *)
Definition searchMatches (searchTerm : string) (pair : Pair.t) : option bool :=
  orThrow (lowerIncludes (Some (Pair.name pair)) searchTerm)
  (orThrow (lowerIncludes (Token.symbol (Pair.token0 pair)) searchTerm)
  (orThrow (lowerIncludes (Token.symbol (Pair.token1 pair)) searchTerm)
  (orThrow (lowerIncludes (Token.name (Pair.token0 pair)) searchTerm)
  (orThrow (lowerIncludes (Token.name (Pair.token1 pair)) searchTerm)
           (lowerIncludes (Some (Pair.poolAddress pair)) searchTerm))))).

(** [l.filter(f)] for a callback that may throw. *)
Fixpoint filterThrow {A : Type} (f : A -> option bool) (l : list A)
    : option (list A) :=
  match l with
  | [] => Some []
  | x :: r =>
      match f x with
      | None => None
      | Some b =>
          match filterThrow f r with
          | None => None
          | Some r' => Some (if b then x :: r' else r')
          end
      end
  end.

(** ** The pipeline *)

Section Pipeline.

(** What the engine supplies. [Math_pow] is [Math.pow]; ECMAScript fixes
    it on special arguments and asks for an approximation elsewhere.
    [localeCompare] is [String.prototype.localeCompare], which follows
    the host's collation. [toStringLarge] is [Number::toString] on finite
    Numbers of magnitude at least 10^21. *)
Variable Math_pow : Number.float -> Number.float -> Number.float.
Variable localeCompare : string -> string -> Number.float.
Variable toStringLarge : Number.float -> string.

(** [formatPrice(price)]. *)
Definition formatPrice (price : Number.float) : string :=
  if Number.eqb price Number.zero then "0.00"%string
  else if Number.ltb price (Number.ofDecimal false 1 (-6))
  then Number.toExponential 2 price
  else if Number.ltb price (Number.ofDecimal false 1 (-2))
  then Number.toFixed toStringLarge 6 price
  else if Number.ltb price (Number.ofZ 1)
  then Number.toFixed toStringLarge 4 price
  else if Number.ltb price (Number.ofZ 100)
  then Number.toFixed toStringLarge 2 price
  else Number.toFixed toStringLarge 0 price.

(** One round of the loop that fills [assetMap]. *)
Definition storeAsset (m : AssetMap.t) (asset : Asset.t) : AssetMap.t :=
  match Asset.contractAddress asset with
  | Some (String c r) => AssetMap.set m (String c r) asset
  | _ => m
  end.

(** The loop that fills [assetMap]. *)
Definition buildAssetMap (assets : list Asset.t) : AssetMap.t :=
  fold_left storeAsset assets AssetMap.empty.

(** [token.decimals || '9'], as [parseInt] reads it: the text "9" for an
    absent or zero [decimals], else the digits of the integer (the text
    JavaScript gives an integer below 10^21 in magnitude). *)
Definition decimalsText (d : option Z) : string :=
  match d with
  | Some 0 | None => "9"%string
  | Some z =>
      ((if (z <? 0)%Z then "-" else "") +:+ JsString.ofNat (Z.abs z))%string
  end.

(** The [price] computed for a pool whose two tokens were found. *)
Definition pairPrice (token0 token1 : Asset.t)
    (token0Reserve token1Reserve token0UsdPrice token1UsdPrice
       : Number.float) : Number.float :=
  if Number.ltb Number.zero token0UsdPrice &&
     Number.ltb Number.zero token1UsdPrice
  then Number.div token1UsdPrice token0UsdPrice
  else if Number.ltb Number.zero token0Reserve
  then
    let price := Number.div token1Reserve token0Reserve in
    let token0Decimals :=
      Number.ofInt (Number.parseInt (decimalsText (Asset.decimals token0))) in
    let token1Decimals :=
      Number.ofInt (Number.parseInt (decimalsText (Asset.decimals token1))) in
    Number.mul price
      (Math_pow Number.ten (Number.sub token0Decimals token1Decimals))
  else Number.zero.

Definition tokenOf (token : Asset.t) (usdPrice : Number.float) : Token.t :=
  Token.mk (Asset.symbol token)
    (JsString.orOpt (Asset.displayName token) (Asset.symbol token))
    (Asset.contractAddress token)
    (Asset.decimals token)
    usdPrice.

(** The pair object built for a pool with address [poolAddress] whose
    tokens resolved to [token0] and [token1]. *)
Definition buildPair (pool : Pool.t) (poolAddress : string)
    (token0 token1 : Asset.t) : Pair.t :=
  let token0Reserve :=
    Number.parseFloat (JsString.orElse (Pool.reserve0 pool) "0") in
  let token1Reserve :=
    Number.parseFloat (JsString.orElse (Pool.reserve1 pool) "0") in
  let token0UsdPrice :=
    Number.parseFloat (JsString.orElse (Asset.dexUsdPrice token0) "0") in
  let token1UsdPrice :=
    Number.parseFloat (JsString.orElse (Asset.dexUsdPrice token1) "0") in
  let price :=
    pairPrice token0 token1 token0Reserve token1Reserve
      token0UsdPrice token1UsdPrice in
  Pair.mk poolAddress
    (JsString.interpolate (Asset.symbol token0) +:+ "/" +:+
     JsString.interpolate (Asset.symbol token1))%string
    (tokenOf token0 token0UsdPrice)
    (tokenOf token1 token1UsdPrice)
    price
    (formatPrice price)
    (Number.parseFloat
       (JsString.orElse
          (JsString.orOpt (Pool.lpTotalSupplyUsd pool)
                          (Pool.lpTotalSupply pool)) "0"))
    (Number.parseFloat (JsString.orElse (Pool.volume24hUsd pool) "0"))
    (Number.parseFloat (JsString.orElse (Pool.apy1D pool) "0"))
    poolAddress
    (Reserves.mk token0Reserve token1Reserve)
    (Number.parseFloat (JsString.orElse (Pool.popularityIndex pool) "0")).

(** The body of [pools.forEach]: the pair pushed for [pool], if any. *)
Definition pairOfPool (assetMap : AssetMap.t) (pool : Pool.t)
    : option Pair.t :=
  match Pool.token0Address pool, Pool.token1Address pool,
        Pool.address pool with
  | Some (String c0 r0), Some (String c1 r1), Some (String c r) =>
      match AssetMap.get assetMap (String c0 r0),
            AssetMap.get assetMap (String c1 r1) with
      | Some token0, Some token1 =>
          Some (buildPair pool (String c r) token0 token1)
      | _, _ => None
      end
  | _, _, _ => None
  end.

(** The comparator of the final sort: liquidity, highest first, then
    popularity. *)
Definition canonicalCompare (a b : Pair.t) : Number.float :=
  if negb (Number.eqb (Pair.liquidity b) (Pair.liquidity a))
  then Number.sub (Pair.liquidity b) (Pair.liquidity a)
  else Number.sub (Pair.popularityIndex b) (Pair.popularityIndex a).

(** [calculateTradingPairs(assets, pools)]. *)
Definition calculateTradingPairs (assets : list Asset.t)
    (pools : list Pool.t) : list Pair.t :=
  let assetMap := buildAssetMap assets in
  let pairs := omap (pairOfPool assetMap) pools in
  Array.sort canonicalCompare pairs.

(** The [switch (filters.sortBy)] of the comparator of
    [filterAndSortPairs]: the value of [comparison]. *)
Definition comparisonBy (sortBy : string) (a b : Pair.t) : Number.float :=
  if String.eqb sortBy "liquidity"
  then Number.sub (Pair.liquidity b) (Pair.liquidity a)
  else if String.eqb sortBy "volume"
  then Number.sub (Pair.volume24h b) (Pair.volume24h a)
  else if String.eqb sortBy "apy"
  then Number.sub (Pair.apy b) (Pair.apy a)
  else if String.eqb sortBy "name"
  then localeCompare (Pair.name a) (Pair.name b)
  else if String.eqb sortBy "price"
  then Number.sub (Pair.price b) (Pair.price a)
  else Number.sub (Pair.liquidity b) (Pair.liquidity a).

(** The comparator of [filterAndSortPairs]. *)
Definition sortCompare (filters : Filters.t) (a b : Pair.t)
    : Number.float :=
  let comparison := comparisonBy (Filters.sortBy filters) a b in
  if String.eqb (Filters.sortOrder filters) "asc"
  then Number.neg comparison else comparison.

(** The three filters of [filterAndSortPairs], in the order the code
    applies them: search, liquidity floor, category. [None] when a
    callback throws. *)
Definition applyFilters (pairs : list Pair.t) (filters : Filters.t)
    : option (list Pair.t) :=
  filtered ←
    match Filters.search filters with
    | String _ _ =>
        let searchTerm := JsString.toLowerCase (Filters.search filters) in
        filterThrow (searchMatches searchTerm) pairs
    | EmptyString => Some pairs
    end;
  let filtered :=
    if Number.ltb Number.zero (Filters.minLiquidity filters)
    then List.filter
           (fun pair =>
              Number.leb (Filters.minLiquidity filters) (Pair.liquidity pair))
           filtered
    else filtered in
  let filtered :=
    if negb (String.eqb (Filters.category filters) "all")
    then List.filter (categoryMatches (Filters.category filters)) filtered
    else filtered in
  Some filtered.

(** [filterAndSortPairs(pairs, filters)]: the filters, then the sort. *)
Definition filterAndSortPairs (pairs : list Pair.t) (filters : Filters.t)
    : option (list Pair.t) :=
  filtered ← applyFilters pairs filters;
  Some (Array.sort (sortCompare filters) filtered).

(** The query parameters as the handler reads them; a parameter that was
    not sent is read through its text "undefined". *)
Definition parseQuery (q : Query.t) : Params.t :=
  let page :=
    Number.intOrElse
      (Number.parseInt (JsString.interpolate (Query.page q))) 1 in
  let limit :=
    Number.intOrElse
      (Number.parseInt (JsString.interpolate (Query.limit q))) 50 in
  let search := JsString.orElse (Query.search q) "" in
  let sortBy := JsString.orElse (Query.sortBy q) "liquidity" in
  let sortOrder := JsString.orElse (Query.sortOrder q) "desc" in
  let minLiquidity :=
    Number.orElse
      (Number.parseFloat (JsString.interpolate (Query.minLiquidity q)))
      Number.zero in
  let category := JsString.orElse (Query.category q) "all" in
  Params.mk page limit
    (Filters.mk search sortBy sortOrder minLiquidity category).

(** The handler of [GET /api/pairs], given what the two upstream fetches
    returned. *)
Definition handler (method : string) (q : Query.t)
    (assets : list Asset.t) (pools : list Pool.t) : Response :=
  if negb (String.eqb method "GET") then MethodNotAllowed
  else
    let params := parseQuery q in
    let pairs := calculateTradingPairs assets pools in
    match filterAndSortPairs pairs (Params.filters params) with
    | None => ServerError
    | Some filteredPairs =>
        let paginatedResult :=
          paginateResults filteredPairs
            (Params.page params) (Params.limit params) in
        Success
          (Body.mk true
             (Page.data paginatedResult)
             (Page.pagination paginatedResult)
             (Params.filters params)
             false
             (Z.of_nat (length pairs))
             true)
    end.

End Pipeline.

(** ** Parameters sent more than once

    In [req.query] a parameter that was sent once is a string, and one
    that was sent several times ([?search=a&search=b]) is the array of
    its values. [Query.t] above is the query of a request that sends
    each parameter at most once; [Incoming] reads the same handler on
    any query. *)

Module QueryValue.

Inductive t :=
| Single (text : string)
| Many (texts : list string).

(** Truthiness of [req.query.x]: [undefined] and [''] are falsy, an
    array is truthy, even an empty one. *)
Definition truthy (v : option t) : bool :=
  match v with
  | Some (Single (String _ _)) => true
  | Some (Many _) => true
  | _ => false
  end.

(** [v || d] for a text [d]. *)
Definition orElse (v : option t) (d : string) : t :=
  match v with
  | Some (Single (String c r)) => Single (String c r)
  | Some (Many texts) => Many texts
  | _ => Single d
  end.

(** [texts.join(',')]. *)
Fixpoint join (texts : list string) : string :=
  match texts with
  | [] => EmptyString
  | text :: rest =>
      match rest with
      | [] => text
      | _ :: _ => (text +:+ "," +:+ join rest)%string
      end
  end.

(** [String(v)], the text [parseInt] and [parseFloat] read off their
    argument: "undefined" for a parameter that was not sent, the values
    joined by commas for an array. *)
Definition toString (v : option t) : string :=
  match v with
  | None => "undefined"%string
  | Some (Single text) => text
  | Some (Many texts) => join texts
  end.

(** [v === s]: no array is identical to a string. *)
Definition strictEquals (v : t) (s : string) : bool :=
  match v with
  | Single text => String.eqb text s
  | Many _ => false
  end.

(** [v.toLowerCase()]. An array has no such method: the call throws a
    TypeError, here [None]. *)
Definition toLowerCase (v : t) : option string :=
  match v with
  | Single text => Some (JsString.toLowerCase text)
  | Many _ => None
  end.

End QueryValue.

Module Incoming.

Module Query.
Record t := mk {
  page : option QueryValue.t;
  limit : option QueryValue.t;
  search : option QueryValue.t;
  sortBy : option QueryValue.t;
  sortOrder : option QueryValue.t;
  minLiquidity : option QueryValue.t;
  category : option QueryValue.t
}.
End Query.

Module Filters.
Record t := mk {
  search : QueryValue.t;
  sortBy : QueryValue.t;
  sortOrder : QueryValue.t;
  minLiquidity : Number.float;
  category : QueryValue.t
}.
End Filters.

Module Params.
Record t := mk { page : Z; limit : Z; filters : Filters.t }.
End Params.

Module Body.
Record t := mk {
  success : bool;
  data : list Pair.t;
  pagination : Pagination.t;
  filters : Filters.t;
  cached : bool;
  totalPairs : Z;
  priceDataFresh : bool
}.
End Body.

Inductive Response :=
| MethodNotAllowed            (* status 405 *)
| Success (body : Body.t)     (* status 200 *)
| ServerError.                (* status 500 *)

Section Pipeline.
Variable Math_pow : Number.float -> Number.float -> Number.float.
Variable localeCompare : string -> string -> Number.float.
Variable toStringLarge : Number.float -> string.

(** The callback of the category filter. [switch] compares with [===],
    so an array reaches [default]. *)
Definition categoryCallback (category : QueryValue.t) (pair : Pair.t)
    : bool :=
  match category with
  | QueryValue.Single text => categoryMatches text pair
  | QueryValue.Many _ => true
  end.

(** The [switch (filters.sortBy)] of the comparator. *)
Definition comparisonOf (sortBy : QueryValue.t) (a b : Pair.t)
    : Number.float :=
  match sortBy with
  | QueryValue.Single text => comparisonBy localeCompare text a b
  | QueryValue.Many _ => Number.sub (Pair.liquidity b) (Pair.liquidity a)
  end.

Definition sortCompare (filters : Filters.t) (a b : Pair.t)
    : Number.float :=
  let comparison := comparisonOf (Filters.sortBy filters) a b in
  if QueryValue.strictEquals (Filters.sortOrder filters) "asc"
  then Number.neg comparison else comparison.

(** The three filters; [None] when [filters.search.toLowerCase()] or a
    callback throws. *)
Definition applyFilters (pairs : list Pair.t) (filters : Filters.t)
    : option (list Pair.t) :=
  filtered ←
    (if QueryValue.truthy (Some (Filters.search filters))
     then
       searchTerm ← QueryValue.toLowerCase (Filters.search filters);
       filterThrow (searchMatches searchTerm) pairs
     else Some pairs);
  let filtered :=
    if Number.ltb Number.zero (Filters.minLiquidity filters)
    then List.filter
           (fun pair =>
              Number.leb (Filters.minLiquidity filters) (Pair.liquidity pair))
           filtered
    else filtered in
  let filtered :=
    if negb (QueryValue.strictEquals (Filters.category filters) "all")
    then List.filter (categoryCallback (Filters.category filters)) filtered
    else filtered in
  Some filtered.

Definition filterAndSortPairs (pairs : list Pair.t) (filters : Filters.t)
    : option (list Pair.t) :=
  filtered ← applyFilters pairs filters;
  Some (Array.sort (sortCompare filters) filtered).

Definition parseQuery (q : Query.t) : Params.t :=
  let page :=
    Number.intOrElse
      (Number.parseInt (QueryValue.toString (Query.page q))) 1 in
  let limit :=
    Number.intOrElse
      (Number.parseInt (QueryValue.toString (Query.limit q))) 50 in
  let search := QueryValue.orElse (Query.search q) "" in
  let sortBy := QueryValue.orElse (Query.sortBy q) "liquidity" in
  let sortOrder := QueryValue.orElse (Query.sortOrder q) "desc" in
  let minLiquidity :=
    Number.orElse
      (Number.parseFloat (QueryValue.toString (Query.minLiquidity q)))
      Number.zero in
  let category := QueryValue.orElse (Query.category q) "all" in
  Params.mk page limit
    (Filters.mk search sortBy sortOrder minLiquidity category).

(** The handler of [GET /api/pairs] on any query, given what the two
    upstream fetches returned. *)
Definition handler (method : string) (q : Query.t)
    (assets : list Asset.t) (pools : list Pool.t) : Response :=
  if negb (String.eqb method "GET") then MethodNotAllowed
  else
    let params := parseQuery q in
    let pairs := calculateTradingPairs Math_pow toStringLarge assets pools in
    match filterAndSortPairs pairs (Params.filters params) with
    | None => ServerError
    | Some filteredPairs =>
        let paginatedResult :=
          paginateResults filteredPairs
            (Params.page params) (Params.limit params) in
        Success
          (Body.mk true
             (Page.data paginatedResult)
             (Page.pagination paginatedResult)
             (Params.filters params)
             false
             (Z.of_nat (length pairs))
             true)
    end.

End Pipeline.

End Incoming.

(** A query whose parameters were each sent at most once, and the
    filters and the response it leads to, as [Incoming] writes them. *)
Definition incomingQuery (q : Query.t) : Incoming.Query.t :=
  Incoming.Query.mk
    (QueryValue.Single <$> Query.page q)
    (QueryValue.Single <$> Query.limit q)
    (QueryValue.Single <$> Query.search q)
    (QueryValue.Single <$> Query.sortBy q)
    (QueryValue.Single <$> Query.sortOrder q)
    (QueryValue.Single <$> Query.minLiquidity q)
    (QueryValue.Single <$> Query.category q).

Definition incomingFilters (f : Filters.t) : Incoming.Filters.t :=
  Incoming.Filters.mk
    (QueryValue.Single (Filters.search f))
    (QueryValue.Single (Filters.sortBy f))
    (QueryValue.Single (Filters.sortOrder f))
    (Filters.minLiquidity f)
    (QueryValue.Single (Filters.category f)).

Definition incomingResponse (r : Response) : Incoming.Response :=
  match r with
  | MethodNotAllowed => Incoming.MethodNotAllowed
  | Success body =>
      Incoming.Success
        (Incoming.Body.mk (Body.success body) (Body.data body)
           (Body.pagination body) (incomingFilters (Body.filters body))
           (Body.cached body) (Body.totalPairs body)
           (Body.priceDataFresh body))
  | ServerError => Incoming.ServerError
  end.

(** ** A reference engine

    One admissible choice of what the section [Pipeline] leaves to the
    engine; the closed examples below run the pipeline on it. *)
Module Engine.

(** The integer a finite Number [m * 2^e] is, if it is one. *)
Definition integerValue (m : positive) (e : Z) : option Z :=
  if 0 <=? e then Some (Zpos m * 2 ^ e)
  else if Zpos m mod 2 ^ (- e) =? 0 then Some (Zpos m / 2 ^ (- e))
  else None.

(** [(m * 2^e)^n], correctly rounded, for an integer [n <> 0]. *)
Definition integerPower (negative : bool) (m : positive) (e n : Z)
    : Number.float :=
  let s := negative && Z.odd n in
  match n with
  | Zpos k => binary_round Number.prec Number.emax s (m ^ k) (e * n)
  | Zneg k =>
      let '(q, e', l) :=
        SFdiv_core_binary Number.prec Number.emax
          1 0 (Zpos (m ^ k)) (e * Zpos k) in
      binary_round_aux Number.prec Number.emax s q e' l
  | Z0 => Number.one
  end.

(** [Math.pow]: the cases ECMAScript fixes, and the correctly rounded
    power for integer exponents. A finite exponent that is not an
    integer never reaches [Math.pow] in this program (the exponent is a
    difference of two [parseInt] results); the reference answers NaN
    there. *)
Definition pow (base exponent : Number.float) : Number.float :=
  match exponent with
  | S754_nan => Number.NaN
  | S754_zero _ => Number.one
  | S754_infinity se =>
      match SFcompare (SFabs base) Number.one with
      | Some Gt => if se then Number.zero else Number.infinity false
      | Some Lt => if se then Number.infinity false else Number.zero
      | _ => Number.NaN
      end
  | S754_finite se me ee =>
      let oddInt :=
        match integerValue me ee with
        | Some n => Z.odd n
        | None => false
        end in
      match base with
      | S754_nan => Number.NaN
      | S754_infinity sb =>
          if se then S754_zero (sb && oddInt)
          else S754_infinity (sb && oddInt)
      | S754_zero sb =>
          if se then S754_infinity (sb && oddInt)
          else S754_zero (sb && oddInt)
      | S754_finite sb mb eb =>
          match integerValue me ee with
          | Some n => integerPower sb mb eb (if se then - n else n)
          | None => Number.NaN
          end
      end
  end.

Fixpoint compareBytes (a b : string) : comparison :=
  match a, b with
  | EmptyString, EmptyString => Eq
  | EmptyString, String _ _ => Lt
  | String _ _, EmptyString => Gt
  | String x a', String y b' =>
      match (N_of_ascii x ?= N_of_ascii y)%N with
      | Eq => compareBytes a' b'
      | c => c
      end
  end.

(** [localeCompare] under a collation that orders text byte by byte. *)
Definition localeCompare (a b : string) : Number.float :=
  match compareBytes a b with
  | Lt => Number.ofZ (-1)
  | Eq => Number.zero
  | Gt => Number.ofZ 1
  end.

(** Among the [k]-digit decimals [c * 10^j] next to [x], the one that
    reads back as [v] and is nearest to [x] (the even one on a tie). *)
Definition shortestAt (v : Number.float) (x j : Z) : option Z :=
  let lo := x / 10 ^ j in
  let hi := lo + 1 in
  let ok c := Number.eqb (Number.ofZ (c * 10 ^ j)) v in
  let dlo := x - lo * 10 ^ j in
  let dhi := hi * 10 ^ j - x in
  match ok lo, ok hi with
  | true, true =>
      if dlo <? dhi then Some lo
      else if dhi <? dlo then Some hi
      else Some (if Z.even lo then lo else hi)
  | true, false => Some lo
  | false, true => Some hi
  | false, false => None
  end.

Fixpoint shortest (fuel : nat) (v : Number.float) (x n k : Z)
    : Z * Z :=
  match fuel with
  | O => (x, n)
  | S fuel' =>
      match shortestAt v x (n - k) with
      | Some c => if c =? 10 ^ k then (1, n + 1) else (c, n)
      | None => shortest fuel' v x n (k + 1)
      end
  end.

(** [Number::toString] on a finite Number of magnitude at least 10^21:
    the fewest digits that read back as the same Number, in exponent
    form. *)
Definition toStringLarge (v : Number.float) : string :=
  match v with
  | S754_finite _ m e =>
      let x := Zpos m * 2 ^ e in
      let n := Z.of_nat (String.length (JsString.ofNat x)) in
      let '(c, n') := shortest 21 v x n 1 in
      let d := JsString.ofNat c in
      (JsString.take 1 d +:+
       (if (1 <? String.length d)%nat then "." +:+ JsString.drop 1 d
        else "") +:+
       "e+" +:+ JsString.ofNat (n' - 1))%string
  | _ => EmptyString
  end.

End Engine.

(** ** The long-running server

    [server.js] keeps a cache between requests. A route is a function of
    the cache it finds, of the clock readings it takes and of what the
    upstream client answers; it gives the response and the cache it
    leaves. A request is followed from its start to its end: no other
    request touches the cache while it waits for the client. *)

Module Cache.
Record t := mk {
  assets : option (list Asset.t);
  pools : option (list Pool.t);
  lastUpdated : option Z;
  pairs : option (list Pair.t)
}.

(** [{ assets: null, pools: null, lastUpdated: null }]; [pairs] is not
    set until a pair route stores it. *)
Definition initial : t := mk None None None None.
End Cache.

Definition CACHE_DURATION : Z := 60000.

(** The value of [isCacheValid()]: [a && b] is [a] itself when [a] is
    falsy, here [null] or the number 0. *)
Inductive Validity :=
| ValidityNull
| ValidityZero
| ValidityBool (b : bool).

Definition validityTruthy (v : Validity) : bool :=
  match v with
  | ValidityBool b => b
  | _ => false
  end.

(** [isCacheValid()], with [now] the reading of [Date.now()]. *)
Definition isCacheValid (cache : Cache.t) (now : Z) : Validity :=
  match Cache.lastUpdated cache with
  | None => ValidityNull
  | Some 0 => ValidityZero
  | Some lastUpdated => ValidityBool (now - lastUpdated <? CACHE_DURATION)
  end.

(** What the calls of the upstream client resolve to: the arrays the
    SDK returns, [None] for a rejected promise. On an array
    [assets.asset_list || assets] is the array itself. *)
Module Upstream.
Record t := mk {
  getAssets : option (list Asset.t);
  getPools : option (list Pool.t)
}.
End Upstream.

Inductive PairResponse :=
| PairFound (data : Pair.t) (lastUpdated : option Z)   (* status 200 *)
| PairNotFound (message : string)                      (* status 404 *)
| PairError.                                           (* status 500 *)

Inductive SearchResponse :=
| SearchResults (data : list Pair.t) (query : string) (totalResults : Z)
    (lastUpdated : option Z)                           (* status 200 *)
| SearchError.                                         (* status 500 *)

(** The response of [/api/assets] and [/api/pools]; the cached answer
    has no total. *)
Inductive ListResponse (A : Type) :=
| Listed (data : list A) (cached : bool) (total : option Z)
| ListError.
Arguments Listed {A}.
Arguments ListError {A}.

(** The body of [/api/health]; [timestamp], a clock reading, is left
    out. *)
Module Health.
Record t := mk {
  success : bool;
  message : string;
  priceDataCached : bool;
  assetsMetadataCached : Validity;
  lastMetadataUpdate : option Z
}.
End Health.

(** The test of the search route: that of [filterAndSortPairs] without
    the pool address. *)
Definition routeSearchMatches (searchTerm : string) (pair : Pair.t)
    : option bool :=
  orThrow (lowerIncludes (Some (Pair.name pair)) searchTerm)
  (orThrow (lowerIncludes (Token.symbol (Pair.token0 pair)) searchTerm)
  (orThrow (lowerIncludes (Token.symbol (Pair.token1 pair)) searchTerm)
  (orThrow (lowerIncludes (Token.name (Pair.token0 pair)) searchTerm)
           (lowerIncludes (Token.name (Pair.token1 pair)) searchTerm)))).

Section Server.

Variable Math_pow : Number.float -> Number.float -> Number.float.
Variable toStringLarge : Number.float -> string.

(** The block both pair routes start with: when the cache is not valid
    or holds no pairs, fetch, derive the pairs and stamp the cache with
    the reading [later] of the clock. [None] when a fetch fails. *)
Definition refreshPairs (cache : Cache.t) (now later : Z)
    (upstream : Upstream.t) : option Cache.t :=
  if negb (validityTruthy (isCacheValid cache now)) ||
     negb (bool_decide (is_Some (Cache.pairs cache)))
  then
    match Upstream.getAssets upstream, Upstream.getPools upstream with
    | Some assets, Some pools =>
        Some (Cache.mk (Cache.assets cache) (Cache.pools cache)
                (Some later)
                (Some (calculateTradingPairs Math_pow toStringLarge
                         assets pools)))
    | _, _ => None
    end
  else Some cache.

(** [GET /api/pairs/:poolAddress]. *)
Definition pairRoute (cache : Cache.t) (now later : Z)
    (upstream : Upstream.t) (poolAddress : string)
    : PairResponse * Cache.t :=
  match refreshPairs cache now later upstream with
  | None => (PairError, cache)
  | Some cache =>
      match Cache.pairs cache with
      | None => (PairError, cache)
      | Some pairs =>
          match find (fun p => String.eqb (Pair.poolAddress p) poolAddress)
                  pairs with
          | None =>
              (PairNotFound
                 ("No trading pair found for pool address: " +:+ poolAddress),
               cache)
          | Some found => (PairFound found (Cache.lastUpdated cache), cache)
          end
      end
  end.

(** [GET /api/pairs/search/:query]. *)
Definition searchRoute (cache : Cache.t) (now later : Z)
    (upstream : Upstream.t) (query : string)
    : SearchResponse * Cache.t :=
  let searchTerm := JsString.toLowerCase query in
  match refreshPairs cache now later upstream with
  | None => (SearchError, cache)
  | Some cache =>
      match Cache.pairs cache with
      | None => (SearchError, cache)
      | Some pairs =>
          match filterThrow (routeSearchMatches searchTerm) pairs with
          | None => (SearchError, cache)
          | Some filteredPairs =>
              (SearchResults filteredPairs query
                 (Z.of_nat (length filteredPairs))
                 (Cache.lastUpdated cache),
               cache)
          end
      end
  end.

End Server.

(** [cache.lastUpdated] after [if (!cache.lastUpdated) cache.lastUpdated
    = Date.now()]. *)
Definition stampIfUnset (lastUpdated : option Z) (later : Z) : option Z :=
  match lastUpdated with
  | None | Some 0 => Some later
  | Some t => Some t
  end.

(** [GET /api/assets]. *)
Definition assetsRoute (cache : Cache.t) (now later : Z)
    (upstream : Upstream.t) : ListResponse Asset.t * Cache.t :=
  match (if validityTruthy (isCacheValid cache now)
         then Cache.assets cache else None) with
  | Some cached => (Listed cached true None, cache)
  | None =>
      match Upstream.getAssets upstream with
      | None => (ListError, cache)
      | Some assets =>
          (Listed assets false (Some (Z.of_nat (length assets))),
           Cache.mk (Some assets) (Cache.pools cache)
             (stampIfUnset (Cache.lastUpdated cache) later)
             (Cache.pairs cache))
      end
  end.

(** [GET /api/pools]. *)
Definition poolsRoute (cache : Cache.t) (now later : Z)
    (upstream : Upstream.t) : ListResponse Pool.t * Cache.t :=
  match (if validityTruthy (isCacheValid cache now)
         then Cache.pools cache else None) with
  | Some cached => (Listed cached true None, cache)
  | None =>
      match Upstream.getPools upstream with
      | None => (ListError, cache)
      | Some pools =>
          (Listed pools false (Some (Z.of_nat (length pools))),
           Cache.mk (Cache.assets cache) (Some pools)
             (stampIfUnset (Cache.lastUpdated cache) later)
             (Cache.pairs cache))
      end
  end.

(** [GET /api/health] of the server. *)
Definition healthRoute (cache : Cache.t) (now : Z) : Health.t :=
  Health.mk true "STON.fi API server is running - Always fresh price data"
    false (isCacheValid cache now) (Cache.lastUpdated cache).

(** A request for one of the routes that read the cache. *)
Inductive Request :=
| GetPair (poolAddress : string)
| GetSearch (query : string)
| GetAssets
| GetPools
| GetHealth.

Inductive Reply :=
| PairReply (response : PairResponse)
| SearchReply (response : SearchResponse)
| AssetsReply (response : ListResponse Asset.t)
| PoolsReply (response : ListResponse Pool.t)
| HealthReply (body : Health.t).

(** A request as it is served: the clock readings it takes, before and
    after it waited for the client, and what the client answers it. *)
Module Arrival.
Record t := mk {
  request : Request;
  now : Z;
  later : Z;
  upstream : Upstream.t
}.
End Arrival.

Section Serving.

Variable Math_pow : Number.float -> Number.float -> Number.float.
Variable toStringLarge : Number.float -> string.

(** The server answers one request. *)
Definition serve (cache : Cache.t) (a : Arrival.t) : Reply * Cache.t :=
  let now := Arrival.now a in
  let later := Arrival.later a in
  let upstream := Arrival.upstream a in
  match Arrival.request a with
  | GetPair poolAddress =>
      let '(r, c) :=
        pairRoute Math_pow toStringLarge cache now later upstream
          poolAddress in
      (PairReply r, c)
  | GetSearch query =>
      let '(r, c) :=
        searchRoute Math_pow toStringLarge cache now later upstream query in
      (SearchReply r, c)
  | GetAssets =>
      let '(r, c) := assetsRoute cache now later upstream in
      (AssetsReply r, c)
  | GetPools =>
      let '(r, c) := poolsRoute cache now later upstream in
      (PoolsReply r, c)
  | GetHealth => (HealthReply (healthRoute cache now), cache)
  end.

(** The server answers the requests one after the other. *)
Fixpoint serveAll (cache : Cache.t) (arrivals : list Arrival.t)
    : list Reply * Cache.t :=
  match arrivals with
  | [] => ([], cache)
  | a :: rest =>
      let '(r, c) := serve cache a in
      let '(rs, c') := serveAll c rest in
      (r :: rs, c')
  end.

End Serving.

(** The reply was served from the cache of assets or pools. *)
Definition servedFromCache (r : Reply) : bool :=
  match r with
  | AssetsReply (Listed _ cached _) | PoolsReply (Listed _ cached _) => cached
  | _ => false
  end.

(** *** The swap simulation *)

(** A JSON value, as [express.json()] hands the body of a request
    over. *)
#[warnings="-register-all"]
Inductive Json :=
| JNull
| JBool (b : bool)
| JNumber (x : Number.float)
| JString (s : string)
| JArray (items : list Json)
| JObject (fields : list (string * Json)).

(** Truthiness of a value that may be [undefined]. *)
Definition jsonTruthy (v : option Json) : bool :=
  match v with
  | None | Some JNull => false
  | Some (JBool b) => b
  | Some (JNumber x) => Number.truthy x
  | Some (JString s) => JsString.truthy (Some s)
  | Some (JArray _) | Some (JObject _) => true
  end.

(** [body.key] for one of the keys the route reads; of a key that
    occurs twice in the text [JSON.parse] keeps the last value. A value
    that is no object has none of these keys. *)
Definition jsonField (body : Json) (key : string) : option Json :=
  match body with
  | JObject fields =>
      snd <$> find (fun kv => String.eqb (fst kv) key) (rev fields)
  | _ => None
  end.

(** The argument of [client.simulateSwap]. *)
Module SwapQuery.
Record t := mk {
  tokenA : Json;
  tokenB : Json;
  units : Json;
  slippageTolerance : Json
}.
End SwapQuery.

Inductive SwapResponse (Simulation : Type) :=
| SwapSimulated (data : Simulation)  (* status 200 *)
| SwapBadRequest                     (* status 400 *)
| SwapError.                         (* status 500 *)
Arguments SwapSimulated {Simulation}.
Arguments SwapBadRequest {Simulation}.
Arguments SwapError {Simulation}.

Section Swap.

(** What the upstream client answers to a simulation: [None] when its
    promise rejects. *)
Variable Simulation : Type.
Variable simulateSwap : SwapQuery.t -> option Simulation.

(** [POST /api/simulate-swap]; [body] is [req.body], [None] when it is
    [undefined]. Destructuring [undefined] or [null] throws. *)
Definition simulateSwapRoute (body : option Json)
    : SwapResponse Simulation :=
  match body with
  | None | Some JNull => SwapError
  | Some body =>
      let tokenAAddress := jsonField body "tokenAAddress" in
      let tokenBAddress := jsonField body "tokenBAddress" in
      let amountIn := jsonField body "amountIn" in
      let slippageTolerance :=
        default (JString "0.001") (jsonField body "slippageTolerance") in
      match tokenAAddress, tokenBAddress, amountIn with
      | Some a, Some b, Some u =>
          if negb (jsonTruthy tokenAAddress) ||
             negb (jsonTruthy tokenBAddress) ||
             negb (jsonTruthy amountIn)
          then SwapBadRequest
          else
            match simulateSwap (SwapQuery.mk a b u slippageTolerance) with
            | Some simulation => SwapSimulated simulation
            | None => SwapError
            end
      | _, _, _ => SwapBadRequest
      end
  end.

End Swap.


(** *** The serverless health check

    [src/api/health.js]; [timestamp], a clock reading, is left out of
    the body. *)
Module HealthBody.
Record t := mk {
  success : bool;
  message : string;
  priceDataCached : bool;
  assetsMetadataCached : bool;
  lastMetadataUpdate : option Z;
  environment : string
}.
End HealthBody.

Inductive HealthResponse :=
| HealthMethodNotAllowed        (* status 405 *)
| HealthOk (body : HealthBody.t). (* status 200 *)

Definition healthHandler (method : string) : HealthResponse :=
  if negb (String.eqb method "GET") then HealthMethodNotAllowed
  else
    HealthOk
      (HealthBody.mk true
         "STON.fi API server is running on Vercel - Always fresh price data"
         false false None "vercel").

(** ** Vocabulary of the properties *)

(** A pool yields a pair when its address and both token addresses are
    non-empty and both token addresses resolve in the asset map. *)
Definition poolQualifies (assetMap : AssetMap.t) (pool : Pool.t) : bool :=
  JsString.truthy (Pool.address pool) &&
  JsString.truthy (Pool.token0Address pool) &&
  JsString.truthy (Pool.token1Address pool) &&
  bool_decide
    (is_Some (AssetMap.get assetMap
                (default EmptyString (Pool.token0Address pool)))) &&
  bool_decide
    (is_Some (AssetMap.get assetMap
                (default EmptyString (Pool.token1Address pool)))).

(** A key of [assetMap] that finds only what the loop stored: not
    empty, not [__proto__], no member name of [Object.prototype]. *)
Definition ordinaryKey (k : string) : Prop :=
  k <> EmptyString /\ k <> "__proto__"%string /\
  existsb (String.eqb k) AssetMap.objectPrototypeNames = false.

(** The last asset of the list whose [contractAddress] is [k]. *)
Definition lastWithAddress (k : string) (assets : list Asset.t)
    : option Asset.t :=
  find (fun a => bool_decide (Asset.contractAddress a = Some k)) (rev assets).

(** The Number a pair is sorted on, for each [sortBy]; [None] when the
    pairs are sorted on their names. *)
Definition sortKey (sortBy : string) (pair : Pair.t)
    : option Number.float :=
  if String.eqb sortBy "liquidity" then Some (Pair.liquidity pair)
  else if String.eqb sortBy "volume" then Some (Pair.volume24h pair)
  else if String.eqb sortBy "apy" then Some (Pair.apy pair)
  else if String.eqb sortBy "name" then None
  else if String.eqb sortBy "price" then Some (Pair.price pair)
  else Some (Pair.liquidity pair).

(** The sort key of the pair, when it is a Number, is a binary64 value
    other than NaN. *)
Definition keySortable (sortBy : string) (pair : Pair.t) : Prop :=
  match sortKey sortBy pair with
  | Some k => Number.sortable k
  | None => True
  end.

(** [{ ...filters, sortOrder }]. *)
Definition withSortOrder (filters : Filters.t) (sortOrder : string)
    : Filters.t :=
  Filters.mk (Filters.search filters) (Filters.sortBy filters) sortOrder
    (Filters.minLiquidity filters) (Filters.category filters).

(** The order [calculateTradingPairs] leaves its pairs in: [a] stands
    before [b] when its liquidity is higher, or the liquidities are
    equal and its popularity is not lower. *)
Definition canonicalOrder (a b : Pair.t) : Prop :=
  Number.ltb (Pair.liquidity b) (Pair.liquidity a) = true \/
  (Number.eqb (Pair.liquidity a) (Pair.liquidity b) = true /\
   Number.leb (Pair.popularityIndex b) (Pair.popularityIndex a) = true).

(** Neither the liquidity nor the popularity index of the pair is NaN. *)
Definition rankable (pair : Pair.t) : Prop :=
  Pair.liquidity pair <> Number.NaN /\
  Pair.popularityIndex pair <> Number.NaN.

(** Both are binary64 values other than NaN. *)
Definition ranked (pair : Pair.t) : Prop :=
  Number.sortable (Pair.liquidity pair) /\
  Number.sortable (Pair.popularityIndex pair).

(** [{ ...filters, search }], [{ ...filters, sortBy }] and
    [{ ...filters, category }]. *)
Definition withSearch (filters : Filters.t) (search : string) : Filters.t :=
  Filters.mk search (Filters.sortBy filters) (Filters.sortOrder filters)
    (Filters.minLiquidity filters) (Filters.category filters).

Definition withSortBy (filters : Filters.t) (sortBy : string) : Filters.t :=
  Filters.mk (Filters.search filters) sortBy (Filters.sortOrder filters)
    (Filters.minLiquidity filters) (Filters.category filters).

Definition withCategory (filters : Filters.t) (category : string)
    : Filters.t :=
  Filters.mk (Filters.search filters) (Filters.sortBy filters)
    (Filters.sortOrder filters) (Filters.minLiquidity filters) category.

(** Both tokens of the pair have a symbol. *)
Definition hasSymbols (pair : Pair.t) : Prop :=
  is_Some (Token.symbol (Pair.token0 pair)) /\
  is_Some (Token.symbol (Pair.token1 pair)).


(** [token.decimals || '9'] read as an integer: 9 for an absent or zero
    [decimals]. *)
Definition effectiveDecimals (token : Asset.t) : Z :=
  match Asset.decimals token with
  | Some 0 | None => 9
  | Some z => z
  end.

Definition decimalDigitChars : list ascii :=
  ["0"; "1"; "2"; "3"; "4"; "5"; "6"; "7"; "8"; "9"]%char.

(** A text made of decimal digits. *)
Fixpoint digitString (s : string) : Prop :=
  match s with
  | EmptyString => True
  | String c r => In c decimalDigitChars /\ digitString r
  end.

(** The integer a text of decimal digits denotes. *)
Definition numeralValue (s : string) : Z :=
  fst (fst (JsString.digitsFrom JsString.digitVal 10 s 0 O)).

(** [s] is the numeral of [n / 10^f] with [f] digits after the point: at
    least one digit, a point when [f] is not 0, and [f] digits. *)
Definition fixedPoint (f : nat) (n : Z) (s : string) : Prop :=
  exists int frac,
    s = (int +:+ (match f with O => "" | S _ => "." end) +:+ frac)%string /\
    int <> EmptyString /\
    digitString int /\ digitString frac /\
    String.length frac = f /\
    numeralValue (int +:+ frac) = n.

(** [n] is the integer nearest to [x * 10^f], the larger one on a tie. *)
Definition nearestScaled (f : nat) (x : Number.float) (n : Z) : Prop :=
  - 2 ^ 1074 <=
    2 * (Number.units x * 10 ^ Z.of_nat f - n * 2 ^ 1074) < 2 ^ 1074.

(** The record of a mantissa that has lost no digit to a shift. *)
Definition exactRecord (m : Z) : shr_record :=
  {| shr_m := m; shr_r := false; shr_s := false |}.

(** The Number that is the positive integer [p], for [p] below 2^53: the
    digits of [p] moved up to fill the 53 bits of the mantissa. *)
Definition integerMantissa (p : positive) : positive :=
  Z.to_pos (Zpos p * 2 ^ (53 - Zpos (digits2_pos p))).

Definition integerNumber (p : positive) : Number.float :=
  S754_finite false (integerMantissa p) (Zpos (digits2_pos p) - 53).

(** ** Sample data *)

(** A pair with the given symbols and display names and nothing else of
    interest. *)
Definition pairNamed (symbol0 name0 symbol1 name1 : string) : Pair.t :=
  Pair.mk "P" (symbol0 +:+ "/" +:+ symbol1)%string
    (Token.mk (Some symbol0) (Some name0) None None Number.zero)
    (Token.mk (Some symbol1) (Some name1) None None Number.zero)
    Number.zero "0.00" Number.zero Number.zero Number.zero "P"
    (Reserves.mk Number.zero Number.zero) Number.zero.

(** The assets and the pool of scenarios A and B, without USD prices. *)
Definition scenarioTon : Asset.t :=
  Asset.mk (Some "T0") (Some "TON") None (Some 9) None.
Definition scenarioSton : Asset.t :=
  Asset.mk (Some "T1") (Some "STON") None (Some 9) None.
Definition scenarioPool : Pool.t :=
  Pool.mk (Some "P1") (Some "T0") (Some "T1") (Some "100") (Some "500")
    (Some "1000") None None None None.

(** A pool whose token addresses are member names of [Object.prototype]. *)
Definition inheritedNamesPool : Pool.t :=
  Pool.mk (Some "P9") (Some "constructor") (Some "toString")
    None None None None None None None.

(** A pool like the one of the scenario, with token1 reserve -500. *)
Definition negativeReservePool : Pool.t :=
  Pool.mk (Some "P1") (Some "T0") (Some "T1") (Some "100") (Some "-500")
    (Some "1000") None None None None.

(** The digit 1 followed by 309 zeros: a decimal text beyond the largest
    finite Number. *)
Definition hugeDecimal : string := String "1" (JsString.zeros 309).

Definition hugePriceTon : Asset.t :=
  Asset.mk (Some "T0") (Some "TON") None (Some 9) (Some hugeDecimal).
Definition hugePriceSton : Asset.t :=
  Asset.mk (Some "T1") (Some "STON") None (Some 9) (Some hugeDecimal).

(** A pair with the given pool address and liquidity. *)
Definition pairWith (poolAddress : string) (liquidity : Number.float)
    : Pair.t :=
  Pair.mk poolAddress "TON/STON"
    (Token.mk (Some "TON") (Some "TON") (Some "T0") (Some 9) Number.zero)
    (Token.mk (Some "STON") (Some "STON") (Some "T1") (Some 9) Number.zero)
    (Number.ofZ 5) "5.00" liquidity Number.zero Number.zero poolAddress
    (Reserves.mk (Number.ofZ 100) (Number.ofZ 500)) Number.zero.

(** The filters of a request without parameters. *)
Definition defaultFilters : Filters.t :=
  Filters.mk "" "liquidity" "desc" Number.zero "all".

(** The assets of the scenario, and a second pool of the same tokens
    with twice the liquidity. *)
Definition scenarioAssets : list Asset.t := [scenarioTon; scenarioSton].

Definition deeperPool : Pool.t :=
  Pool.mk (Some "P2") (Some "T0") (Some "T1") (Some "100") (Some "500")
    (Some "2000") None None None None.

(** The first token of the scenario as an asset without a symbol. *)
Definition namelessTon : Asset.t :=
  Asset.mk (Some "T0") None None (Some 9) None.

(** A token with [decimals: 0] and one with 6 decimals. *)
Definition wholeUnitToken : Asset.t :=
  Asset.mk (Some "T0") (Some "NFT") None (Some 0) None.
Definition sixDecimalsToken : Asset.t :=
  Asset.mk (Some "T1") (Some "USDT") None (Some 6) None.

(** A request without parameters, and one that searches. *)
Definition noQuery : Query.t := Query.mk None None None None None None None.

(** An upstream that answers with the scenario. *)
Definition scenarioUpstream : Upstream.t :=
  Upstream.mk (Some scenarioAssets) (Some [scenarioPool; deeperPool]).

(** A cache that was stamped at time 1000 and holds assets fetched
    before. *)
Definition stampedCache : Cache.t :=
  Cache.mk (Some [namelessTon]) None (Some 1000) None.

(** * Properties *)

(** ** Substrings and case *)

Module StringFacts.
Import JsString.

Lemma startsWith_spec (k s : string) :
  startsWith k s = true <-> exists post, s = (k +:+ post)%string.
Proof.
  revert s; induction k as [|a k IH]; intros s; simpl.
  - split; [intros _; now exists s | reflexivity].
  - destruct s as [|b s]; simpl.
    + split; [discriminate | intros [post H]; discriminate].
    + rewrite andb_true_iff, Ascii.eqb_eq, IH. split.
      * intros [-> [post ->]]. now exists post.
      * intros [post H]. injection H as -> ->. split; [reflexivity|now exists post].
Qed.

Lemma includes_spec (s k : string) :
  includes s k = true <-> occursIn k s.
Proof.
  unfold occursIn. induction s as [|c s IH].
  - simpl. rewrite orb_false_r, startsWith_spec. split.
    + intros [post H]. now exists EmptyString, post.
    + intros [[|a pre] [post H]]; [now exists post | discriminate].
  - cbn [includes]. rewrite orb_true_iff, startsWith_spec, IH. split.
    + intros [[post H] | [pre [post H]]].
      * now exists EmptyString, post.
      * exists (String c pre), post. simpl. now rewrite H.
    + intros [[|a pre] [post H]].
      * left. now exists post.
      * right. simpl in H. injection H as _ H. now exists pre, post.
Qed.

Lemma toLowerCase_app (a b : string) :
  toLowerCase (a +:+ b) = (toLowerCase a +:+ toLowerCase b)%string.
Proof. induction a as [|c a IH]; simpl; [reflexivity | now rewrite IH]. Qed.

Lemma toLowerCase_split (s a b : string) :
  toLowerCase s = (a +:+ b)%string ->
  exists a' b',
    s = (a' +:+ b')%string /\ toLowerCase a' = a /\ toLowerCase b' = b.
Proof.
  revert s; induction a as [|c a IH]; intros s H.
  - now exists EmptyString, s.
  - destruct s as [|d s]; [discriminate|]. simpl in H.
    injection H as Hc H. destruct (IH _ H) as (a' & b' & -> & Ha & Hb).
    exists (String d a'), b'. simpl. now rewrite Hc, Ha.
Qed.

(** A lower-case test on the lowered text is a test up to case on the
    text itself. *)
Lemma includes_toLowerCase (s k : string) :
  includes (toLowerCase s) k = true <-> occursIgnoringCase k s.
Proof.
  rewrite includes_spec. unfold occursIn, occursIgnoringCase. split.
  - intros (pre & post & H).
    apply toLowerCase_split in H as (pre' & r & -> & _ & H).
    apply toLowerCase_split in H as (u & post' & -> & Hu & _).
    now exists pre', u, post'.
  - intros (pre & u & post & -> & <-).
    exists (toLowerCase pre), (toLowerCase post).
    now rewrite !toLowerCase_app.
Qed.

Lemma existsb_includes (s : string) (ks : list string) :
  existsb (includes (toLowerCase s)) ks = true <->
  exists k, In k ks /\ occursIgnoringCase k s.
Proof.
  rewrite existsb_exists. split; intros (k & Hin & H); exists k;
    (split; [assumption | now apply includes_toLowerCase]).
Qed.

End StringFacts.

(** ** Category classification *)

Lemma categoryMatches_existsb (c : Category) (pair : Pair.t) :
  categoryMatches (categoryName c) pair =
  existsb (JsString.includes (JsString.toLowerCase (joinedSymbols pair)))
          (symbolKeywords c) ||
  existsb (JsString.includes (JsString.toLowerCase (joinedNames pair)))
          (nameKeywords c).
Proof.
  unfold categoryMatches. fold (joinedSymbols pair) (joinedNames pair).
  generalize (JsString.includes (JsString.toLowerCase (joinedSymbols pair))).
  generalize (JsString.includes (JsString.toLowerCase (joinedNames pair))).
  intros nam sym.
  destruct c; cbn [categoryName String.eqb Ascii.eqb Bool.eqb
                   symbolKeywords nameKeywords existsb];
    rewrite ?orb_false_r, <- ?orb_assoc; reflexivity.
Qed.



(** Every keyword the code looks for, in either text, is a keyword of the
    glossary: a classified pair does carry a glossary keyword. *)
Lemma categoryMatches_glossary (c : Category) (pair : Pair.t) :
  categoryMatches (categoryName c) pair = true ->
  exists k, In k (glossaryKeywords c) /\
            (JsString.occursIgnoringCase k (joinedSymbols pair) \/
             JsString.occursIgnoringCase k (joinedNames pair)).
Proof.
  rewrite categoryMatches_existsb, orb_true_iff,
    !StringFacts.existsb_includes.
  intros [(k & Hin & H) | (k & Hin & H)]; exists k; (split; [|tauto]);
    destruct c; simpl in *; tauto.
Qed.

(** ** Pagination *)

Module PaginationFacts.

Lemma slice_from (A : Type) (l : list A) (start count : Z) :
  0 <= start -> 0 <= count ->
  Array.slice l start (start + count) =
  firstn (Z.to_nat count) (skipn (Z.to_nat start) l).
Proof.
  intros Hs Hc. unfold Array.slice, Array.relativeIndex.
  destruct (Z.ltb_spec start 0) as [?|_]; [lia|].
  destruct (Z.ltb_spec (start + count) 0) as [?|_]; [lia|].
  set (len := Z.of_nat (length l)).
  destruct (Z.le_gt_cases len start) as [Hle|Hlt].
  - rewrite !(skipn_all2 l) by (subst len; lia).
    now rewrite !firstn_nil.
  - replace (Z.min start len) with start by lia.
    destruct (Z.le_gt_cases count (len - start)) as [H1|H1].
    + do 2 f_equal. lia.
    + rewrite !firstn_all2; [reflexivity| |]; rewrite length_skipn;
        subst len; lia.
Qed.

Lemma length_slice_from (A : Type) (l : list A) (start count : Z) :
  0 <= start -> 0 <= count ->
  Z.of_nat (length (Array.slice l start (start + count))) =
  Z.min count (Z.max 0 (Z.of_nat (length l) - start)).
Proof.
  intros Hs Hc. rewrite slice_from by assumption.
  rewrite length_firstn, length_skipn. lia.
Qed.

(** [ceilDiv a b] is the least integer [t] with [a <= t * b]. *)
Lemma ceilDiv_spec (a b : Z) :
  0 < b ->
  exists t, ceilDiv a b = CountOf t /\ (t - 1) * b < a <= t * b.
Proof.
  intros Hb. unfold ceilDiv.
  destruct (Z.eqb_spec b 0) as [?|_]; [lia|].
  eexists; split; [reflexivity|].
  pose proof (Z.div_mod (- a) b ltac:(lia)).
  pose proof (Z.mod_pos_bound (- a) b Hb). nia.
Qed.

End PaginationFacts.

(** C7. For a page number and a page size that are at least 1,
    [paginateResults] returns the items from index [(page-1)*limit] up to
    [limit] further; their number is
    [min(limit, max(0, length - (page-1)*limit))]; [totalPages] is the
    ceiling of [length / limit]; [hasNextPage] says [page < totalPages] and
    [hasPrevPage] says [page > 1]; a page past [totalPages] is empty. *)
Theorem paginateResults_page (A : Type) (items : list A) (page limit : Z) :
  1 <= page -> 1 <= limit ->
  let result := paginateResults items page limit in
  let start := (page - 1) * limit in
  let total := Z.of_nat (length items) in
  Page.data result =
    firstn (Z.to_nat limit) (skipn (Z.to_nat start) items) /\
  Z.of_nat (length (Page.data result)) =
    Z.min limit (Z.max 0 (total - start)) /\
  exists totalPages,
    Pagination.totalPages (Page.pagination result) = CountOf totalPages /\
    (totalPages - 1) * limit < total <= totalPages * limit /\
    Pagination.totalItems (Page.pagination result) = total /\
    (Pagination.hasNextPage (Page.pagination result) = true <->
       page < totalPages) /\
    (Pagination.hasPrevPage (Page.pagination result) = true <-> page > 1) /\
    (totalPages < page -> Page.data result = []).
Proof.
  intros Hp Hl result start total.
  assert (Hs : 0 <= start) by (subst start; nia).
  assert (Hdata : Page.data result = Array.slice items start (start + limit))
    by reflexivity.
  split; [rewrite Hdata; apply PaginationFacts.slice_from; lia|].
  split; [rewrite Hdata; apply PaginationFacts.length_slice_from; lia|].
  destruct (PaginationFacts.ceilDiv_spec total limit ltac:(lia)) as (t & Ht & Hb).
  exists t. subst result. unfold paginateResults. cbn.
  fold total. rewrite Ht. cbn.
  repeat split; try lia; try assumption.
  - intros Hlt. fold start.
    rewrite PaginationFacts.slice_from by lia.
    rewrite skipn_all2; [apply firstn_nil|]. subst start total. nia.
Qed.

Lemma paginateResults_page_witness :
  let result := paginateResults (seq 1 120) 3 50 in
  Page.data result = seq 101 20 /\
  Pagination.totalPages (Page.pagination result) = CountOf 3 /\
  Pagination.hasNextPage (Page.pagination result) = false /\
  Pagination.hasPrevPage (Page.pagination result) = true.
Proof.
  pose proof (paginateResults_page nat (seq 1 120) 3 50 ltac:(lia) ltac:(lia))
    as (Hdata & _).
  split; [rewrite Hdata; reflexivity | repeat split].
Defined.

(** C9. With a page size of at least 1, page 0 is always empty; a page
    below 0 is read through negative [slice] indices, so whenever
    [length + (page-1)*limit] is not negative it holds the [limit] items
    that start that far from the end of the list — page -1 of size 3 of
    the list 1..10 is [5, 6, 7]. *)
Theorem paginateResults_page_below_one
    (A : Type) (items : list A) (limit : Z) :
  1 <= limit ->
  Page.data (paginateResults items 0 limit) = [] /\
  (forall page,
     page < 0 ->
     let from := Z.of_nat (length items) + (page - 1) * limit in
     0 <= from ->
     Page.data (paginateResults items page limit) =
       firstn (Z.to_nat limit) (skipn (Z.to_nat from) items) /\
     Z.of_nat (length (Page.data (paginateResults items page limit))) =
       limit) /\
  Page.data (paginateResults [1; 2; 3; 4; 5; 6; 7; 8; 9; 10] (-1) 3) =
    [5; 6; 7].
Proof.
  intros Hl. split; [|split; [|reflexivity]].
  - unfold paginateResults, Array.slice, Array.relativeIndex. cbn [Page.data].
    destruct (Z.ltb_spec ((0 - 1) * limit) 0) as [_|?]; [|lia].
    destruct (Z.ltb_spec ((0 - 1) * limit + limit) 0) as [?|_]; [lia|].
    replace (Z.max _ 0) with 0 by lia. reflexivity.
  - intros page Hp from Hfrom.
    assert (Hdata :
      Page.data (paginateResults items page limit) =
      firstn (Z.to_nat limit) (skipn (Z.to_nat from) items)).
    { unfold paginateResults, Array.slice, Array.relativeIndex.
      cbn [Page.data].
      destruct (Z.ltb_spec ((page - 1) * limit) 0) as [_|?]; [|nia].
      destruct (Z.ltb_spec ((page - 1) * limit + limit) 0) as [_|?]; [|nia].
      fold from. do 2 f_equal; lia. }
    split; [exact Hdata|].
    rewrite Hdata, length_firstn, length_skipn. subst from. nia.
Qed.

Lemma paginateResults_page_below_one_witness :
  Page.data (paginateResults [1; 2; 3; 4; 5; 6; 7; 8; 9; 10] 0 3) = [] /\
  Page.data (paginateResults [1; 2; 3; 4; 5; 6; 7; 8; 9; 10] (-2) 3) =
    [2; 3; 4].
Proof.
  pose proof (paginateResults_page_below_one Z
                [1; 2; 3; 4; 5; 6; 7; 8; 9; 10] 3 ltac:(lia))
    as (H0 & Hneg & _).
  split; [exact H0|].
  destruct (Hneg (-2) ltac:(lia) ltac:(simpl; lia)) as (H & _).
  rewrite H. reflexivity.
Defined.

(** ** Query parameters *)



(** ** Sorting keeps the elements *)

Module SortFacts.
Section Perm.
Context {A : Type}.
Variable comparefn : A -> A -> Number.float.

Lemma insert_perm (x : A) (l : list A) :
  Permutation (Array.insert comparefn x l) (x :: l).
Proof.
  induction l as [|y r IH]; simpl; [reflexivity|].
  destruct (Array.sign _); try reflexivity.
  rewrite IH. apply perm_swap.
Qed.

Lemma sort_perm (l : list A) : Permutation (Array.sort comparefn l) l.
Proof.
  induction l as [|x r IH]; simpl; [reflexivity|].
  now rewrite insert_perm, IH.
Qed.

Lemma sort_length (l : list A) :
  length (Array.sort comparefn l) = length l.
Proof. apply Permutation_length, sort_perm. Qed.

Lemma sort_In (x : A) (l : list A) :
  In x (Array.sort comparefn l) <-> In x l.
Proof.
  split; apply Permutation_in;
    [apply sort_perm | symmetry; apply sort_perm].
Qed.
End Perm.
End SortFacts.

(** ** Joining pools with assets *)

Section Join.
Variable Math_pow : Number.float -> Number.float -> Number.float.
Variable toStringLarge : Number.float -> string.

Let poolPair := pairOfPool Math_pow toStringLarge.

Lemma pairOfPool_qualifies (assetMap : AssetMap.t) (pool : Pool.t) :
  poolQualifies assetMap pool = true ->
  exists pair,
    poolPair assetMap pool = Some pair /\
    Some (Pair.id pair) = Pool.address pool /\
    Some (Pair.poolAddress pair) = Pool.address pool /\
    Token.address (Pair.token0 pair) =
      (AssetMap.get assetMap (default EmptyString (Pool.token0Address pool))
         ≫= Asset.contractAddress) /\
    Token.address (Pair.token1 pair) =
      (AssetMap.get assetMap (default EmptyString (Pool.token1Address pool))
         ≫= Asset.contractAddress).
Proof.
  unfold poolQualifies, poolPair, pairOfPool.
  rewrite !andb_true_iff, !bool_decide_eq_true.
  intros ((((Ha & H0) & H1) & [t0 E0]) & [t1 E1]).
  destruct (Pool.address pool) as [[|c r]|]; try discriminate.
  destruct (Pool.token0Address pool) as [[|c0 r0]|]; try discriminate.
  destruct (Pool.token1Address pool) as [[|c1 r1]|]; try discriminate.
  cbn in E0, E1. rewrite E0, E1. eexists; split; [reflexivity|].
  cbn. rewrite E0, E1. repeat split.
Qed.

Lemma pairOfPool_not_qualifies (assetMap : AssetMap.t) (pool : Pool.t) :
  poolQualifies assetMap pool = false ->
  poolPair assetMap pool = None.
Proof.
  unfold poolQualifies, poolPair, pairOfPool.
  destruct (Pool.token0Address pool) as [[|c0 r0]|];
    rewrite ?andb_false_r; try reflexivity;
  destruct (Pool.token1Address pool) as [[|c1 r1]|];
    rewrite ?andb_false_r; try reflexivity;
  destruct (Pool.address pool) as [[|c r]|];
    rewrite ?andb_false_r; try reflexivity.
  cbn. destruct (AssetMap.get assetMap (String c0 r0)) as [t0|];
    [|reflexivity].
  destruct (AssetMap.get assetMap (String c1 r1)) as [t1|];
    [|reflexivity].
  rewrite !bool_decide_eq_true_2 by (eexists; reflexivity). discriminate.
Qed.

End Join.

(** ** What the asset map holds *)

Lemma buildAssetMap_snoc (assets : list Asset.t) (asset : Asset.t) :
  buildAssetMap (assets ++ [asset]) = storeAsset (buildAssetMap assets) asset.
Proof. unfold buildAssetMap. now rewrite fold_left_app. Qed.

Lemma lastWithAddress_snoc (k : string) (assets : list Asset.t)
    (asset : Asset.t) :
  lastWithAddress k (assets ++ [asset]) =
  if bool_decide (Asset.contractAddress asset = Some k) then Some asset
  else lastWithAddress k assets.
Proof. unfold lastWithAddress. now rewrite rev_unit. Qed.

Lemma buildAssetMap_proto (assets : list Asset.t) :
  AssetMap.proto (buildAssetMap assets) =
  lastWithAddress "__proto__" assets.
Proof.
  induction assets as [|asset assets IH] using rev_ind; [reflexivity|].
  rewrite buildAssetMap_snoc, lastWithAddress_snoc. unfold storeAsset.
  destruct (Asset.contractAddress asset) as [[|c r]|] eqn:E;
    try (rewrite bool_decide_eq_false_2 by congruence; exact IH).
  unfold AssetMap.set. destruct (String.eqb_spec (String c r) "__proto__") as [->|Hne].
  - now rewrite bool_decide_eq_true_2.
  - rewrite bool_decide_eq_false_2 by congruence. exact IH.
Qed.

Lemma buildAssetMap_own (assets : list Asset.t) (k : string) :
  k <> EmptyString -> k <> "__proto__"%string ->
  AssetMap.own (buildAssetMap assets) !! k = lastWithAddress k assets.
Proof.
  intros Hne Hproto.
  induction assets as [|asset assets IH] using rev_ind; [reflexivity|].
  rewrite buildAssetMap_snoc, lastWithAddress_snoc. unfold storeAsset.
  destruct (Asset.contractAddress asset) as [[|c r]|] eqn:E;
    try (rewrite bool_decide_eq_false_2 by congruence; exact IH).
  unfold AssetMap.set.
  destruct (String.eqb_spec (String c r) "__proto__") as [E'|Hne'].
  - rewrite bool_decide_eq_false_2 by congruence. exact IH.
  - cbn [AssetMap.own]. destruct (decide (String c r = k)) as [<-|Hk].
    + now rewrite lookup_insert_eq, bool_decide_eq_true_2.
    + rewrite lookup_insert_ne by assumption.
      rewrite bool_decide_eq_false_2 by congruence. exact IH.
Qed.

(** For an address that is no member name of [Object.prototype], and as
    long as no asset is keyed [__proto__], a token address resolves in the
    map exactly to the last asset that carries it. *)
Lemma buildAssetMap_get (assets : list Asset.t) (k : string) :
  k <> EmptyString -> k <> "__proto__"%string ->
  existsb (String.eqb k) AssetMap.objectPrototypeNames = false ->
  lastWithAddress "__proto__" assets = None ->
  AssetMap.get (buildAssetMap assets) k = lastWithAddress k assets.
Proof.
  intros Hne Hproto Hnames Hnone. unfold AssetMap.get.
  rewrite buildAssetMap_own, buildAssetMap_proto, Hnone by assumption.
  destruct (lastWithAddress k assets); [reflexivity|].
  destruct (String.eqb_spec k "__proto__"); [contradiction|].
  unfold mbind, option_bind. now rewrite Hnames.
Qed.

Section Listed.
Variable Math_pow : Number.float -> Number.float -> Number.float.
Variable toStringLarge : Number.float -> string.

(** With ordinary token addresses the join is the one on the asset
    list: as long as no asset is keyed [__proto__], a pool whose token
    addresses are neither [__proto__] nor a member name of
    [Object.prototype] yields a pair exactly when each of them is the
    [contractAddress] of some asset, and the pair is built from the last
    asset carrying each. *)
Lemma pairOfPool_listed (assets : list Asset.t) (pool : Pool.t)
    (a k0 k1 : string) :
  lastWithAddress "__proto__" assets = None ->
  Pool.address pool = Some a -> a <> EmptyString ->
  Pool.token0Address pool = Some k0 -> ordinaryKey k0 ->
  Pool.token1Address pool = Some k1 -> ordinaryKey k1 ->
  pairOfPool Math_pow toStringLarge (buildAssetMap assets) pool =
  match lastWithAddress k0 assets, lastWithAddress k1 assets with
  | Some token0, Some token1 =>
      Some (buildPair Math_pow toStringLarge pool a token0 token1)
  | _, _ => None
  end.
Proof using Type.
  intros Hproto Ha Hne H0 K0 H1 K1.
  assert (Hget : forall k, ordinaryKey k ->
            AssetMap.get (buildAssetMap assets) k = lastWithAddress k assets).
  { intros k (Hk & Hp & Hn). unfold AssetMap.get.
    rewrite buildAssetMap_own, buildAssetMap_proto, Hproto by assumption.
    destruct (lastWithAddress k assets); [reflexivity|].
    destruct (String.eqb_spec k "__proto__"); [contradiction|].
    unfold mbind, option_bind. now rewrite Hn. }
  unfold pairOfPool. rewrite Ha, H0, H1.
  destruct a as [|c r]; [contradiction|].
  destruct k0 as [|c0 r0]; [now destruct K0|].
  destruct k1 as [|c1 r1]; [now destruct K1|].
  rewrite !Hget by assumption. reflexivity.
Qed.

Lemma lastWithAddress_none (k : string) (assets : list Asset.t) :
  lastWithAddress k assets = None <->
  Forall (fun asset => Asset.contractAddress asset <> Some k) assets.
Proof using Type.
  unfold lastWithAddress. rewrite List.Forall_forall. split.
  - intros H asset Hin E. apply in_rev in Hin.
    pose proof (find_none _ _ H asset Hin) as Hf. cbn beta in Hf.
    now rewrite bool_decide_eq_true_2 in Hf.
  - intros H. destruct (find _ _) as [asset|] eqn:E; [|reflexivity].
    apply find_some in E. destruct E as [Hin E].
    apply bool_decide_eq_true_1 in E. apply in_rev in Hin.
    now destruct (H asset Hin).
Qed.

End Listed.

(** C5. With no asset at all, a pool whose token addresses are
    [constructor] and [toString] still yields a pair. [assetMap] is a
    plain object, so both lookups find a function inherited from
    [Object.prototype], and a function passes the guard
    [if (token0 && token1)] that is to skip unresolved tokens. The pair
    has no symbols, no token addresses and the price 0. The claim asks
    for no pair here, since no asset carries these addresses; that no
    error is raised holds. *)
Theorem calculateTradingPairs_inherited_names
    (Math_pow : Number.float -> Number.float -> Number.float)
    (toStringLarge : Number.float -> string) :
  map (fun pair =>
         (Pair.id pair, Pair.name pair,
          Token.address (Pair.token0 pair),
          Token.address (Pair.token1 pair), Pair.price pair))
    (calculateTradingPairs Math_pow toStringLarge [] [inheritedNamesPool]) =
  [("P9"%string, "undefined/undefined"%string, None, None, Number.zero)].
Proof. vm_compute. reflexivity. Qed.

(** ** Assets and pools without an address *)

Section Omitted.
Variable Math_pow : Number.float -> Number.float -> Number.float.
Variable toStringLarge : Number.float -> string.

Let poolPair := pairOfPool Math_pow toStringLarge.
Let derive := calculateTradingPairs Math_pow toStringLarge.

Lemma storeAsset_no_address (m : AssetMap.t) (asset : Asset.t) :
  Asset.contractAddress asset = None \/
  Asset.contractAddress asset = Some EmptyString ->
  storeAsset m asset = m.
Proof. unfold storeAsset. now intros [-> | ->]. Qed.

Lemma buildAssetMap_app (l1 l2 : list Asset.t) :
  buildAssetMap (l1 ++ l2) = fold_left storeAsset l2 (buildAssetMap l1).
Proof. unfold buildAssetMap. now rewrite fold_left_app. Qed.

(** C10. An asset whose [contractAddress] is absent or empty leaves the
    address map as it was, wherever it stands in the list; a pool one of
    whose token addresses is that (absent or empty) address yields no
    pair, whatever the map holds, so dropping such a pool from the input
    changes nothing. *)
Theorem calculateTradingPairs_no_address (asset : Asset.t) :
  Asset.contractAddress asset = None \/
  Asset.contractAddress asset = Some EmptyString ->
  (forall before after,
     buildAssetMap (before ++ asset :: after) =
     buildAssetMap (before ++ after)) /\
  (forall before after pools,
     derive (before ++ asset :: after) pools =
     derive (before ++ after) pools) /\
  (forall pool,
     Pool.token0Address pool = Asset.contractAddress asset \/
     Pool.token1Address pool = Asset.contractAddress asset ->
     (forall assetMap, poolPair assetMap pool = None) /\
     (forall assets before after,
        derive assets (before ++ pool :: after) =
        derive assets (before ++ after))).
Proof.
  intros Haddr.
  assert (Hmap : forall before after,
             buildAssetMap (before ++ asset :: after) =
             buildAssetMap (before ++ after)).
  { intros before after. rewrite !buildAssetMap_app. cbn [fold_left].
    now rewrite storeAsset_no_address. }
  split; [exact Hmap|]. split.
  - intros before after pools. unfold derive, calculateTradingPairs.
    now rewrite Hmap.
  - intros pool Hpool.
    assert (Hnone : forall assetMap, poolPair assetMap pool = None).
    { intros assetMap. unfold poolPair, pairOfPool.
      destruct Hpool as [-> | ->]; destruct Haddr as [-> | ->];
        try reflexivity;
        destruct (Pool.token0Address pool) as [[|? ?]|]; reflexivity. }
    split; [exact Hnone|].
    intros assets before after. unfold derive, calculateTradingPairs.
    rewrite !omap_app. cbn [omap list_omap].
    fold (poolPair (buildAssetMap assets) pool).
    now rewrite Hnone.
Qed.

End Omitted.

Lemma calculateTradingPairs_no_address_witness :
  let nameless := Asset.mk None (Some "GHOST") None (Some 9) (Some "1") in
  let ton := Asset.mk (Some "T0") (Some "TON") None (Some 9) None in
  let ston := Asset.mk (Some "T1") (Some "STON") None (Some 9) None in
  let pool :=
    Pool.mk (Some "P1") (Some "T0") (Some "T1") (Some "100") (Some "500")
      (Some "1000") None None None None in
  let orphan :=
    Pool.mk (Some "P2") None (Some "T1") (Some "1") (Some "1")
      None None None None None in
  calculateTradingPairs Engine.pow Engine.toStringLarge
    [ton; nameless; ston] [pool] =
  calculateTradingPairs Engine.pow Engine.toStringLarge [ton; ston] [pool] /\
  calculateTradingPairs Engine.pow Engine.toStringLarge
    [ton; ston] [orphan; pool] =
  calculateTradingPairs Engine.pow Engine.toStringLarge [ton; ston] [pool].
Proof.
  intros nameless ton ston pool orphan.
  destruct (calculateTradingPairs_no_address
              Engine.pow Engine.toStringLarge nameless (or_introl eq_refl))
    as (_ & Hassets & Hpool).
  split.
  - exact (Hassets [ton] [ston] [pool]).
  - exact (proj2 (Hpool orphan (or_introl eq_refl)) [ton; ston] [] [pool]).
Defined.

(** ** The response of the handler *)

Lemma filterThrow_sublist (A : Type) (f : A -> option bool)
    (l l' : list A) :
  filterThrow f l = Some l' ->
  (length l' <= length l)%nat /\ (forall x, In x l' -> In x l).
Proof.
  revert l'; induction l as [|x r IH]; intros l'; cbn.
  - intros [= <-]. split; [cbn; lia | trivial].
  - destruct (f x) as [b|]; [|discriminate].
    destruct (filterThrow f r) as [r'|]; [|discriminate].
    intros [= <-]. destruct (IH _ eq_refl) as [Hlen Hin].
    destruct b; cbn [length In]; split; try lia.
    + intros y [->|H]; auto.
    + intros y H; auto.
Qed.

Lemma applyFilters_sublist (pairs filtered : list Pair.t)
    (filters : Filters.t) :
  applyFilters pairs filters = Some filtered ->
  (length filtered <= length pairs)%nat /\
  (forall pair, In pair filtered -> In pair pairs).
Proof.
  unfold applyFilters.
  set (searched := match Filters.search filters with
                   | EmptyString => Some pairs
                   | String _ _ => _
                   end).
  assert (Hs : forall l, searched = Some l ->
                 (length l <= length pairs)%nat /\
                 (forall pair, In pair l -> In pair pairs)).
  { subst searched. destruct (Filters.search filters).
    - intros l [= <-]. split; [lia | trivial].
    - intros l. apply filterThrow_sublist. }
  destruct searched as [l|]; [|discriminate].
  destruct (Hs l eq_refl) as [Hlen Hin].
  cbn. intros [= <-].
  repeat match goal with
         | |- context [if ?b then _ else _] => destruct b
         end; split;
    try (repeat (etransitivity; [apply filter_length_le|]); exact Hlen);
    intros pair; rewrite ?filter_In; intros H; apply Hin; tauto.
Qed.

Section Handler.
Variable Math_pow : Number.float -> Number.float -> Number.float.
Variable localeCompare : string -> string -> Number.float.
Variable toStringLarge : Number.float -> string.

Let derive := calculateTradingPairs Math_pow toStringLarge.
Let query := filterAndSortPairs localeCompare.
Let handle := handler Math_pow localeCompare toStringLarge.

(** Filtering never adds a pair. *)
Lemma filterAndSortPairs_length (pairs filtered : list Pair.t)
    (filters : Filters.t) :
  query pairs filters = Some filtered ->
  (length filtered <= length pairs)%nat.
Proof.
  unfold query, filterAndSortPairs.
  destruct (applyFilters pairs filters) as [l|] eqn:E; [|discriminate].
  cbn. intros [= <-]. rewrite SortFacts.sort_length.
  now apply applyFilters_sublist in E.
Qed.

(** Without a search term no callback can throw. *)
Lemma filterAndSortPairs_total (pairs : list Pair.t) (filters : Filters.t) :
  Filters.search filters = EmptyString ->
  exists filtered, query pairs filters = Some filtered.
Proof.
  intros H. unfold query, filterAndSortPairs, applyFilters. rewrite H. cbn.
  eexists; reflexivity.
Qed.

(** C2 (as the code has it). In a successful response [totalPairs] is
    the number of pairs derived from the upstream data, before any
    filter; the number of pairs that remain after the filters is
    reported as [pagination.totalItems], and it never exceeds
    [totalPairs]. *)
Theorem handler_totalPairs (q : Query.t) (assets : list Asset.t)
    (pools : list Pool.t) (body : Body.t) :
  handle "GET"%string q assets pools = Success body ->
  Body.totalPairs body = Z.of_nat (length (derive assets pools)) /\
  exists filtered,
    query (derive assets pools) (Params.filters (parseQuery q)) =
      Some filtered /\
    Pagination.totalItems (Body.pagination body) =
      Z.of_nat (length filtered) /\
    Pagination.totalItems (Body.pagination body) <= Body.totalPairs body.
Proof.
  unfold handle, handler. cbn [String.eqb Ascii.eqb Bool.eqb negb].
  fold derive.
  destruct (filterAndSortPairs _ _ _) as [filtered|] eqn:E; [|discriminate].
  intros [= <-]. cbn. split; [reflexivity|].
  exists filtered. split; [exact E|]. split; [reflexivity|].
  apply filterAndSortPairs_length in E. lia.
Qed.

End Handler.

(** C2 (as stated) fails: one pair is derived and the stablecoins filter
    removes it, so the filters leave no pair, yet [totalPairs] is 1. *)
Lemma handler_totalPairs_counts_unfiltered :
  let q := Query.mk None None None None None None (Some "stablecoins") in
  exists body,
    handler Engine.pow Engine.localeCompare Engine.toStringLarge
      "GET" q [scenarioTon; scenarioSton] [scenarioPool] = Success body /\
    filterAndSortPairs Engine.localeCompare
      (calculateTradingPairs Engine.pow Engine.toStringLarge
         [scenarioTon; scenarioSton] [scenarioPool])
      (Params.filters (parseQuery q)) = Some [] /\
    Body.totalPairs body = 1 /\
    Body.data body = [] /\
    Pagination.totalItems (Body.pagination body) = 0.
Proof.
  intros q. eexists. split; [vm_compute; reflexivity|].
  split; [vm_compute; reflexivity|]. repeat split.
Qed.

Lemma handler_totalPairs_witness :
  let q := Query.mk None None None None None None (Some "stablecoins") in
  exists body,
    handler Engine.pow Engine.localeCompare Engine.toStringLarge
      "GET" q [scenarioTon; scenarioSton] [scenarioPool] = Success body /\
    Body.totalPairs body =
      Z.of_nat (length (calculateTradingPairs Engine.pow Engine.toStringLarge
                          [scenarioTon; scenarioSton] [scenarioPool])).
Proof.
  intros q. eexists. split; [vm_compute; reflexivity|].
  refine (proj1 (handler_totalPairs Engine.pow Engine.localeCompare
                   Engine.toStringLarge q _ _ _ _)).
  vm_compute. reflexivity.
Defined.

(** ** Signs of quotients and products *)

Module NumberFacts.
Import Number.

Lemma binary_round_aux_sign (s : bool) (m e : Z) (l : location) :
  signIs s (binary_round_aux prec emax s m e l).
Proof.
  unfold binary_round_aux.
  destruct (shr_fexp _ _ m e l) as [mrs' e'].
  destruct (shr_fexp _ _ _ e' loc_Exact) as [mrs'' e''].
  destruct (shr_m mrs''); cbn; [reflexivity| |exact I].
  destruct (e'' <=? emax - prec); reflexivity.
Qed.

Lemma binary_round_sign (s : bool) (m : positive) (e : Z) :
  signIs s (binary_round prec emax s m e).
Proof.
  unfold binary_round. destruct (shl_align _ _ _) as [mz ez].
  apply binary_round_aux_sign.
Qed.

Lemma signIs_notNegative (x : float) : signIs false x -> notNegative x.
Proof. destruct x as [s|s| |s m e]; cbn; intros H; now subst. Qed.

Lemma notNegative_finite (s : bool) (m : positive) (e : Z) :
  notNegative (S754_finite s m e) -> s = false.
Proof. destruct s; [discriminate|reflexivity]. Qed.

Lemma notNegative_infinity (s : bool) :
  notNegative (S754_infinity s) -> s = false.
Proof. destruct s; [discriminate|reflexivity]. Qed.

Lemma notNegative_zero (s : bool) : notNegative (S754_zero s).
Proof. reflexivity. Qed.

Lemma positive_cases (y : float) :
  ltb zero y = true ->
  y = S754_infinity false \/ exists m e, y = S754_finite false m e.
Proof.
  destruct y as [s|[|]| |[|] m e]; try discriminate; eauto.
Qed.

(** A quotient of a number that is not negative by a positive number is
    not negative. *)
Lemma div_notNegative (x y : float) :
  notNegative x -> ltb zero y = true -> notNegative (div x y).
Proof.
  intros Hx Hy.
  destruct (positive_cases y Hy) as [-> | (my & ey & ->)];
    destruct x as [sx|sx| |sx mx ex]; try reflexivity.
  - apply notNegative_infinity in Hx. now subst.
  - apply notNegative_finite in Hx. subst. unfold div, SFdiv.
    destruct (SFdiv_core_binary _ _ _ _ _ _) as [[mz ez] lz].
    apply signIs_notNegative, binary_round_aux_sign.
Qed.

(** A product of two numbers that are not negative is not negative. *)
Lemma mul_notNegative (x y : float) :
  notNegative x -> notNegative y -> notNegative (mul x y).
Proof.
  intros Hx Hy.
  destruct x as [sx|sx| |sx mx ex], y as [sy|sy| |sy my ey];
    try reflexivity;
    try (apply notNegative_infinity in Hx; subst sx);
    try (apply notNegative_infinity in Hy; subst sy);
    try (apply notNegative_finite in Hx; subst sx);
    try (apply notNegative_finite in Hy; subst sy);
    try reflexivity.
  apply signIs_notNegative, binary_round_aux_sign.
Qed.

End NumberFacts.

(** ** Prices *)

Section Price.
Import Number NumberFacts.

Variable Math_pow : float -> float -> float.
Variable toStringLarge : float -> string.

Let derive := calculateTradingPairs Math_pow toStringLarge.

(** [Math.pow(10, y)] is never negative: it is NaN for a NaN exponent
    and a power of ten, possibly rounded to 0 or to Infinity,
    otherwise. *)
Hypothesis pow_ten_notNegative : forall y, notNegative (Math_pow ten y).

Lemma positive_notNegative (x : float) :
  ltb zero x = true -> notNegative x.
Proof.
  intros H. destruct (positive_cases x H) as [-> | (m & e & ->)];
    reflexivity.
Qed.

Lemma notNegative_cases (x : float) :
  notNegative x <-> x = NaN \/ leb zero x = true.
Proof.
  destruct x as [s|[|]| |[|] m e]; cbn; split; intros H;
    try tauto; try discriminate; try (right; reflexivity);
    try reflexivity; destruct H; discriminate.
Qed.

Lemma pairPrice_notNegative (token0 token1 : Asset.t)
    (r0 r1 u0 u1 : float) :
  ltb zero u0 && ltb zero u1 = true \/ notNegative r1 ->
  notNegative (pairPrice Math_pow token0 token1 r0 r1 u0 u1).
Proof using pow_ten_notNegative.
  intros H. unfold pairPrice.
  destruct (ltb zero u0 && ltb zero u1) eqn:E.
  - apply andb_true_iff in E as [E0 E1].
    apply div_notNegative; [apply positive_notNegative|]; assumption.
  - destruct H as [H|H]; [discriminate|].
    destruct (ltb zero r0) eqn:E0; [|reflexivity].
    apply mul_notNegative; [now apply div_notNegative|].
    apply pow_ten_notNegative.
Qed.

Lemma pairPrice_zero (token0 token1 : Asset.t) (r0 r1 u0 u1 : float) :
  ltb zero u0 && ltb zero u1 = false -> ltb zero r0 = false ->
  pairPrice Math_pow token0 token1 r0 r1 u0 u1 = zero.
Proof. intros H0 H1. unfold pairPrice. now rewrite H0, H1. Qed.

Lemma derive_inv (assets : list Asset.t) (pools : list Pool.t)
    (pair : Pair.t) :
  In pair (derive assets pools) ->
  exists pool poolAddress token0 token1,
    In pool pools /\
    pair = buildPair Math_pow toStringLarge pool poolAddress token0 token1.
Proof.
  unfold derive, calculateTradingPairs. rewrite SortFacts.sort_In.
  rewrite <- list_elem_of_In, list_elem_of_omap.
  intros (pool & Hin & H). apply list_elem_of_In in Hin.
  unfold pairOfPool in H.
  destruct (Pool.token0Address pool) as [[|c0 r0]|]; try discriminate.
  destruct (Pool.token1Address pool) as [[|c1 r1]|]; try discriminate.
  destruct (Pool.address pool) as [[|c r]|]; try discriminate.
  destruct (AssetMap.get _ (String c0 r0)) as [t0|]; [|discriminate].
  destruct (AssetMap.get _ (String c1 r1)) as [t1|]; [|discriminate].
  injection H as <-. now exists pool, (String c r), t0, t1.
Qed.

(** C4 (as the code has it). For every pair that
    [calculateTradingPairs] returns: when both tokens' USD prices are
    positive, or the pool's token1 reserve is not negative, the price is
    not negative — it is NaN or at least 0; and when neither are both
    USD prices positive nor is the token0 reserve positive, the price
    is 0. *)
Theorem calculateTradingPairs_price
    (assets : list Asset.t) (pools : list Pool.t) (pair : Pair.t) :
  In pair (derive assets pools) ->
  let usd0 := Token.usdPrice (Pair.token0 pair) in
  let usd1 := Token.usdPrice (Pair.token1 pair) in
  let reserve0 := Reserves.token0 (Pair.reserves pair) in
  let reserve1 := Reserves.token1 (Pair.reserves pair) in
  (ltb zero usd0 && ltb zero usd1 = true \/ ltb reserve1 zero = false ->
     ltb (Pair.price pair) zero = false /\
     (Pair.price pair = NaN \/ leb zero (Pair.price pair) = true)) /\
  (ltb zero usd0 && ltb zero usd1 = false -> ltb zero reserve0 = false ->
     Pair.price pair = zero).
Proof using pow_ten_notNegative.
  intros Hin.
  destruct (derive_inv _ _ _ Hin) as (pool & a & t0 & t1 & _ & ->).
  cbn. split.
  - intros H. apply pairPrice_notNegative with (token0 := t0) (token1 := t1)
      (r0 := parseFloat (JsString.orElse (Pool.reserve0 pool) "0")) in H.
    split; [exact H | now apply notNegative_cases].
  - apply pairPrice_zero.
Qed.

End Price.

(** ** Scenario B: a price from the reserves *)

Section ScenarioB.
Import Number.

Variable Math_pow : float -> float -> float.
Variable toStringLarge : float -> string.

(** [Math.pow(x, 0)] is 1, for every [x]. *)
Hypothesis pow_zero : forall x, Math_pow x zero = one.

(** C3 (as the code has it). From the assets TON and STON, keyed T0 and
    T1, with 9 decimals and no USD price, and the one pool P1 over them
    with reserves 100 and 500, [calculateTradingPairs] yields one pair;
    its price is 500/100 * 10^(9-9) = 5 and its formatted price is
    "5.00". *)
Theorem scenarioB_price :
  exists pair,
    calculateTradingPairs Math_pow toStringLarge
      [scenarioTon; scenarioSton] [scenarioPool] = [pair] /\
    Pair.price pair = ofZ 5 /\
    Pair.price pair =
      mul (div (parseFloat "500") (parseFloat "100"))
          (Math_pow ten (sub (ofZ 9) (ofZ 9))) /\
    Pair.formattedPrice pair = "5.00"%string.
Proof using pow_zero.
  assert (E : calculateTradingPairs Math_pow toStringLarge
                [scenarioTon; scenarioSton] [scenarioPool] =
              [buildPair Math_pow toStringLarge scenarioPool "P1"
                 scenarioTon scenarioSton])
    by (lazy -[buildPair]; reflexivity).
  assert (P : pairPrice Math_pow scenarioTon scenarioSton
                (parseFloat "100") (parseFloat "500") zero zero = ofZ 5).
  { unfold pairPrice.
    replace (sub _ _) with zero by (vm_compute; reflexivity).
    rewrite pow_zero. vm_compute. reflexivity. }
  eexists. split; [exact E|].
  unfold buildPair. cbn [Pair.price Pair.formattedPrice].
  change (parseFloat (JsString.orElse (Asset.dexUsdPrice scenarioTon) "0"))
    with zero.
  change (parseFloat (JsString.orElse (Asset.dexUsdPrice scenarioSton) "0"))
    with zero.
  change (JsString.orElse (Pool.reserve0 scenarioPool) "0")
    with "100"%string.
  change (JsString.orElse (Pool.reserve1 scenarioPool) "0")
    with "500"%string.
  rewrite P. split; [reflexivity|]. split.
  - replace (sub _ _) with zero by (vm_compute; reflexivity).
    rewrite pow_zero. vm_compute. reflexivity.
  - vm_compute. reflexivity.
Qed.

End ScenarioB.

(** ** The reference engine meets the assumptions *)

Module EngineFacts.
Import Number NumberFacts.

Lemma pow_zero (x : float) : Engine.pow x zero = one.
Proof. reflexivity. Qed.

Lemma integerPower_notNegative (m : positive) (e n : Z) :
  notNegative (Engine.integerPower false m e n).
Proof.
  unfold Engine.integerPower. cbn [andb]. destruct n as [|k|k].
  - reflexivity.
  - apply signIs_notNegative, binary_round_sign.
  - destruct (SFdiv_core_binary _ _ _ _ _ _) as [[q e'] l].
    apply signIs_notNegative, binary_round_aux_sign.
Qed.

Lemma pow_ten_notNegative (y : float) : notNegative (Engine.pow ten y).
Proof.
  replace ten with (S754_finite false 5629499534213120 (-49))
    by (vm_compute; reflexivity).
  destruct y as [s|[|]| |s m e]; try reflexivity.
  unfold Engine.pow. destruct (Engine.integerValue m e) as [n|];
    [apply integerPower_notNegative | reflexivity].
Qed.

Lemma sign_localeCompare (a b : string) :
  Array.sign (Engine.localeCompare a b) = Engine.compareBytes a b.
Proof.
  unfold Engine.localeCompare. destruct (Engine.compareBytes a b);
    reflexivity.
Qed.

Lemma compareBytes_antisym (a b : string) :
  Engine.compareBytes a b = CompOpp (Engine.compareBytes b a).
Proof.
  revert b; induction a as [|x a IH]; intros [|y b]; cbn;
    try reflexivity.
  rewrite (N.compare_antisym (N_of_ascii x) (N_of_ascii y)).
  destruct (N_of_ascii x ?= N_of_ascii y)%N; cbn; auto.
Qed.

Lemma compareBytes_trans (a b c : string) :
  Engine.compareBytes a b <> Gt -> Engine.compareBytes b c <> Gt ->
  Engine.compareBytes a c <> Gt.
Proof.
  revert b c; induction a as [|x a IH]; intros [|y b] [|z c]; cbn;
    try congruence.
  destruct (N.compare_spec (N_of_ascii x) (N_of_ascii y)) as [E1|E1|E1];
    destruct (N.compare_spec (N_of_ascii y) (N_of_ascii z)) as [E2|E2|E2];
    destruct (N.compare_spec (N_of_ascii x) (N_of_ascii z)) as [E3|E3|E3];
    try congruence; try lia.
  apply IH.
Qed.

Lemma localeCompare_antisym (a b : string) :
  Array.sign (Engine.localeCompare a b) =
  CompOpp (Array.sign (Engine.localeCompare b a)).
Proof. rewrite !sign_localeCompare. apply compareBytes_antisym. Qed.

Lemma localeCompare_trans (a b c : string) :
  Array.sign (Engine.localeCompare a b) <> Gt ->
  Array.sign (Engine.localeCompare b c) <> Gt ->
  Array.sign (Engine.localeCompare a c) <> Gt.
Proof. rewrite !sign_localeCompare. apply compareBytes_trans. Qed.

End EngineFacts.

Lemma scenarioB_price_witness :
  exists pair,
    calculateTradingPairs Engine.pow Engine.toStringLarge
      [scenarioTon; scenarioSton] [scenarioPool] = [pair] /\
    Pair.price pair = Number.ofZ 5 /\
    Pair.formattedPrice pair = "5.00"%string.
Proof.
  destruct (scenarioB_price Engine.pow Engine.toStringLarge
              EngineFacts.pow_zero) as (pair & E & P & _ & F).
  exists pair. repeat split; assumption.
Defined.

(** C3 (as stated) fails: the formatted price of the one pair of
    scenario B is "5.00", not "5". *)
Lemma scenarioB_formattedPrice_not_5 :
  map Pair.formattedPrice
    (calculateTradingPairs Engine.pow Engine.toStringLarge
       [scenarioTon; scenarioSton] [scenarioPool]) = ["5.00"%string] /\
  map Pair.formattedPrice
    (calculateTradingPairs Engine.pow Engine.toStringLarge
       [scenarioTon; scenarioSton] [scenarioPool]) <> ["5"%string].
Proof.
  assert (E : map Pair.formattedPrice
                (calculateTradingPairs Engine.pow Engine.toStringLarge
                   [scenarioTon; scenarioSton] [scenarioPool]) =
              ["5.00"%string]) by (vm_compute; reflexivity).
  split; [exact E|]. rewrite E. discriminate.
Qed.

(** C4 (as stated) fails twice over. With a token1 reserve of "-500" and a
    token0 reserve of "100" the price is -5. With both USD prices the
    digit 1 followed by 309 zeros, each parses to Infinity and the price,
    Infinity / Infinity, is NaN, which is not at least 0 either. *)
Lemma calculateTradingPairs_price_negative_or_NaN :
  map Pair.price
    (calculateTradingPairs Engine.pow Engine.toStringLarge
       [scenarioTon; scenarioSton] [negativeReservePool]) =
    [Number.ofZ (-5)] /\
  Number.leb Number.zero (Number.ofZ (-5)) = false /\
  Number.ltb (Number.ofZ (-5)) Number.zero = true /\
  Number.parseFloat hugeDecimal = Number.infinity false /\
  map Pair.price
    (calculateTradingPairs Engine.pow Engine.toStringLarge
       [hugePriceTon; hugePriceSton] [scenarioPool]) = [Number.NaN] /\
  Number.leb Number.zero Number.NaN = false.
Proof. repeat split; vm_compute; reflexivity. Qed.

Lemma calculateTradingPairs_price_witness :
  Forall (fun pair => Number.ltb (Pair.price pair) Number.zero = false)
    (calculateTradingPairs Engine.pow Engine.toStringLarge
       [scenarioTon; scenarioSton] [scenarioPool]).
Proof.
  apply List.Forall_forall. intros pair Hin.
  pose proof (calculateTradingPairs_price Engine.pow Engine.toStringLarge
                EngineFacts.pow_ten_notNegative _ _ _ Hin) as (H & _).
  apply H. right.
  vm_compute in Hin. destruct Hin as [<-|[]]. reflexivity.
Defined.

(** ** The order of Numbers, and the sign of a difference *)

Module FloatOrder.
Import Number.

Lemma digits2_pos_bounds (p : positive) :
  2 ^ (Zpos (digits2_pos p) - 1) <= Zpos p < 2 ^ Zpos (digits2_pos p).
Proof.
  induction p as [p IH|p IH|]; cbn [digits2_pos];
    rewrite ?Pos2Z.inj_succ; [| |cbn; lia];
    replace (Z.succ (Zpos (digits2_pos p)) - 1)
      with (Z.succ (Zpos (digits2_pos p) - 1)) by lia;
    rewrite !Z.pow_succ_r by lia; lia.
Qed.

Lemma shr_1_m (mrs : shr_record) :
  0 <= shr_m mrs -> shr_m (shr_1 mrs) = shr_m mrs / 2.
Proof.
  intros H. rewrite <- Z.div2_div.
  destruct mrs as [[|[p|p|]|p] r s]; cbn in *; try reflexivity; lia.
Qed.

Lemma iter_shr_m (p : positive) (mrs : shr_record) :
  0 <= shr_m mrs ->
  shr_m (SpecFloat.iter_pos shr_1 p mrs) = shr_m mrs / 2 ^ Zpos p.
Proof.
  revert mrs; induction p as [p IH|p IH|]; intros mrs H; cbn [SpecFloat.iter_pos].
  - assert (H1 : 0 <= shr_m (shr_1 mrs))
      by (rewrite shr_1_m by assumption; apply Z.div_pos; lia).
    assert (H2 : 0 <= shr_m (SpecFloat.iter_pos shr_1 p (shr_1 mrs)))
      by (rewrite IH by assumption; apply Z.div_pos; lia).
    rewrite IH, IH, shr_1_m by assumption.
    rewrite !Z.div_div by lia.
    f_equal. replace (Zpos p~1) with (1 + Zpos p + Zpos p) by lia.
    rewrite !Z.pow_add_r by lia. change (2 ^ 1) with 2. lia.
  - assert (H2 : 0 <= shr_m (SpecFloat.iter_pos shr_1 p mrs))
      by (rewrite IH by assumption; apply Z.div_pos; lia).
    rewrite IH, IH by assumption.
    rewrite !Z.div_div by lia.
    f_equal. replace (Zpos p~0) with (Zpos p + Zpos p) by lia.
    rewrite Z.pow_add_r by lia. reflexivity.
  - rewrite shr_1_m by assumption. reflexivity.
Qed.

Lemma shr_record_of_loc_m (m : Z) (l : location) :
  shr_m (shr_record_of_loc m l) = m.
Proof. destruct l as [|[| |]]; reflexivity. Qed.

(** Shifting to the working exponent keeps a positive mantissa positive,
    as long as the exponent is not below the least one. *)
Lemma shr_fexp_positive (m e : Z) (l : location) :
  0 < m -> emin <= e ->
  0 < shr_m (fst (shr_fexp prec emax m e l)) /\
  emin <= snd (shr_fexp prec emax m e l).
Proof.
  intros Hm He. unfold shr_fexp, shr.
  destruct m as [|q|q]; try lia. cbn [Zdigits2].
  pose proof (digits2_pos_bounds q) as [Hlo _].
  set (d := Zpos (digits2_pos q)) in *.
  unfold fexp. fold emin.
  destruct (Z.max (d + e - prec) emin - e) as [|p|p] eqn:E; cbn [fst snd];
    rewrite ?shr_record_of_loc_m; try (split; lia).
  assert (Hp : Zpos p = d - prec) by (unfold emin, SpecFloat.emin in *; lia).
  rewrite iter_shr_m by (rewrite shr_record_of_loc_m; lia).
  rewrite shr_record_of_loc_m. split; [|lia].
  apply Z.div_str_pos. split; [apply Z.pow_pos_nonneg; lia|].
  etransitivity; [|exact Hlo].
  apply Z.pow_le_mono_r; unfold prec in *; lia.
Qed.

Lemma round_nearest_even_ge (m : Z) (l : location) :
  m <= round_nearest_even m l.
Proof.
  destruct l as [|[| |]]; cbn; try lia. destruct (Z.even m); lia.
Qed.

(** Rounding a positive value that is a multiple of [2^emin] gives a
    non-zero Number of the same sign. *)
Lemma binary_round_aux_positive (s : bool) (m e : Z) (l : location) :
  0 < m -> emin <= e ->
  (exists m' e', binary_round_aux prec emax s m e l = S754_finite s m' e') \/
  binary_round_aux prec emax s m e l = S754_infinity s.
Proof.
  intros Hm He. unfold binary_round_aux.
  destruct (shr_fexp_positive m e l Hm He) as [H1 H2].
  destruct (shr_fexp prec emax m e l) as [mrs' e']. cbn [fst snd] in H1, H2.
  pose proof (round_nearest_even_ge (shr_m mrs') (loc_of_shr_record mrs')).
  set (m1 := round_nearest_even _ _) in *.
  destruct (shr_fexp_positive m1 e' loc_Exact ltac:(lia) H2) as [H3 _].
  destruct (shr_fexp prec emax m1 e' loc_Exact) as [mrs'' e''].
  cbn [fst] in H3. destruct (shr_m mrs''); try lia.
  destruct (e'' <=? emax - prec); eauto.
Qed.

Lemma binary_round_positive (s : bool) (m : positive) (e : Z) :
  emin <= e ->
  (exists m' e', binary_round prec emax s m e = S754_finite s m' e') \/
  binary_round prec emax s m e = S754_infinity s.
Proof.
  intros He. unfold binary_round, shl_align.
  assert (Hf : emin <= fexp prec emax (Zpos (digits2_pos m) + e))
    by (unfold fexp; fold emin; lia).
  destruct (fexp prec emax (Zpos (digits2_pos m) + e) - e);
    apply binary_round_aux_positive; lia.
Qed.

Lemma sign_finite (s : bool) (m : positive) (e : Z) :
  Array.sign (S754_finite s m e) = if s then Lt else Gt.
Proof. destruct s; reflexivity. Qed.

Lemma sign_infinity (s : bool) :
  Array.sign (S754_infinity s) = if s then Lt else Gt.
Proof. destruct s; reflexivity. Qed.

Lemma wellFormed_finite (s : bool) (m : positive) (e : Z) :
  wellFormed (S754_finite s m e) ->
  emin <= e <= emax - prec /\
  Zpos (digits2_pos m) <= prec /\
  (emin < e -> Zpos (digits2_pos m) = prec).
Proof.
  unfold wellFormed, valid_binary, bounded, canonical_mantissa.
  rewrite andb_true_iff, Z.eqb_eq, Z.leb_le. unfold fexp. fold emin.
  unfold emin, SpecFloat.emin, prec, emax. lia.
Qed.

Lemma pow2_pos (k : Z) : 0 <= k -> 0 < 2 ^ k.
Proof. intros H. apply Z.pow_pos_nonneg; lia. Qed.

(** A finite Number lies strictly between the infinities. *)
Lemma units_finite_bound (s : bool) (m : positive) (e : Z) :
  wellFormed (S754_finite s m e) ->
  0 < Zpos m * 2 ^ (e - emin) < 2 ^ 2098.
Proof.
  intros H. destruct (wellFormed_finite _ _ _ H) as ((He1 & He2) & Hd & _).
  pose proof (digits2_pos_bounds m) as [_ Hm].
  assert (Hm' : Zpos m < 2 ^ 53).
  { eapply Z.lt_le_trans; [exact Hm|].
    apply Z.pow_le_mono_r; unfold prec in *; lia. }
  assert (Hp : 0 < 2 ^ (e - emin)) by (apply pow2_pos; lia).
  assert (Hq : 2 ^ (e - emin) <= 2 ^ 2045)
    by (apply Z.pow_le_mono_r;
        unfold emin, SpecFloat.emin, prec, emax in *; lia).
  replace (2 ^ 2098) with (2 ^ 53 * 2 ^ 2045)
    by (rewrite <- Z.pow_add_r by lia; reflexivity).
  generalize dependent (2 ^ (e - emin)). generalize (2 ^ 2045).
  generalize dependent (2 ^ 53). intros. nia.
Qed.

Lemma shl_align_value (m : positive) (e e' : Z) :
  e' <= e -> Zpos (fst (shl_align m e e')) = Zpos m * 2 ^ (e - e').
Proof.
  intros H. unfold shl_align. destruct (e' - e) as [|d|d] eqn:E; try lia.
  - replace (e - e') with 0 by lia. cbn [fst]. lia.
  - cbn [fst]. replace (e - e') with (Zpos d) by lia.
    change (Pos.iter xO m d) with (shift_pos d m).
    rewrite shift_pos_correct, Zpower_pos_nat, Zpower_nat_Z.
    rewrite positive_nat_Z. lia.
Qed.

Lemma cond_Zopp_mul (s : bool) (a k : Z) :
  cond_Zopp s a * k = cond_Zopp s (a * k).
Proof. destruct s; cbn; lia. Qed.

(** The difference of two finite Numbers, before rounding, in units of
    [2^emin]. *)
Lemma aligned_difference (sx sy : bool) (mx my : positive) (ex ey : Z) :
  emin <= ex -> emin <= ey ->
  let ez := Z.min ex ey in
  (cond_Zopp sx (Zpos (fst (shl_align mx ex ez))) -
   cond_Zopp sy (Zpos (fst (shl_align my ey ez)))) * 2 ^ (ez - emin) =
  units (S754_finite sx mx ex) - units (S754_finite sy my ey).
Proof.
  intros Hx Hy ez. rewrite !shl_align_value by (subst ez; lia).
  rewrite Z.mul_sub_distr_r, !cond_Zopp_mul, <- !Z.mul_assoc.
  rewrite <- !Z.pow_add_r by (subst ez; lia).
  cbn [units]. do 4 f_equal; lia.
Qed.

Lemma binary_normalize_sign (d e : Z) :
  emin <= e ->
  Array.sign (binary_normalize prec emax d e false) = (d ?= 0).
Proof.
  intros He. destruct d as [|p|p]; cbn [binary_normalize].
  - reflexivity.
  - destruct (binary_round_positive false p e He) as [(m' & e' & ->) | ->];
      reflexivity.
  - destruct (binary_round_positive true p e He) as [(m' & e' & ->) | ->];
      reflexivity.
Qed.

Lemma compare_scaled (a b d k : Z) :
  0 < k -> d * k = a - b -> (d ?= 0) = (a ?= b).
Proof.
  intros Hk H. destruct (Z.compare_spec d 0) as [->|Hd|Hd]; symmetry.
  - apply Z.compare_eq_iff. lia.
  - apply Z.compare_lt_iff. nia.
  - apply Z.compare_gt_iff. nia.
Qed.

Ltac order_by_bound :=
  cbn [units cond_Zopp negb]; symmetry;
  first [apply Z.compare_lt_iff | apply Z.compare_gt_iff
        | apply Z.compare_eq_iff];
  lia.

(** The sign the sort reads off [u - v] is the order of [u] and [v]. *)
Lemma sub_sign (u v : float) :
  sortable u -> sortable v ->
  Array.sign (sub u v) = (units u ?= units v).
Proof.
  intros [Hu Hu'] [Hv Hv'].
  destruct u as [sx|sx| |sx mx ex]; try contradiction;
    destruct v as [sy|sy| |sy my ey]; try contradiction.
  - destruct sx, sy; reflexivity.
  - destruct sx, sy; reflexivity.
  - pose proof (units_finite_bound _ _ _ Hv).
    unfold sub, SFsub. rewrite sign_finite.
    destruct sx, sy; order_by_bound.
  - destruct sx, sy; reflexivity.
  - destruct sx, sy; reflexivity.
  - pose proof (units_finite_bound _ _ _ Hv).
    unfold sub, SFsub. rewrite sign_infinity.
    destruct sx, sy; order_by_bound.
  - pose proof (units_finite_bound _ _ _ Hu).
    unfold sub, SFsub. rewrite sign_finite.
    destruct sx; order_by_bound.
  - pose proof (units_finite_bound _ _ _ Hu).
    unfold sub, SFsub. rewrite sign_infinity.
    destruct sx, sy; order_by_bound.
  - destruct (wellFormed_finite _ _ _ Hu) as ((Hx & _) & _).
    destruct (wellFormed_finite _ _ _ Hv) as ((Hy & _) & _).
    unfold sub, SFsub. cbv zeta.
    rewrite binary_normalize_sign by lia.
    apply compare_scaled with (k := 2 ^ (Z.min ex ey - emin));
      [apply pow2_pos; lia|].
    now apply aligned_difference.
Qed.

Lemma compare_mul_pos (a b k : Z) :
  0 < k -> (a * k ?= b * k) = (a ?= b).
Proof.
  intros Hk. destruct (Z.compare_spec a b) as [->|H|H].
  - apply Z.compare_refl.
  - apply Z.compare_lt_iff. nia.
  - apply Z.compare_gt_iff. nia.
Qed.

Lemma scaled_step (c p q ma mb : Z) :
  0 < c -> 0 < p -> 0 < q -> ma < 2 * c -> c <= mb ->
  ma * p < mb * (q * 2 * p).
Proof.
  intros Hc Hp Hq Hma Hmb.
  assert (ma * p < 2 * c * p) by nia.
  assert (2 * c * p <= 2 * c * p * q) by nia.
  assert (c * (q * 2 * p) <= mb * (q * 2 * p)) by nia.
  lia.
Qed.

(** Among positive finite Numbers the order goes by exponent first, then
    by mantissa. *)
Lemma finite_order (m1 m2 : positive) (e1 e2 : Z) :
  wellFormed (S754_finite false m1 e1) ->
  wellFormed (S754_finite false m2 e2) ->
  match e1 ?= e2 with
  | Lt => Lt
  | Gt => Gt
  | Eq => Pos.compare_cont Eq m1 m2
  end = (Zpos m1 * 2 ^ (e1 - emin) ?= Zpos m2 * 2 ^ (e2 - emin)).
Proof.
  intros H1 H2.
  destruct (wellFormed_finite _ _ _ H1) as ((He1 & _) & Hd1 & Hn1).
  destruct (wellFormed_finite _ _ _ H2) as ((He2 & _) & Hd2 & Hn2).
  pose proof (digits2_pos_bounds m1) as [Hlo1 Hhi1].
  pose proof (digits2_pos_bounds m2) as [Hlo2 Hhi2].
  assert (Hhi : forall m, Zpos (digits2_pos m) <= prec ->
                  Zpos m < 2 ^ Zpos (digits2_pos m) -> Zpos m < 2 * 2 ^ 52).
  { intros m Hd Hm. eapply Z.lt_le_trans; [exact Hm|].
    change (2 * 2 ^ 52) with (2 ^ 53).
    apply Z.pow_le_mono_r; unfold prec in *; lia. }
  assert (Hlo : forall m, Zpos (digits2_pos m) = prec ->
                  2 ^ (Zpos (digits2_pos m) - 1) <= Zpos m ->
                  2 ^ 52 <= Zpos m).
  { intros m Hd Hm. rewrite Hd in Hm. exact Hm. }
  assert (Hstep : forall a b ma mb,
            emin <= a -> a < b -> Zpos ma < 2 * 2 ^ 52 -> 2 ^ 52 <= Zpos mb ->
            Zpos ma * 2 ^ (a - emin) < Zpos mb * 2 ^ (b - emin)).
  { intros a b ma mb Ha Hab Hma Hmb.
    replace (b - emin) with ((b - a - 1) + 1 + (a - emin)) by lia.
    rewrite !Z.pow_add_r by lia. change (2 ^ 1) with 2.
    apply scaled_step with (c := 2 ^ 52); auto using pow2_pos with zarith. }
  destruct (Z.compare_spec e1 e2) as [->|Hlt|Hgt]; symmetry.
  - change (Pos.compare_cont Eq m1 m2) with (Zpos m1 ?= Zpos m2).
    apply compare_mul_pos, pow2_pos. lia.
  - apply Z.compare_lt_iff. apply Hstep; auto with zarith.
  - apply Z.compare_gt_iff. apply Hstep; auto with zarith.
Qed.

(** [SFcompare] orders Numbers by their value. *)
Lemma compare_units (u v : float) :
  sortable u -> sortable v ->
  SFcompare u v = Some (units u ?= units v).
Proof.
  intros [Hu Hu'] [Hv Hv'].
  destruct u as [sx|sx| |sx mx ex]; try contradiction;
    destruct v as [sy|sy| |sy my ey]; try contradiction;
    try pose proof (units_finite_bound _ _ _ Hu) as Bu;
    try pose proof (units_finite_bound _ _ _ Hv) as Bv;
    cbn [SFcompare]; f_equal;
    try (destruct sx; order_by_bound);
    try (destruct sy; order_by_bound);
    try (destruct sx, sy; order_by_bound).
  destruct sx, sy; try order_by_bound; cbn [units cond_Zopp].
  - rewrite Z.compare_opp, <- (finite_order my mx ey ex Hv Hu).
    rewrite (Z.compare_antisym ex ey).
    destruct (ex ?= ey); try reflexivity. cbn [CompOpp].
    change (Pos.compare_cont Eq mx my) with (Pos.compare mx my).
    change (Pos.compare_cont Eq my mx) with (Pos.compare my mx).
    now rewrite (Pos.compare_antisym mx my).
  - exact (finite_order mx my ex ey Hu Hv).
Qed.

Lemma leb_units (u v : float) :
  sortable u -> sortable v -> leb u v = true <-> units u <= units v.
Proof.
  intros Hu Hv. unfold leb, SFleb. rewrite (compare_units u v Hu Hv).
  destruct (Z.compare_spec (units u) (units v)); split; intros;
    try reflexivity; try discriminate; lia.
Qed.

Lemma eqb_units (u v : float) :
  sortable u -> sortable v -> eqb u v = true <-> units u = units v.
Proof.
  intros Hu Hv. unfold eqb, SFeqb. rewrite (compare_units u v Hu Hv).
  destruct (Z.compare_spec (units u) (units v)); split; intros;
    try reflexivity; try discriminate; lia.
Qed.

Lemma sign_neg (v : float) : Array.sign (neg v) = CompOpp (Array.sign v).
Proof. destruct v as [s|[|]| |[|] m e]; reflexivity. Qed.

End FloatOrder.

(** ** Sorting with a consistent comparator *)

Module SortOrder.
Import Array.

Section Consistent.
Context {A : Type}.
Variable comparefn : A -> A -> Number.float.

(** The elements on which the comparator is consistent. *)
Variable P : A -> Prop.

Local Abbreviation sgn := (Array.sgn comparefn).
Local Abbreviation notAfter := (Array.notAfter comparefn).
Local Abbreviation before := (Array.before comparefn).
Local Abbreviation ties := (Array.ties comparefn).
Local Abbreviation NoTies := (Array.NoTies comparefn).

Hypothesis antisym :
  forall x y, P x -> P y -> sgn x y = CompOpp (sgn y x).
Hypothesis trans :
  forall x y z, P x -> P y -> P z ->
    notAfter x y -> notAfter y z -> notAfter x z.

Lemma insert_Forall (Q : A -> Prop) (x : A) (l : list A) :
  Q x -> Forall Q l -> Forall Q (Array.insert comparefn x l).
Proof.
  intros Hx Hl.
  eapply Permutation_Forall;
    [symmetry; apply SortFacts.insert_perm | now constructor].
Qed.

Lemma sort_Forall (Q : A -> Prop) (l : list A) :
  Forall Q l -> Forall Q (Array.sort comparefn l).
Proof.
  intros Hl.
  eapply Permutation_Forall; [symmetry; apply SortFacts.sort_perm | exact Hl].
Qed.

Lemma insert_sorted (x : A) (l : list A) :
  P x -> Forall P l -> StronglySorted notAfter l ->
  StronglySorted notAfter (Array.insert comparefn x l).
Proof using antisym trans.
  intros Hx Hl Hs. induction Hs as [|y r Hr IH Hy]; cbn.
  - repeat constructor.
  - inversion Hl as [|? ? Py Pr]; subst.
    assert (Hfirst : notAfter x y ->
              StronglySorted notAfter (x :: y :: r)).
    { intros Hxy. constructor; [now constructor|].
      constructor; [exact Hxy|].
      rewrite List.Forall_forall in Hy, Pr |- *. intros z Hz.
      apply (trans x y z); auto. }
    fold (Array.sgn comparefn x y). destruct (sgn x y) eqn:E;
      try (apply Hfirst; unfold Array.notAfter; congruence).
    constructor; [now apply IH|].
    apply insert_Forall; [|exact Hy].
    unfold Array.notAfter. rewrite (antisym y x Py Hx), E. discriminate.
Qed.

Lemma sort_sorted (l : list A) :
  Forall P l -> StronglySorted notAfter (Array.sort comparefn l).
Proof using antisym trans.
  induction 1 as [|x r Hx Hr IH]; cbn; [constructor|].
  apply insert_sorted; [exact Hx | now apply sort_Forall | exact IH].
Qed.

(** Two elements that tie with a third tie with each other. *)
Lemma ties_trans (x y z : A) :
  P x -> P y -> P z ->
  ties z x = true -> ties z y = true -> sgn x y = Eq.
Proof using antisym trans.
  intros Hx Hy Hz. unfold Array.ties.
  destruct (sgn z x) eqn:Ezx; try discriminate.
  destruct (sgn z y) eqn:Ezy; try discriminate. intros _ _.
  assert (Exz : sgn x z = Eq) by (rewrite (antisym x z), Ezx; auto).
  assert (Eyz : sgn y z = Eq) by (rewrite (antisym y z), Ezy; auto).
  assert (H1 : notAfter x y)
    by (apply (trans x z y); auto; unfold Array.notAfter; congruence).
  assert (H2 : notAfter y x)
    by (apply (trans y z x); auto; unfold Array.notAfter; congruence).
  unfold Array.notAfter in H1, H2. rewrite (antisym y x Hy Hx) in H2.
  destruct (sgn x y); cbn in H2; congruence.
Qed.

Lemma insert_stable (z x : A) (l : list A) :
  P z -> P x -> Forall P l ->
  List.filter (ties z) (Array.insert comparefn x l) =
  List.filter (ties z) (x :: l).
Proof using antisym trans.
  intros Hz Hx Hl. induction Hl as [|y r Py Pr IH]; [reflexivity|].
  cbn [Array.insert]. fold (Array.sgn comparefn x y). destruct (sgn x y) eqn:E;
    try reflexivity.
  cbn [List.filter] in *. rewrite IH.
  destruct (ties z y) eqn:Ty; [|reflexivity].
  destruct (ties z x) eqn:Tx; [|reflexivity].
  pose proof (ties_trans x y z Hx Py Hz Tx Ty). congruence.
Qed.

(** Stability: the entries that tie with [z] leave the sort in the order
    in which they entered it. *)
Lemma sort_stable (z : A) (l : list A) :
  P z -> Forall P l ->
  List.filter (ties z) (Array.sort comparefn l) = List.filter (ties z) l.
Proof using antisym trans.
  intros Hz Hl. induction Hl as [|x r Px Pr IH]; [reflexivity|].
  cbn [Array.sort]. rewrite insert_stable by (auto using sort_Forall).
  cbn [List.filter]. now rewrite IH.
Qed.

Lemma sorted_strict (l : list A) :
  List.NoDup l -> (forall x y, In x l -> In y l -> sgn x y = Eq -> x = y) ->
  StronglySorted notAfter l -> StronglySorted before l.
Proof.
  intros Hnd Hties Hs. induction Hs as [|x r Hr IH Hx]; [constructor|].
  inversion Hnd as [|? ? Hnotin Hnd']; subst.
  constructor; [apply IH; auto; intros; apply Hties; cbn; auto|].
  rewrite List.Forall_forall in Hx |- *. intros y Hy.
  specialize (Hx y Hy). unfold Array.notAfter in Hx. unfold Array.before.
  destruct (sgn x y) eqn:E; try reflexivity; [|congruence].
  assert (x = y) by (apply Hties; cbn; auto). subst. contradiction.
Qed.

(** Without ties the sort leaves every entry strictly before the ones
    that follow it. *)
Lemma sort_strict (l : list A) :
  Forall P l -> NoTies l ->
  StronglySorted before (Array.sort comparefn l).
Proof using antisym trans.
  intros Hl [Hnd Hties].
  pose proof (SortFacts.sort_perm comparefn l) as Hperm.
  apply sorted_strict.
  - eapply Permutation_NoDup; [symmetry; exact Hperm | exact Hnd].
  - intros x y Hx Hy. apply Hties; eapply Permutation_in; eassumption.
  - now apply sort_sorted.
Qed.

End Consistent.

Lemma StronglySorted_In (A : Type) (R R' : A -> A -> Prop) (l : list A) :
  (forall x y, In x l -> In y l -> R x y -> R' x y) ->
  StronglySorted R l -> StronglySorted R' l.
Proof.
  intros H Hs. induction Hs as [|x r Hr IH Hx]; [constructor|].
  constructor; [apply IH; intros; apply H; cbn; auto|].
  rewrite List.Forall_forall in Hx |- *. intros y Hy.
  apply H; cbn; auto.
Qed.

Lemma StronglySorted_snoc (A : Type) (R : A -> A -> Prop)
    (l : list A) (x : A) :
  StronglySorted R l -> Forall (fun y => R y x) l ->
  StronglySorted R (l ++ [x]).
Proof.
  intros Hs Hx. induction Hs as [|y r Hr IH Hy]; cbn.
  - repeat constructor.
  - inversion Hx as [|? ? Hyx Hrx]; subst.
    constructor; [now apply IH|].
    apply Forall_app. split; [exact Hy | now constructor].
Qed.

(** A list sorted one way is, reversed, sorted the other way. *)
Lemma StronglySorted_rev (A : Type) (R : A -> A -> Prop) (l : list A) :
  StronglySorted R l -> StronglySorted (fun x y => R y x) (rev l).
Proof.
  intros Hs. induction Hs as [|x r Hr IH Hx]; cbn; [constructor|].
  apply StronglySorted_snoc; [exact IH|].
  rewrite List.Forall_forall in Hx |- *. intros y Hy.
  apply Hx. now apply in_rev.
Qed.

(** Under a strict order a list has one sorted arrangement only. *)
Lemma strict_sorted_unique (A : Type) (R : A -> A -> Prop)
    (l1 l2 : list A) :
  (forall x y, In x l1 -> In y l1 -> R x y -> R y x -> False) ->
  StronglySorted R l1 -> StronglySorted R l2 -> Permutation l1 l2 ->
  l1 = l2.
Proof.
  revert l2; induction l1 as [|x r1 IH]; intros l2 Hasym H1 H2 Hperm.
  - symmetry. now apply Permutation_nil.
  - destruct l2 as [|y r2];
      [symmetry in Hperm; now apply Permutation_nil in Hperm|].
    inversion H1 as [|? ? Hr1 Hx]; subst.
    inversion H2 as [|? ? Hr2 Hy]; subst.
    rewrite List.Forall_forall in Hx, Hy.
    assert (E : x = y).
    { assert (Hin1 : In x (y :: r2))
        by (eapply Permutation_in; [exact Hperm | now left]).
      assert (Hin2 : In y (x :: r1))
        by (eapply Permutation_in; [symmetry; exact Hperm | now left]).
      destruct Hin1 as [->|Hin1]; [reflexivity|].
      destruct Hin2 as [->|Hin2]; [reflexivity|].
      exfalso. apply (Hasym x y); cbn; auto. }
    subst y. f_equal. apply IH; auto.
    + intros a b Ha Hb. apply Hasym; cbn; auto.
    + eapply Permutation_cons_inv; exact Hperm.
Qed.

Section Reverse.
Context {A : Type}.
Variable comparefn reversed : A -> A -> Number.float.
Variable P : A -> Prop.

Hypothesis antisym :
  forall x y, P x -> P y -> sgn comparefn x y = CompOpp (sgn comparefn y x).
Hypothesis trans :
  forall x y z, P x -> P y -> P z ->
    notAfter comparefn x y -> notAfter comparefn y z -> notAfter comparefn x z.
Hypothesis opposite :
  forall x y, sgn reversed x y = CompOpp (sgn comparefn x y).

Lemma reversed_antisym (x y : A) :
  P x -> P y -> sgn reversed x y = CompOpp (sgn reversed y x).
Proof using antisym opposite.
  intros Hx Hy. rewrite !opposite. f_equal. now apply antisym.
Qed.

Lemma reversed_notAfter (x y : A) :
  P x -> P y -> notAfter reversed x y <-> notAfter comparefn y x.
Proof using antisym opposite.
  intros Hx Hy. unfold notAfter. rewrite opposite, (antisym y x Hy Hx).
  destruct (sgn comparefn x y); cbn; split; congruence.
Qed.

Lemma reversed_trans (x y z : A) :
  P x -> P y -> P z ->
  notAfter reversed x y -> notAfter reversed y z -> notAfter reversed x z.
Proof using antisym trans opposite.
  intros Hx Hy Hz. rewrite !reversed_notAfter by assumption.
  intros H1 H2. now apply (trans z y x).
Qed.

(** Sorting with the opposite comparator reverses the result, provided no
    two entries tie. *)
Theorem sort_reversed (l : list A) :
  Forall P l -> NoTies comparefn l ->
  Array.sort reversed l = rev (Array.sort comparefn l).
Proof using antisym trans opposite.
  intros Hl Hties.
  assert (Hties' : NoTies reversed l).
  { destruct Hties as [Hnd Ht]. split; [exact Hnd|].
    intros x y Hx Hy E. apply Ht; auto. rewrite opposite in E.
    destruct (sgn comparefn x y); cbn in E; congruence. }
  pose proof (sort_strict comparefn P antisym trans l Hl Hties) as S1.
  pose proof (sort_strict reversed P reversed_antisym reversed_trans
                l Hl Hties') as S2.
  pose proof (sort_Forall reversed P l Hl) as P2.
  rewrite List.Forall_forall in P2.
  apply strict_sorted_unique with (R := before reversed).
  - intros x y Hx Hy H1 H2. unfold before in H1, H2.
    rewrite (reversed_antisym x y (P2 x Hx) (P2 y Hy)), H2 in H1.
    discriminate.
  - exact S2.
  - apply StronglySorted_rev in S1.
    eapply StronglySorted_In; [|exact S1]. cbn. intros x y Hx Hy H.
    pose proof (sort_Forall comparefn P l Hl) as P1.
    rewrite List.Forall_forall in P1.
    apply in_rev in Hx, Hy. unfold before in *.
    rewrite opposite, (antisym x y (P1 x Hx) (P1 y Hy)), H. reflexivity.
  - rewrite <- Permutation_rev.
    now rewrite !SortFacts.sort_perm.
Qed.

End Reverse.

End SortOrder.

(** ** The order of the query result *)

Section QueryOrder.
Import Number FloatOrder Array SortOrder.

Variable localeCompare : string -> string -> float.

(** [localeCompare] is a consistent comparator: swapping the arguments
    swaps the sign, and "not after" is transitive. *)
Hypothesis localeCompare_antisym :
  forall a b,
    Array.sign (localeCompare a b) = CompOpp (Array.sign (localeCompare b a)).
Hypothesis localeCompare_trans :
  forall a b c,
    Array.sign (localeCompare a b) <> Gt ->
    Array.sign (localeCompare b c) <> Gt ->
    Array.sign (localeCompare a c) <> Gt.

Let query := filterAndSortPairs localeCompare.
Let comparison := comparisonBy localeCompare.

Lemma comparisonBy_cases (sortBy : string) :
  (exists key : Pair.t -> float,
     (forall p, sortKey sortBy p = Some (key p)) /\
     (forall a b, comparison sortBy a b = sub (key b) (key a))) \/
  ((forall p, sortKey sortBy p = None) /\
   (forall a b,
      comparison sortBy a b = localeCompare (Pair.name a) (Pair.name b))).
Proof.
  unfold comparison, comparisonBy, sortKey.
  destruct (String.eqb sortBy "liquidity");
    [left; exists Pair.liquidity; split; reflexivity|].
  destruct (String.eqb sortBy "volume");
    [left; exists Pair.volume24h; split; reflexivity|].
  destruct (String.eqb sortBy "apy");
    [left; exists Pair.apy; split; reflexivity|].
  destruct (String.eqb sortBy "name"); [right; split; reflexivity|].
  destruct (String.eqb sortBy "price");
    [left; exists Pair.price; split; reflexivity|].
  left; exists Pair.liquidity; split; reflexivity.
Qed.

Lemma comparison_antisym (sortBy : string) (x y : Pair.t) :
  keySortable sortBy x -> keySortable sortBy y ->
  sgn (comparison sortBy) x y = CompOpp (sgn (comparison sortBy) y x).
Proof using localeCompare_antisym.
  unfold keySortable, sgn.
  destruct (comparisonBy_cases sortBy) as [(key & Hk & Hc) | (Hk & Hc)];
    rewrite !Hk, !Hc; intros Hx Hy.
  - rewrite !sub_sign by assumption. apply Z.compare_antisym.
  - apply localeCompare_antisym.
Qed.

Lemma comparison_trans (sortBy : string) (x y z : Pair.t) :
  keySortable sortBy x -> keySortable sortBy y -> keySortable sortBy z ->
  notAfter (comparison sortBy) x y -> notAfter (comparison sortBy) y z ->
  notAfter (comparison sortBy) x z.
Proof using localeCompare_trans.
  unfold keySortable, notAfter, sgn.
  destruct (comparisonBy_cases sortBy) as [(key & Hk & Hc) | (Hk & Hc)];
    rewrite !Hk, !Hc; intros Hx Hy Hz.
  - rewrite !sub_sign by assumption.
    rewrite !Z.compare_le_iff. lia.
  - apply localeCompare_trans.
Qed.

Lemma sortCompare_desc (f : Filters.t) :
  sortCompare localeCompare (withSortOrder f "desc") =
  comparison (Filters.sortBy f).
Proof. reflexivity. Qed.

Lemma sortCompare_asc (f : Filters.t) (x y : Pair.t) :
  sgn (sortCompare localeCompare (withSortOrder f "asc")) x y =
  CompOpp (sgn (comparison (Filters.sortBy f)) x y).
Proof. unfold sgn, sortCompare. cbn. apply sign_neg. Qed.

Lemma applyFilters_withSortOrder (pairs : list Pair.t) (f : Filters.t)
    (sortOrder : string) :
  applyFilters pairs (withSortOrder f sortOrder) = applyFilters pairs f.
Proof. reflexivity. Qed.

Lemma ties_asc (f : Filters.t) (x y : Pair.t) :
  ties (sortCompare localeCompare (withSortOrder f "asc")) x y =
  ties (comparison (Filters.sortBy f)) x y.
Proof.
  unfold ties. rewrite sortCompare_asc.
  destruct (sgn (comparison (Filters.sortBy f)) x y); reflexivity.
Qed.

(** C6 (as the code has it). Take a pair collection whose sort keys are
    binary64 values other than NaN, and a consistent [localeCompare]. If a filter
    callback throws, the query throws for both sort orders. Otherwise both
    queries return a rearrangement of the filtered pairs, and: if no two
    filtered pairs tie under the comparator, the ascending result is the
    exact reverse of the descending one; when sorting on liquidity, the
    liquidity values never increase along the descending result; and
    under either order the pairs that tie with any given pair keep the
    order they had after filtering. *)
Theorem filterAndSortPairs_order (pairs : list Pair.t) (f : Filters.t) :
  Forall (keySortable (Filters.sortBy f)) pairs ->
  let desc := withSortOrder f "desc" in
  let asc := withSortOrder f "asc" in
  match applyFilters pairs f with
  | None => query pairs desc = None /\ query pairs asc = None
  | Some filtered =>
      exists descending ascending,
        query pairs desc = Some descending /\
        query pairs asc = Some ascending /\
        Permutation descending filtered /\
        Permutation ascending filtered /\
        (NoTies (sortCompare localeCompare desc) filtered ->
           ascending = rev descending) /\
        (Filters.sortBy f = "liquidity"%string ->
           StronglySorted
             (fun a b => leb (Pair.liquidity b) (Pair.liquidity a) = true)
             descending) /\
        (forall pair, In pair filtered ->
           let tied := ties (sortCompare localeCompare desc) pair in
           List.filter tied descending = List.filter tied filtered /\
           List.filter tied ascending = List.filter tied filtered)
  end.
Proof using localeCompare_antisym localeCompare_trans.
  intros Hkeys desc asc. unfold query, filterAndSortPairs.
  subst desc asc. rewrite !applyFilters_withSortOrder.
  destruct (applyFilters pairs f) as [filtered|] eqn:E; [|split; reflexivity].
  cbn [mbind option_bind]. rewrite sortCompare_desc.
  set (asc := withSortOrder f "asc").
  set (c := comparison (Filters.sortBy f)).
  set (P := keySortable (Filters.sortBy f)).
  assert (Hf : Forall P filtered).
  { rewrite List.Forall_forall in Hkeys |- *. intros p Hp.
    apply Hkeys. now apply (applyFilters_sublist _ _ _ E). }
  pose proof (comparison_antisym (Filters.sortBy f)) as Ha.
  pose proof (comparison_trans (Filters.sortBy f)) as Ht.
  pose proof (sortCompare_asc f) as Ho.
  fold c P asc in Ha, Ht, Ho.
  exists (Array.sort c filtered),
         (Array.sort (sortCompare localeCompare asc) filtered).
  split; [reflexivity|]. split; [reflexivity|].
  split; [apply SortFacts.sort_perm|].
  split; [apply SortFacts.sort_perm|]. split; [|split].
  - intros Hties. now apply (sort_reversed c _ P Ha Ht Ho).
  - intros Hby.
    pose proof (sort_sorted c _ Ha Ht filtered Hf) as Hs.
    pose proof (sort_Forall c P filtered Hf) as Hp.
    rewrite List.Forall_forall in Hp.
    eapply StronglySorted_In; [|exact Hs]. cbn. intros a b Hina Hinb.
    pose proof (Hp a Hina) as Ka. pose proof (Hp b Hinb) as Kb.
    unfold notAfter, sgn, c, P, comparison, comparisonBy, keySortable,
      sortKey in *.
    rewrite Hby in *. cbn in Ka, Kb |- *.
    rewrite sub_sign by assumption.
    rewrite Z.compare_le_iff. intros Hle. now apply leb_units.
  - intros pair Hin. cbv zeta. set (tied := ties c pair).
    rewrite List.Forall_forall in Hf.
    pose proof (Hf pair Hin) as Hpair. apply List.Forall_forall in Hf.
    split; [now apply (sort_stable c _ Ha Ht)|].
    assert (Hext : forall l,
              List.filter tied l =
              List.filter (ties (sortCompare localeCompare asc) pair) l).
    { intros l. apply filter_ext. intros y. subst tied asc c.
      now rewrite ties_asc. }
    rewrite !Hext.
    apply (sort_stable _ P
             (reversed_antisym c _ P Ha Ho)
             (reversed_trans c _ P Ha Ht Ho)); assumption.
Qed.

End QueryOrder.

(** C6 (as stated) fails: two pairs of equal liquidity come back in their
    input order under both sort orders, so the ascending result is not
    the reverse of the descending one. *)
Lemma filterAndSortPairs_ties_not_reversed :
  let pairs := [pairWith "P1" (Number.ofZ 1); pairWith "P2" (Number.ofZ 1)] in
  filterAndSortPairs Engine.localeCompare pairs
    (withSortOrder defaultFilters "desc") = Some pairs /\
  filterAndSortPairs Engine.localeCompare pairs
    (withSortOrder defaultFilters "asc") = Some pairs /\
  pairs <> rev pairs.
Proof.
  intros pairs. split; [vm_compute; reflexivity|].
  split; [vm_compute; reflexivity|]. discriminate.
Qed.

Lemma filterAndSortPairs_order_witness :
  let pairs :=
    [pairWith "P1" (Number.ofZ 3); pairWith "P2" (Number.ofZ 1);
     pairWith "P3" (Number.ofZ 2)] in
  filterAndSortPairs Engine.localeCompare pairs
    (withSortOrder defaultFilters "desc") =
    Some [pairWith "P1" (Number.ofZ 3); pairWith "P3" (Number.ofZ 2);
          pairWith "P2" (Number.ofZ 1)] /\
  filterAndSortPairs Engine.localeCompare pairs
    (withSortOrder defaultFilters "asc") =
    Some [pairWith "P2" (Number.ofZ 1); pairWith "P3" (Number.ofZ 2);
          pairWith "P1" (Number.ofZ 3)].
Proof.
  intros pairs.
  assert (Hkeys : Forall (keySortable (Filters.sortBy defaultFilters)) pairs)
    by (repeat constructor; discriminate).
  pose proof (filterAndSortPairs_order Engine.localeCompare
                EngineFacts.localeCompare_antisym
                EngineFacts.localeCompare_trans
                pairs defaultFilters Hkeys) as H.
  cbv zeta in H.
  change (applyFilters pairs defaultFilters) with (Some pairs) in H.
  destruct H as (descending & ascending & Hdesc & Hasc & _ & _ & Hrev & _).
  assert (Hout : Some descending =
            Some [pairWith "P1" (Number.ofZ 3); pairWith "P3" (Number.ofZ 2);
                  pairWith "P2" (Number.ofZ 1)])
    by (rewrite <- Hdesc; vm_compute; reflexivity).
  injection Hout as ->. split; [exact Hdesc|].
  rewrite Hasc. f_equal. apply Hrev. split.
  - repeat constructor; cbn; intuition discriminate.
  - intros x y [<-|[<-|[<-|[]]]] [<-|[<-|[<-|[]]]]; vm_compute;
      congruence.
Defined.

(** ** Every Number the operations produce is a binary64 value *)

Module FloatValid.
Import Number FloatOrder.

Lemma digits_unique (p : positive) (k : Z) :
  2 ^ (k - 1) <= Zpos p < 2 ^ k -> Zpos (digits2_pos p) = k.
Proof.
  intros [Hlo Hhi]. pose proof (digits2_pos_bounds p) as [Dlo Dhi].
  set (d := Zpos (digits2_pos p)) in *.
  assert (Hd : 0 < d) by (subst d; lia).
  destruct (Z.lt_trichotomy d k) as [H|[H|H]]; [exfalso|exact H|exfalso].
  - assert (2 ^ d <= 2 ^ (k - 1)) by (apply Z.pow_le_mono_r; lia). lia.
  - destruct (Z.le_gt_cases 0 k) as [Hk|Hk].
    + assert (2 ^ k <= 2 ^ (d - 1)) by (apply Z.pow_le_mono_r; lia). lia.
    + rewrite (Z.pow_neg_r 2 k) in Hhi by lia. lia.
Qed.

Lemma Zdigits2_nonneg (m : Z) : 0 <= Zdigits2 m.
Proof. destruct m; cbn; lia. Qed.

Lemma Zdigits2_bounds (m : Z) :
  0 < m -> 2 ^ (Zdigits2 m - 1) <= m < 2 ^ Zdigits2 m.
Proof. destruct m as [|p|p]; try lia. intros _. apply digits2_pos_bounds. Qed.

Lemma Zdigits2_unique (m k : Z) :
  2 ^ (k - 1) <= m < 2 ^ k -> 0 < m -> Zdigits2 m = k.
Proof. destruct m as [|p|p]; try lia. intros H _. now apply digits_unique. Qed.

Lemma Zdigits2_mono (a b : Z) : 0 <= a <= b -> Zdigits2 a <= Zdigits2 b.
Proof.
  intros [Ha Hab]. destruct (Z.eq_dec a 0) as [->|Hne];
    [apply Zdigits2_nonneg|].
  pose proof (Zdigits2_bounds a ltac:(lia)) as [Alo _].
  pose proof (Zdigits2_bounds b ltac:(lia)) as [_ Bhi].
  destruct (Z.le_gt_cases (Zdigits2 a) (Zdigits2 b)) as [H|H]; [exact H|].
  assert (2 ^ Zdigits2 b <= 2 ^ (Zdigits2 a - 1)).
  { apply Z.pow_le_mono_r; [lia|]. lia. }
  lia.
Qed.

(** Dropping [k] low bits of a mantissa drops [k] of its digits. *)
Lemma Zdigits2_div (m k : Z) :
  0 <= k -> 2 ^ k <= m -> Zdigits2 (m / 2 ^ k) = Zdigits2 m - k.
Proof.
  intros Hk Hm.
  assert (Hp : 0 < 2 ^ k) by (apply pow2_pos; lia).
  pose proof (Zdigits2_bounds m ltac:(lia)) as [Hlo Hhi].
  set (d := Zdigits2 m) in *.
  assert (Hdk : k < d).
  { destruct (Z.lt_ge_cases k d) as [H|H]; [exact H|].
    assert (2 ^ d <= 2 ^ k) by (apply Z.pow_le_mono_r; lia). lia. }
  apply Zdigits2_unique.
  - split.
    + apply Z.div_le_lower_bound; [exact Hp|].
      rewrite <- Z.pow_add_r by lia.
      replace (k + (d - k - 1)) with (d - 1) by lia. exact Hlo.
    + apply Z.div_lt_upper_bound; [exact Hp|].
      rewrite <- Z.pow_add_r by lia.
      replace (k + (d - k)) with d by lia. exact Hhi.
  - apply Z.div_str_pos. lia.
Qed.

(** Appending [k] zero bits to a mantissa adds [k] digits. *)
Lemma Zdigits2_mul (m k : Z) :
  0 < m -> 0 <= k -> Zdigits2 (m * 2 ^ k) = Zdigits2 m + k.
Proof.
  intros Hm Hk.
  assert (Hp : 0 < 2 ^ k) by (apply pow2_pos; lia).
  pose proof (Zdigits2_bounds m Hm) as [Hlo Hhi].
  pose proof (Zdigits2_nonneg m).
  assert (0 < Zdigits2 m) by (destruct m; cbn in *; lia).
  apply Zdigits2_unique; [|nia].
  replace (Zdigits2 m + k - 1) with ((Zdigits2 m - 1) + k) by lia.
  rewrite !Z.pow_add_r by lia. split; nia.
Qed.

(** The working exponent for a value of the given magnitude. *)
Abbreviation fexp := (SpecFloat.fexp prec emax).

Lemma fexp_mono (a b : Z) : a <= b -> fexp a <= fexp b.
Proof. unfold SpecFloat.fexp. lia. Qed.

Lemma fexp_emin (a : Z) : emin <= fexp a.
Proof. unfold SpecFloat.fexp. fold emin. lia. Qed.

(** What [shr_fexp] returns for a mantissa that has at least the digits
    its exponent asks for. *)
Lemma shr_fexp_spec (m e : Z) (l : location) :
  0 <= m -> e <= fexp (Zdigits2 m + e) ->
  let r := shr_fexp prec emax m e l in
  snd r = fexp (Zdigits2 m + e) /\
  0 <= shr_m (fst r) /\
  (shr_m (fst r) = 0 /\ (m = 0 \/ snd r = emin) \/
   0 < shr_m (fst r) /\ Zdigits2 (shr_m (fst r)) + snd r = Zdigits2 m + e).
Proof.
  intros Hm He r. subst r. unfold shr_fexp, shr. fold fexp.
  set (d := Zdigits2 m) in *.
  destruct (fexp (d + e) - e) as [|p|p] eqn:E; cbn [fst snd];
    rewrite ?shr_record_of_loc_m; [| |lia].
  - split; [lia|]. split; [lia|].
    destruct (Z.eq_dec m 0) as [->|Hne]; [left; auto|right].
    split; [lia|]. fold d. lia.
  - rewrite iter_shr_m by (rewrite shr_record_of_loc_m; lia).
    rewrite shr_record_of_loc_m.
    assert (Hp : 0 < 2 ^ Zpos p) by (apply pow2_pos; lia).
    split; [lia|]. split; [apply Z.div_pos; lia|].
    destruct (Z.le_gt_cases (2 ^ Zpos p) m) as [Hge|Hlt].
    + right. split; [apply Z.div_str_pos; lia|].
      rewrite Zdigits2_div by lia. fold d. lia.
    + left. split; [apply Z.div_small; lia|].
      destruct (Z.eq_dec m 0) as [->|Hne]; [left; reflexivity|right].
      pose proof (Zdigits2_bounds m ltac:(lia)) as [Hlo _]. fold d in Hlo.
      assert (Hd : d <= Zpos p).
      { destruct (Z.le_gt_cases d (Zpos p)) as [H|H]; [exact H|].
        assert (2 ^ Zpos p <= 2 ^ (d - 1))
          by (apply Z.pow_le_mono_r; lia).
        lia. }
      unfold SpecFloat.fexp in *. fold emin in *. unfold prec in *. lia.
Qed.

Lemma round_nearest_even_le (m : Z) (l : location) :
  round_nearest_even m l <= m + 1.
Proof.
  destruct l as [|[| |]]; cbn; try lia. destruct (Z.even m); lia.
Qed.

(** Rounding returns a binary64 value, whatever the mantissa, as long as
    it has at least the digits its exponent asks for. *)
Lemma binary_round_aux_valid (s : bool) (m e : Z) (l : location) :
  0 <= m -> e <= fexp (Zdigits2 m + e) ->
  wellFormed (binary_round_aux prec emax s m e l).
Proof.
  intros Hm He. unfold binary_round_aux.
  pose proof (shr_fexp_spec m e l Hm He) as (E1 & N1 & C1).
  destruct (shr_fexp prec emax m e l) as [mrs' e']. cbn [fst snd] in *.
  pose proof (round_nearest_even_ge (shr_m mrs') (loc_of_shr_record mrs')).
  pose proof (round_nearest_even_le (shr_m mrs') (loc_of_shr_record mrs')).
  set (m1 := round_nearest_even _ _) in *.
  assert (He' : e' <= fexp (Zdigits2 m1 + e')).
  { destruct C1 as [(_ & Hz) | (Hpos & Hd)].
    - assert (Hmin : e' = emin).
      { destruct Hz as [-> | Hz]; [|exact Hz]. cbn [Zdigits2] in *.
        unfold SpecFloat.fexp, emin, SpecFloat.emin, prec, emax in *. lia. }
      pose proof (fexp_emin (Zdigits2 m1 + e')). lia.
    - assert (Hsame : fexp (Zdigits2 (shr_m mrs') + e') = e')
        by (rewrite Hd; symmetry; exact E1).
      rewrite <- Hsame at 1. apply fexp_mono.
      pose proof (Zdigits2_mono (shr_m mrs') m1 ltac:(lia)). lia. }
  pose proof (shr_fexp_spec m1 e' loc_Exact ltac:(lia) He') as (E2 & N2 & C2).
  destruct (shr_fexp prec emax m1 e' loc_Exact) as [mrs'' e''].
  cbn [fst snd] in *.
  destruct (shr_m mrs'') as [|q|q] eqn:Eq; try reflexivity.
  destruct (e'' <=? emax - prec) eqn:L; [|reflexivity].
  unfold wellFormed, valid_binary, bounded, canonical_mantissa.
  rewrite L, andb_true_r. apply Z.eqb_eq.
  destruct C2 as [(Hz & _) | (_ & Hd)]; [discriminate|].
  cbn [Zdigits2] in Hd. fold fexp. now rewrite Hd.
Qed.

Lemma shl_align_exponent (m : positive) (e e' : Z) :
  snd (shl_align m e e') = Z.min e e'.
Proof.
  unfold shl_align. destruct (e' - e) eqn:E; cbn [snd]; lia.
Qed.

Lemma binary_round_valid (s : bool) (m : positive) (e : Z) :
  wellFormed (binary_round prec emax s m e).
Proof.
  unfold binary_round. fold fexp.
  set (f := fexp (Zpos (digits2_pos m) + e)).
  pose proof (shl_align_exponent m e f) as He.
  pose proof (shl_align_value m e (Z.min e f) ltac:(lia)) as Hv.
  assert (Hsame : shl_align m e (Z.min e f) = shl_align m e f).
  { unfold shl_align. destruct (Z.min_spec e f) as [[? ->]|[? ->]];
      [|reflexivity].
    replace (e - e) with 0 by lia. destruct (f - e) eqn:E; try lia.
    reflexivity. }
  rewrite Hsame in Hv.
  destruct (shl_align m e f) as [mz ez]. cbn [fst snd] in *.
  apply binary_round_aux_valid; [lia|].
  assert (Hd : Zdigits2 (Zpos mz) + ez = Zpos (digits2_pos m) + e).
  { rewrite Hv, Zdigits2_mul by lia. cbn [Zdigits2]. lia. }
  rewrite Hd. fold f. lia.
Qed.

Lemma binary_normalize_valid (m e : Z) (szero : bool) :
  wellFormed (binary_normalize prec emax m e szero).
Proof.
  destruct m; cbn [binary_normalize];
    [reflexivity | apply binary_round_valid | apply binary_round_valid].
Qed.

Lemma ofZ_valid (z : Z) : wellFormed (ofZ z).
Proof. apply binary_normalize_valid. Qed.

Lemma sub_valid (x y : float) :
  wellFormed x -> wellFormed y -> wellFormed (sub x y).
Proof.
  intros Hx Hy.
  destruct x as [sx|sx| |sx mx ex], y as [sy|sy| |sy my ey];
    try reflexivity; try assumption;
    try (destruct sx, sy; reflexivity).
  apply binary_normalize_valid.
Qed.

Lemma neg_valid (x : float) : wellFormed x -> wellFormed (neg x).
Proof. destruct x; trivial. Qed.

Lemma Zdigits2_pow2 (k : Z) : 0 <= k -> Zdigits2 (2 ^ k) = k + 1.
Proof.
  intros Hk. apply Zdigits2_unique; [|apply pow2_pos; lia].
  replace (k + 1 - 1) with k by lia. split; [lia|].
  apply Z.pow_lt_mono_r; lia.
Qed.

(** A product has at least one digit less than its factors together. *)
Lemma Zdigits2_product (a b : positive) :
  Zpos (digits2_pos a) + Zpos (digits2_pos b) - 1 <=
  Zdigits2 (Zpos (a * b)).
Proof.
  pose proof (digits2_pos_bounds a) as [Alo _].
  pose proof (digits2_pos_bounds b) as [Blo _].
  set (da := Zpos (digits2_pos a)) in *.
  set (db := Zpos (digits2_pos b)) in *.
  assert (Hda : 1 <= da) by (subst da; lia).
  assert (Hdb : 1 <= db) by (subst db; lia).
  assert (Hprod : 2 ^ (da + db - 2) <= Zpos (a * b)).
  { replace (da + db - 2) with ((da - 1) + (db - 1)) by lia.
    rewrite Z.pow_add_r, Pos2Z.inj_mul by lia.
    pose proof (pow2_pos (da - 1) ltac:(lia)).
    pose proof (pow2_pos (db - 1) ltac:(lia)). nia. }
  pose proof (Zdigits2_mono (2 ^ (da + db - 2)) (Zpos (a * b))) as Hm.
  rewrite Zdigits2_pow2 in Hm by lia.
  pose proof (pow2_pos (da + db - 2) ltac:(lia)). lia.
Qed.

Lemma mul_valid (x y : float) :
  wellFormed x -> wellFormed y -> wellFormed (mul x y).
Proof.
  intros Hx Hy.
  destruct x as [sx|sx| |sx mx ex], y as [sy|sy| |sy my ey];
    try reflexivity.
  unfold mul, SFmul. apply binary_round_aux_valid; [lia|].
  destruct (wellFormed_finite _ _ _ Hx) as ((Hex & _) & Hdx & Hnx).
  destruct (wellFormed_finite _ _ _ Hy) as ((Hey & _) & Hdy & Hny).
  pose proof (Zdigits2_product mx my) as Hd.
  assert (1 <= Zpos (digits2_pos mx)) by lia.
  assert (1 <= Zpos (digits2_pos my)) by lia.
  unfold SpecFloat.fexp, emin, SpecFloat.emin, prec, emax in *. lia.
Qed.

(** The quotient [SFdiv_core_binary] returns has the digits its exponent
    asks for. *)
Lemma div_core_digits (m1 m2 e1 e2 : Z) :
  0 < m1 -> 0 < m2 ->
  let '(q, e', _) := SFdiv_core_binary prec emax m1 e1 m2 e2 in
  0 <= q /\ e' <= fexp (Zdigits2 q + e').
Proof.
  intros H1 H2. unfold SFdiv_core_binary. fold fexp.
  pose proof (Zdigits2_bounds m1 H1) as [L1 _].
  pose proof (Zdigits2_bounds m2 H2) as [_ U2].
  set (d1 := Zdigits2 m1) in *. set (d2 := Zdigits2 m2) in *.
  assert (Hd1 : 1 <= d1) by (subst d1; destruct m1; cbn; lia).
  assert (Hd2 : 1 <= d2) by (subst d2; destruct m2; cbn; lia).
  set (X := d1 + e1 - (d2 + e2)).
  set (e' := Z.min (fexp X) (e1 - e2)).
  set (s := e1 - e2 - e').
  assert (Hs : 0 <= s) by (subst s e'; lia).
  set (m' := match s with
             | Z0 => m1
             | Zpos _ => Z.shiftl m1 s
             | Zneg _ => 0
             end).
  assert (Hm' : m' = m1 * 2 ^ s).
  { subst m'. destruct s as [|p|p] eqn:Es; try lia.
    now rewrite Z.shiftl_mul_pow2 by lia. }
  destruct (Z.div_eucl m' m2) as [q r] eqn:E.
  assert (Hq : q = m' / m2) by (unfold Z.div; now rewrite E).
  pose proof (pow2_pos s Hs) as Hp.
  assert (Hq0 : 0 <= q) by (subst q; apply Z.div_pos; nia).
  split; [exact Hq0|].
  assert (Hlow : 2 ^ (d1 - 1 + s) <= m').
  { rewrite Hm', Z.pow_add_r by lia. nia. }
  assert (He' : e' <= fexp X) by (subst e'; lia).
  destruct (Z.eq_dec q 0) as [Hz|Hnz].
  - rewrite Hz. cbn [Zdigits2].
    assert (Hlt : m' < m2).
    { destruct (Z.lt_ge_cases m' m2) as [H|H]; [exact H|].
      assert (1 <= m' / m2) by (apply Z.div_le_lower_bound; lia). lia. }
    assert (Hk : d1 - 1 + s < d2).
    { destruct (Z.lt_ge_cases (d1 - 1 + s) d2) as [H|H]; [exact H|].
      assert (2 ^ d2 <= 2 ^ (d1 - 1 + s))
        by (apply Z.pow_le_mono_r; lia).
      lia. }
    unfold SpecFloat.fexp, emin, SpecFloat.emin, prec, emax in *.
    subst s X. lia.
  - assert (Hdq : d1 + s - d2 <= Zdigits2 q).
    { assert (Hone : 1 <= Zdigits2 q) by (destruct q; cbn; lia).
      destruct (Z.lt_ge_cases (d1 - 1 + s - d2) 0) as [Hneg|Hpos];
        [lia|].
      assert (Hge : 2 ^ (d1 - 1 + s - d2) <= q).
      { rewrite Hq. apply Z.div_le_lower_bound; [lia|].
        pose proof (pow2_pos (d1 - 1 + s - d2) Hpos).
        assert (m2 * 2 ^ (d1 - 1 + s - d2) <=
                2 ^ d2 * 2 ^ (d1 - 1 + s - d2)) by nia.
        rewrite <- Z.pow_add_r in H0 by lia.
        replace (d2 + (d1 - 1 + s - d2)) with (d1 - 1 + s) in H0 by lia.
        lia. }
      pose proof (Zdigits2_mono (2 ^ (d1 - 1 + s - d2)) q) as Hm.
      rewrite Zdigits2_pow2 in Hm by lia.
      pose proof (pow2_pos (d1 - 1 + s - d2) Hpos). lia. }
    etransitivity; [exact He'|]. apply fexp_mono. subst s X. lia.
Qed.

Lemma div_valid (x y : float) : wellFormed (div x y).
Proof.
  destruct x as [sx|sx| |sx mx ex], y as [sy|sy| |sy my ey];
    try reflexivity.
  unfold div, SFdiv.
  pose proof (div_core_digits (Zpos mx) (Zpos my) ex ey
                ltac:(lia) ltac:(lia)) as H.
  destruct (SFdiv_core_binary _ _ _ _ _ _) as [[q e'] l].
  destruct H as [Hq He]. now apply binary_round_aux_valid.
Qed.

Lemma ofDecimal_valid (negative : bool) (m e : Z) :
  wellFormed (ofDecimal negative m e).
Proof.
  unfold ofDecimal. destruct m as [|p|p]; try reflexivity.
  destruct (0 <=? e) eqn:E; [apply binary_round_valid|].
  pose proof (div_core_digits (Zpos p) (10 ^ (- e)) 0 0 ltac:(lia)
                ltac:(apply Z.pow_pos_nonneg; lia)) as H.
  destruct (SFdiv_core_binary _ _ _ _ _ _) as [[q e'] l].
  destruct H as [Hq He]. now apply binary_round_aux_valid.
Qed.

(** [parseFloat] returns a binary64 value. *)
Lemma parseFloat_valid (s : string) : wellFormed (parseFloat s).
Proof.
  unfold parseFloat. destruct (signOf _) as [sg r].
  destruct (JsString.startsWith _ r); [reflexivity|].
  destruct (JsString.digitsFrom _ _ r _ _) as [[ip n1] r1].
  destruct (match r1 with
            | String "." f => _
            | _ => _
            end) as [[m n2] r2].
  destruct (n1 + n2)%nat; [reflexivity|apply ofDecimal_valid].
Qed.

End FloatValid.

(** ** The sort keys of the derived pairs *)

Section DerivedKeys.
Import Number.
Variable Math_pow : Number.float -> Number.float -> Number.float.
Variable toStringLarge : Number.float -> string.

Let derive := calculateTradingPairs Math_pow toStringLarge.

Lemma derived_pair (assets : list Asset.t) (pools : list Pool.t)
    (pair : Pair.t) :
  In pair (derive assets pools) ->
  exists pool poolAddress token0 token1,
    pair = buildPair Math_pow toStringLarge pool poolAddress token0 token1.
Proof using Type.
  unfold derive, calculateTradingPairs. rewrite SortFacts.sort_In.
  rewrite <- list_elem_of_In, list_elem_of_omap.
  intros (pool & _ & H). unfold pairOfPool in H.
  destruct (Pool.token0Address pool) as [[|c0 r0]|]; try discriminate.
  destruct (Pool.token1Address pool) as [[|c1 r1]|]; try discriminate.
  destruct (Pool.address pool) as [[|c r]|]; try discriminate.
  destruct (AssetMap.get _ (String c0 r0)) as [t0|]; [|discriminate].
  destruct (AssetMap.get _ (String c1 r1)) as [t1|]; [|discriminate].
  injection H as <-. now exists pool, (String c r), t0, t1.
Qed.

(** The liquidity, the 24-hour volume and the APY of every pair that
    [calculateTradingPairs] returns are binary64 values, so that each of
    these keys is fit to sort on as soon as it is not NaN. *)
Lemma derived_keys_wellFormed (assets : list Asset.t) (pools : list Pool.t)
    (pair : Pair.t) :
  In pair (derive assets pools) ->
  wellFormed (Pair.liquidity pair) /\
  wellFormed (Pair.volume24h pair) /\
  wellFormed (Pair.apy pair).
Proof using Type.
  intros Hin.
  destruct (derived_pair _ _ _ Hin) as (pool & a & t0 & t1 & ->).
  cbn [buildPair Pair.liquidity Pair.volume24h Pair.apy].
  repeat split; apply FloatValid.parseFloat_valid.
Qed.

(** So is the price, when [Math.pow] returns binary64 values. *)
Lemma derived_price_wellFormed (assets : list Asset.t) (pools : list Pool.t)
    (pair : Pair.t) :
  (forall x y, wellFormed (Math_pow x y)) ->
  In pair (derive assets pools) ->
  wellFormed (Pair.price pair).
Proof using Type.
  intros Hpow Hin.
  destruct (derived_pair _ _ _ Hin) as (pool & a & t0 & t1 & ->).
  cbn [buildPair Pair.price]. unfold pairPrice.
  destruct (_ && _); [apply FloatValid.div_valid|].
  destruct (ltb zero _); [|reflexivity].
  apply FloatValid.mul_valid; [apply FloatValid.div_valid|apply Hpow].
Qed.

End DerivedKeys.

(** ** The order of the derived pairs *)

Module CanonicalFacts.
Import Number FloatOrder Array.

Lemma ltb_units (u v : float) :
  sortable u -> sortable v -> ltb u v = true <-> units u < units v.
Proof.
  intros Hu Hv. unfold ltb, SFltb. rewrite (compare_units u v Hu Hv).
  destruct (Z.compare_spec (units u) (units v)); split; intros;
    try reflexivity; try discriminate; lia.
Qed.

(** The final sort compares the liquidities, then the popularities. *)
Lemma canonical_sgn (a b : Pair.t) :
  ranked a -> ranked b ->
  sgn canonicalCompare a b =
  match units (Pair.liquidity b) ?= units (Pair.liquidity a) with
  | Eq => units (Pair.popularityIndex b) ?= units (Pair.popularityIndex a)
  | c => c
  end.
Proof.
  intros [La Pa] [Lb Pb]. unfold sgn, canonicalCompare.
  destruct (eqb (Pair.liquidity b) (Pair.liquidity a)) eqn:E; cbn [negb].
  - apply eqb_units in E; [|assumption..].
    rewrite E, Z.compare_refl. now apply sub_sign.
  - rewrite sub_sign by assumption.
    destruct (Z.compare_spec (units (Pair.liquidity b))
                (units (Pair.liquidity a))) as [H| |]; try reflexivity.
    apply eqb_units in H; [congruence|assumption..].
Qed.

Lemma canonical_antisym (x y : Pair.t) :
  ranked x -> ranked y ->
  sgn canonicalCompare x y = CompOpp (sgn canonicalCompare y x).
Proof.
  intros Hx Hy. rewrite !canonical_sgn by assumption.
  rewrite (Z.compare_antisym (units (Pair.liquidity x))).
  rewrite (Z.compare_antisym (units (Pair.popularityIndex x))).
  destruct (_ ?= _); cbn; try reflexivity.
Qed.

Lemma canonical_notAfter (x y : Pair.t) :
  ranked x -> ranked y ->
  notAfter canonicalCompare x y <->
  units (Pair.liquidity y) < units (Pair.liquidity x) \/
  (units (Pair.liquidity y) = units (Pair.liquidity x) /\
   units (Pair.popularityIndex y) <= units (Pair.popularityIndex x)).
Proof.
  intros Hx Hy. unfold notAfter. rewrite canonical_sgn by assumption.
  destruct (Z.compare_spec (units (Pair.liquidity y))
              (units (Pair.liquidity x)));
    destruct (Z.compare_spec (units (Pair.popularityIndex y))
              (units (Pair.popularityIndex x)));
    split; intros; try congruence; try lia; try discriminate.
Qed.

Lemma canonical_trans (x y z : Pair.t) :
  ranked x -> ranked y -> ranked z ->
  notAfter canonicalCompare x y -> notAfter canonicalCompare y z ->
  notAfter canonicalCompare x z.
Proof.
  intros Hx Hy Hz. rewrite !canonical_notAfter by assumption. lia.
Qed.

Lemma canonical_order (x y : Pair.t) :
  ranked x -> ranked y ->
  notAfter canonicalCompare x y <-> canonicalOrder x y.
Proof.
  intros Hx Hy. rewrite canonical_notAfter by assumption.
  destruct Hx as [Lx Px], Hy as [Ly Py]. unfold canonicalOrder.
  rewrite ltb_units, eqb_units, leb_units by assumption. lia.
Qed.

(** A list that is in order is left as it is. *)
Lemma sort_sorted_id (A : Type) (comparefn : A -> A -> float)
    (l : list A) :
  StronglySorted (notAfter comparefn) l -> sort comparefn l = l.
Proof.
  induction 1 as [|x r Hr IH Hx]; cbn; [reflexivity|].
  rewrite IH. destruct Hx as [|y r' Hxy _]; cbn; [reflexivity|].
  unfold notAfter, sgn in Hxy.
  destruct (sign (comparefn x y)); congruence.
Qed.

(** In a sorted list [find] returns an element that stands before every
    other one it could have returned. *)
Lemma find_sorted (A : Type) (R : A -> A -> Prop) (f : A -> bool)
    (l : list A) (x : A) :
  StronglySorted R l -> find f l = Some x ->
  forall y, In y l -> f y = true -> y = x \/ R x y.
Proof.
  induction 1 as [|z r Hr IH Hz]; cbn; [discriminate|].
  destruct (f z) eqn:E.
  - intros [= <-] y [->|Hy] _; [now left|right].
    rewrite List.Forall_forall in Hz. now apply Hz.
  - intros Hf y [->|Hy] Hy'; [congruence|]. now apply IH.
Qed.

End CanonicalFacts.

Module FilterFacts.

Lemma StronglySorted_filter (A : Type) (R : A -> A -> Prop)
    (f : A -> bool) (l : list A) :
  StronglySorted R l -> StronglySorted R (List.filter f l).
Proof.
  induction 1 as [|x r Hr IH Hx]; cbn; [constructor|].
  destruct (f x); [|exact IH]. constructor; [exact IH|].
  rewrite List.Forall_forall in Hx |- *. intros y Hy.
  apply filter_In in Hy. now apply Hx.
Qed.

Lemma StronglySorted_filterThrow (A : Type) (R : A -> A -> Prop)
    (f : A -> option bool) (l l' : list A) :
  filterThrow f l = Some l' -> StronglySorted R l -> StronglySorted R l'.
Proof.
  intros E Hs. revert l' E.
  induction Hs as [|x r Hr IH Hx]; cbn; intros l'.
  - intros [= <-]. constructor.
  - destruct (f x) as [b|]; [|discriminate].
    destruct (filterThrow f r) as [r'|] eqn:E; [|discriminate].
    intros [= <-]. specialize (IH r' eq_refl).
    destruct b; [|exact IH]. constructor; [exact IH|].
    rewrite List.Forall_forall in Hx |- *. intros y Hy.
    apply Hx. now apply (filterThrow_sublist _ _ _ _ E).
Qed.

(** The filters keep the pairs in the order they came in. *)
Lemma applyFilters_sorted (R : Pair.t -> Pair.t -> Prop)
    (pairs filtered : list Pair.t) (filters : Filters.t) :
  applyFilters pairs filters = Some filtered ->
  StronglySorted R pairs -> StronglySorted R filtered.
Proof.
  unfold applyFilters. intros E Hs.
  destruct (match Filters.search filters with
            | EmptyString => Some pairs
            | String _ _ => _
            end) as [l|] eqn:El; [|discriminate].
  assert (Hl : StronglySorted R l).
  { destruct (Filters.search filters).
    - now injection El as <-.
    - eapply StronglySorted_filterThrow; eassumption. }
  cbn in E. injection E as <-.
  repeat match goal with
         | |- context [if ?b then _ else _] => destruct b
         end; repeat apply StronglySorted_filter; exact Hl.
Qed.


Lemma filterThrow_total (A : Type) (f : A -> option bool) (l : list A) :
  Forall (fun x => is_Some (f x)) l -> is_Some (filterThrow f l).
Proof.
  induction 1 as [|x r [b Hb] Hr [r' IH]]; cbn; [now eexists|].
  rewrite Hb, IH. now eexists.
Qed.

Lemma filter_all (A : Type) (f : A -> bool) (l : list A) :
  (forall x, f x = true) -> List.filter f l = l.
Proof.
  intros H. induction l as [|x r IH]; cbn; [reflexivity|].
  now rewrite H, IH.
Qed.

Lemma searchMatches_total (term : string) (pair : Pair.t) :
  hasSymbols pair ->
  is_Some (Token.name (Pair.token0 pair)) ->
  is_Some (Token.name (Pair.token1 pair)) ->
  is_Some (searchMatches term pair).
Proof.
  intros [[s0 H0] [s1 H1]] [n0 N0] [n1 N1]. unfold searchMatches.
  rewrite H0, H1, N0, N1.
  unfold lowerIncludes. cbn [fmap option_fmap option_map].
  repeat (destruct (JsString.includes _ _); cbn [orThrow];
          try (now eexists)).
Qed.

End FilterFacts.

Section Canonical.
Import Number FloatOrder Array CanonicalFacts FilterFacts.
Variable Math_pow : Number.float -> Number.float -> Number.float.
Variable localeCompare : string -> string -> Number.float.
Variable toStringLarge : Number.float -> string.

Let derive := calculateTradingPairs Math_pow toStringLarge.
Let query := filterAndSortPairs localeCompare.
Let handle := handler Math_pow localeCompare toStringLarge.
Let handleAny := Incoming.handler Math_pow localeCompare toStringLarge.

Lemma derived_ranked (assets : list Asset.t) (pools : list Pool.t) :
  Forall rankable (derive assets pools) ->
  Forall ranked (derive assets pools).
Proof using Type.
  rewrite !List.Forall_forall. intros H pair Hin.
  destruct (H pair Hin) as [Hl Hp].
  destruct (derived_pair _ _ _ _ _ Hin) as (pool & a & t0 & t1 & ->).
  split; (split; [apply FloatValid.parseFloat_valid|assumption]).
Qed.

Lemma derived_sorted (assets : list Asset.t) (pools : list Pool.t) :
  Forall rankable (derive assets pools) ->
  StronglySorted (notAfter canonicalCompare) (derive assets pools).
Proof using Type.
  intros H. apply derived_ranked in H. revert H.
  unfold derive, calculateTradingPairs. intros H.
  apply (SortOrder.sort_sorted canonicalCompare ranked
           canonical_antisym canonical_trans).
  eapply Permutation_Forall; [apply SortFacts.sort_perm | exact H].
Qed.

(** The pairs [calculateTradingPairs] returns are in order of liquidity,
    highest first, and pairs of equal liquidity in order of popularity,
    as long as none of these two Numbers is NaN for any pair. *)
Theorem calculateTradingPairs_sorted
    (assets : list Asset.t) (pools : list Pool.t) :
  Forall rankable (derive assets pools) ->
  StronglySorted canonicalOrder (derive assets pools).
Proof using Type.
  intros H. pose proof (derived_ranked _ _ H) as Hr.
  rewrite List.Forall_forall in Hr.
  eapply SortOrder.StronglySorted_In; [|apply derived_sorted; exact H].
  intros x y Hx Hy. apply canonical_order; auto.
Qed.

(** Sorting on liquidity, highest first — the default of the query —
    leaves the derived pairs in the order [calculateTradingPairs] gave
    them: [filterAndSortPairs] then only filters. *)
Theorem filterAndSortPairs_liquidity_desc
    (assets : list Asset.t) (pools : list Pool.t) (f : Filters.t) :
  Forall rankable (derive assets pools) ->
  Filters.sortBy f = "liquidity"%string ->
  Filters.sortOrder f <> "asc"%string ->
  query (derive assets pools) f = applyFilters (derive assets pools) f.
Proof using Type.
  intros H Hby Hord. unfold query, filterAndSortPairs.
  destruct (applyFilters _ f) as [filtered|] eqn:E; [|reflexivity].
  cbn [mbind option_bind]. f_equal. apply sort_sorted_id.
  apply (applyFilters_sorted _ _ _ _ E).
  pose proof (derived_ranked _ _ H) as Hr.
  rewrite List.Forall_forall in Hr.
  eapply SortOrder.StronglySorted_In; [|apply derived_sorted; exact H].
  intros x y Hx Hy Hxy.
  destruct (Hr x Hx) as [Lx Px]. destruct (Hr y Hy) as [Ly Py].
  apply canonical_notAfter in Hxy; auto.
  unfold notAfter, sgn, sortCompare, comparisonBy. rewrite Hby.
  apply String.eqb_neq in Hord. rewrite Hord. cbn.
  rewrite sub_sign by assumption. apply Z.compare_le_iff. lia.
Qed.

(** With a positive [minLiquidity] every pair of the result has at least
    that liquidity, and none has a NaN liquidity. A [minLiquidity] that
    is not positive removes nothing: without a search term and with the
    category [all] the result is a rearrangement of all the pairs. *)
Theorem filterAndSortPairs_minLiquidity
    (pairs result : list Pair.t) (f : Filters.t) :
  query pairs f = Some result ->
  (ltb zero (Filters.minLiquidity f) = true ->
   forall pair, In pair result ->
     leb (Filters.minLiquidity f) (Pair.liquidity pair) = true /\
     Pair.liquidity pair <> NaN) /\
  (ltb zero (Filters.minLiquidity f) = false ->
   Filters.search f = EmptyString ->
   Filters.category f = "all"%string ->
   Permutation result pairs).
Proof using Type.
  unfold query, filterAndSortPairs.
  destruct (applyFilters pairs f) as [filtered|] eqn:E; [|discriminate].
  cbn [mbind option_bind]. intros [= <-]. split.
  - intros Hmin pair Hin. apply SortFacts.sort_In in Hin.
    assert (Hleb : leb (Filters.minLiquidity f) (Pair.liquidity pair) = true).
    { revert E Hin. unfold applyFilters.
      destruct (match Filters.search f with
                | EmptyString => Some pairs
                | String _ _ => _
                end) as [l|]; [|discriminate].
      cbn. rewrite Hmin. intros [= <-].
      destruct (negb _); rewrite ?filter_In; intros; tauto. }
    split; [exact Hleb|]. intros HN. rewrite HN in Hleb.
    destruct (Filters.minLiquidity f) as [| | |]; discriminate.
  - intros Hmin Hs Hc. etransitivity; [apply SortFacts.sort_perm|].
    revert E. unfold applyFilters. rewrite Hs, Hmin, Hc. cbn.
    now intros [= <-].
Qed.

Lemma derived_names (assets : list Asset.t) (pools : list Pool.t)
    (pair : Pair.t) :
  In pair (derive assets pools) -> hasSymbols pair ->
  is_Some (Token.name (Pair.token0 pair)) /\
  is_Some (Token.name (Pair.token1 pair)).
Proof using Type.
  intros Hin.
  destruct (derived_pair _ _ _ _ _ Hin) as (pool & a & t0 & t1 & ->).
  cbn. unfold JsString.orOpt. intros [H0 H1].
  split.
  - destruct (JsString.truthy (Asset.displayName t0)) eqn:E; [|exact H0].
    destruct (Asset.displayName t0); [eauto|discriminate].
  - destruct (JsString.truthy (Asset.displayName t1)) eqn:E; [|exact H1].
    destruct (Asset.displayName t1); [eauto|discriminate].
Qed.

Lemma incoming_applyFilters (pairs : list Pair.t) (f : Filters.t) :
  Incoming.applyFilters pairs (incomingFilters f) = applyFilters pairs f.
Proof using Type.
  unfold Incoming.applyFilters, applyFilters.
  cbn [incomingFilters Incoming.Filters.search Incoming.Filters.minLiquidity
       Incoming.Filters.category QueryValue.strictEquals
       QueryValue.toLowerCase QueryValue.truthy].
  destruct (Filters.search f); reflexivity.
Qed.

Lemma incoming_filterAndSortPairs (pairs : list Pair.t) (f : Filters.t) :
  Incoming.filterAndSortPairs localeCompare pairs (incomingFilters f) =
  filterAndSortPairs localeCompare pairs f.
Proof using Type.
  unfold Incoming.filterAndSortPairs, filterAndSortPairs.
  rewrite incoming_applyFilters. reflexivity.
Qed.

Lemma incoming_parseQuery (q : Query.t) :
  Incoming.parseQuery (incomingQuery q) =
  Incoming.Params.mk (Params.page (parseQuery q))
    (Params.limit (parseQuery q))
    (incomingFilters (Params.filters (parseQuery q))).
Proof using Type.
  unfold Incoming.parseQuery, parseQuery, incomingQuery, incomingFilters.
  destruct q as [p l s b o m c]. cbn.
  destruct p, l, s as [[|]|], b as [[|]|], o as [[|]|], m, c as [[|]|];
    reflexivity.
Qed.

(** On a query whose parameters were each sent at most once, the
    handler read on any query is the handler read on texts. *)
Lemma incoming_handler (method : string) (q : Query.t)
    (assets : list Asset.t) (pools : list Pool.t) :
  handleAny method (incomingQuery q) assets pools =
  incomingResponse (handle method q assets pools).
Proof using Type.
  unfold handleAny, handle, Incoming.handler, handler.
  destruct (negb (method =? "GET")%string); [reflexivity|].
  rewrite incoming_parseQuery.
  cbn [Incoming.Params.filters Incoming.Params.page Incoming.Params.limit].
  rewrite incoming_filterAndSortPairs.
  destruct (filterAndSortPairs _ _ _); reflexivity.
Qed.

(** A GET request whose [search] parameter was sent more than once is
    answered with status 500: [req.query.search] is then an array, and
    [filters.search.toLowerCase()] throws. Any other GET request is
    answered with status 200 whenever its search term is absent or
    empty, and also whenever every derived pair has a symbol for both
    of its tokens — no callback of the filters can throw then —
    however often the other parameters were sent. *)
Theorem handler_search_status (q : Incoming.Query.t)
    (assets : list Asset.t) (pools : list Pool.t) :
  (forall texts,
     Incoming.Query.search q = Some (QueryValue.Many texts) ->
     handleAny "GET"%string q assets pools = Incoming.ServerError) /\
  ((forall texts,
      Incoming.Query.search q <> Some (QueryValue.Many texts)) ->
   QueryValue.truthy (Incoming.Query.search q) = false \/
   Forall hasSymbols (derive assets pools) ->
   exists body,
     handleAny "GET"%string q assets pools = Incoming.Success body).
Proof using Type.
  unfold handleAny, Incoming.handler.
  cbn [String.eqb Ascii.eqb Bool.eqb negb]. fold derive.
  unfold Incoming.filterAndSortPairs, Incoming.applyFilters.
  cbn [Incoming.parseQuery Incoming.Params.filters Incoming.Filters.search].
  split.
  - intros texts ->. reflexivity.
  - intros Hone H.
    destruct (Incoming.Query.search q) as [[s|texts]|] eqn:Es;
      [|now destruct (Hone texts)|].
    + destruct s as [|c r].
      * cbn. now eexists.
      * destruct H as [H|H]; [discriminate|].
        cbn [QueryValue.orElse QueryValue.truthy QueryValue.toLowerCase
             mbind option_bind].
        destruct (filterThrow_total _
                    (searchMatches (JsString.toLowerCase (String c r)))
                    (derive assets pools)) as [l Hl].
        { rewrite List.Forall_forall in H |- *. intros pair Hin.
          destruct (derived_names _ _ _ Hin (H _ Hin)).
          apply searchMatches_total; auto. }
        rewrite Hl. cbn. now eexists.
    + cbn. now eexists.
Qed.


(** The search does not depend on the letter case of the term: two terms
    that agree once lowered give the same result. *)
Theorem filterAndSortPairs_search_case
    (pairs : list Pair.t) (f : Filters.t) (s s' : string) :
  JsString.toLowerCase s = JsString.toLowerCase s' ->
  query pairs (withSearch f s) = query pairs (withSearch f s').
Proof using Type.
  intros H. unfold query, filterAndSortPairs, applyFilters.
  cbn [withSearch Filters.search Filters.minLiquidity Filters.category].
  replace (sortCompare localeCompare (withSearch f s'))
    with (sortCompare localeCompare (withSearch f s)) by reflexivity.
  destruct s as [|c r], s' as [|c' r']; try discriminate; [reflexivity|].
  now rewrite H.
Qed.

(** Options the code does not know fall back: a category other than
    [all], [stablecoins], [meme] and [defi] filters nothing, like [all];
    a [sortBy] other than the five keys sorts on liquidity; a
    [sortOrder] other than [asc] sorts as [desc]. *)
Theorem filterAndSortPairs_unknown_options
    (pairs : list Pair.t) (f : Filters.t) :
  (~ In (Filters.category f) ["all"; "stablecoins"; "meme"; "defi"]%string ->
   query pairs f = query pairs (withCategory f "all")) /\
  (~ In (Filters.sortBy f)
        ["liquidity"; "volume"; "apy"; "name"; "price"]%string ->
   query pairs f = query pairs (withSortBy f "liquidity")) /\
  (Filters.sortOrder f <> "asc"%string ->
   query pairs f = query pairs (withSortOrder f "desc")).
Proof using Type.
  split; [|split].
  - intros H. unfold query, filterAndSortPairs, applyFilters.
    cbn [withCategory Filters.search Filters.minLiquidity Filters.category].
    replace (sortCompare localeCompare (withCategory f "all"))
      with (sortCompare localeCompare f) by reflexivity.
    destruct (match Filters.search f with
              | EmptyString => Some pairs
              | String _ _ => _
              end) as [l|]; [|reflexivity].
    cbn. do 2 f_equal.
    destruct (String.eqb_spec (Filters.category f) "all") as [E|_];
      [rewrite E in H; cbn in H; tauto|].
    cbn [negb]. apply filter_all. intros pair. unfold categoryMatches.
    destruct (String.eqb_spec (Filters.category f) "stablecoins") as [E|_];
      [rewrite E in H; cbn in H; tauto|].
    destruct (String.eqb_spec (Filters.category f) "meme") as [E|_];
      [rewrite E in H; cbn in H; tauto|].
    destruct (String.eqb_spec (Filters.category f) "defi") as [E|_];
      [rewrite E in H; cbn in H; tauto|].
    reflexivity.
  - intros H. unfold query, filterAndSortPairs.
    change (applyFilters pairs (withSortBy f "liquidity"))
      with (applyFilters pairs f).
    destruct (applyFilters pairs f) as [l|]; [|reflexivity].
    cbn [mbind option_bind]. do 2 f_equal.
    unfold sortCompare, comparisonBy.
    cbn [withSortBy Filters.sortBy Filters.sortOrder].
    destruct (String.eqb_spec (Filters.sortBy f) "liquidity") as [E|_];
      [rewrite E in H; cbn in H; tauto|].
    destruct (String.eqb_spec (Filters.sortBy f) "volume") as [E|_];
      [rewrite E in H; cbn in H; tauto|].
    destruct (String.eqb_spec (Filters.sortBy f) "apy") as [E|_];
      [rewrite E in H; cbn in H; tauto|].
    destruct (String.eqb_spec (Filters.sortBy f) "name") as [E|_];
      [rewrite E in H; cbn in H; tauto|].
    destruct (String.eqb_spec (Filters.sortBy f) "price") as [E|_];
      [rewrite E in H; cbn in H; tauto|].
    reflexivity.
  - intros H. unfold query, filterAndSortPairs.
    change (applyFilters pairs (withSortOrder f "desc"))
      with (applyFilters pairs f).
    destruct (applyFilters pairs f) as [l|]; [|reflexivity].
    cbn [mbind option_bind]. do 2 f_equal.
    unfold sortCompare.
    cbn [withSortOrder Filters.sortBy Filters.sortOrder].
    apply String.eqb_neq in H. now rewrite H.
Qed.

End Canonical.

Lemma calculateTradingPairs_sorted_witness :
  let pairs :=
    calculateTradingPairs Engine.pow Engine.toStringLarge scenarioAssets
      [scenarioPool; deeperPool] in
  map Pair.id pairs = ["P2"; "P1"]%string /\
  StronglySorted canonicalOrder pairs.
Proof.
  split; [vm_compute; reflexivity|].
  apply calculateTradingPairs_sorted.
  vm_compute. repeat constructor; discriminate.
Defined.

Lemma filterAndSortPairs_liquidity_desc_witness :
  let pairs :=
    calculateTradingPairs Engine.pow Engine.toStringLarge scenarioAssets
      [scenarioPool; deeperPool] in
  filterAndSortPairs Engine.localeCompare pairs defaultFilters = Some pairs.
Proof.
  intros pairs. subst pairs.
  rewrite (filterAndSortPairs_liquidity_desc Engine.pow Engine.localeCompare
             Engine.toStringLarge scenarioAssets [scenarioPool; deeperPool]
             defaultFilters).
  - reflexivity.
  - vm_compute. repeat constructor; discriminate.
  - reflexivity.
  - discriminate.
Defined.

Lemma filterAndSortPairs_minLiquidity_witness :
  let f := Filters.mk "" "liquidity" "asc" (Number.ofZ 2) "all" in
  let pairs := [pairWith "P1" (Number.ofZ 3); pairWith "P2" (Number.ofZ 1);
                pairWith "P3" (Number.ofZ 2)] in
  exists result,
    filterAndSortPairs Engine.localeCompare pairs f = Some result /\
    map Pair.id result = ["P3"; "P1"]%string /\
    forall pair, In pair result ->
      Number.leb (Number.ofZ 2) (Pair.liquidity pair) = true /\
      Pair.liquidity pair <> Number.NaN.
Proof.
  intros f pairs. eexists. split; [vm_compute; reflexivity|].
  split; [reflexivity|].
  refine (proj1 (filterAndSortPairs_minLiquidity Engine.localeCompare
                   pairs _ f _) _).
  - vm_compute. reflexivity.
  - reflexivity.
Defined.

Lemma handler_search_status_witness :
  let handle :=
    Incoming.handler Engine.pow Engine.localeCompare Engine.toStringLarge in
  let twice texts := Some (QueryValue.Many texts) in
  let once text := Some (QueryValue.Single text) in
  handle "GET"%string
    (Incoming.Query.mk None None (twice ["ton"; "usd"]%string)
       None None None None)
    scenarioAssets [scenarioPool] = Incoming.ServerError /\
  exists body,
    handle "GET"%string
      (Incoming.Query.mk (twice ["1"; "2"]%string) None (once "ton"%string)
         None None None (twice ["meme"; "defi"]%string))
      scenarioAssets [scenarioPool] = Incoming.Success body.
Proof.
  intros handle twice once. split.
  - apply (proj1 (handler_search_status Engine.pow Engine.localeCompare
                    Engine.toStringLarge _ scenarioAssets [scenarioPool])
             ["ton"; "usd"]%string).
    reflexivity.
  - apply (proj2 (handler_search_status Engine.pow Engine.localeCompare
                    Engine.toStringLarge _ scenarioAssets [scenarioPool])).
    + intros texts. discriminate.
    + right. vm_compute.
      repeat (apply List.Forall_cons; [split; eexists; reflexivity|]).
      apply List.Forall_nil.
Defined.


Lemma filterAndSortPairs_search_case_witness :
  let pairs := [pairWith "P1" (Number.ofZ 3)] in
  filterAndSortPairs Engine.localeCompare pairs
    (withSearch defaultFilters "StOn") =
  filterAndSortPairs Engine.localeCompare pairs
    (withSearch defaultFilters "sTON").
Proof.
  apply filterAndSortPairs_search_case. reflexivity.
Defined.

Lemma filterAndSortPairs_unknown_options_witness :
  let pairs := [pairWith "P1" (Number.ofZ 1); pairWith "P2" (Number.ofZ 3)] in
  let f := Filters.mk "" "tvl" "ASC" Number.zero "nft" in
  filterAndSortPairs Engine.localeCompare pairs f =
    filterAndSortPairs Engine.localeCompare pairs (withCategory f "all") /\
  filterAndSortPairs Engine.localeCompare pairs f =
    filterAndSortPairs Engine.localeCompare pairs
      (withSortBy f "liquidity") /\
  filterAndSortPairs Engine.localeCompare pairs f =
    filterAndSortPairs Engine.localeCompare pairs (withSortOrder f "desc").
Proof.
  intros pairs f.
  destruct (filterAndSortPairs_unknown_options Engine.localeCompare pairs f)
    as (Hc & Hb & Ho).
  split; [apply Hc; intros [H|[H|[H|[H|[]]]]]; discriminate H|].
  split; [apply Hb; intros [H|[H|[H|[H|[H|[]]]]]]; discriminate H|].
  apply Ho. discriminate.
Defined.

(** ** Pages *)

Module PageFacts.


Lemma page_data (A : Type) (items : list A) (page limit : Z) :
  1 <= page -> 1 <= limit ->
  Page.data (paginateResults items page limit) =
  firstn (Z.to_nat limit) (skipn (Z.to_nat ((page - 1) * limit)) items).
Proof.
  intros Hp Hl. unfold paginateResults. cbn [Page.data].
  apply PaginationFacts.slice_from; nia.
Qed.

End PageFacts.


(** A negative page size is read by [slice] as an index from the end:
    page 1 then holds all the items but the last [-limit], every later
    page is empty, [totalPages] is not positive and [hasNextPage] is
    false. *)
Theorem paginateResults_negative_limit (A : Type) (items : list A)
    (page limit : Z) :
  1 <= page -> limit < 0 ->
  let result := paginateResults items page limit in
  Page.data result =
    (if page =? 1
     then firstn (Z.to_nat (Z.of_nat (length items) + limit)) items
     else []) /\
  Pagination.hasNextPage (Page.pagination result) = false /\
  exists totalPages,
    Pagination.totalPages (Page.pagination result) = CountOf totalPages /\
    totalPages <= 0.
Proof.
  intros Hp Hl result. subst result. unfold paginateResults.
  cbn [Page.data Page.pagination Pagination.hasNextPage
       Pagination.totalPages].
  set (len := Z.of_nat (length items)).
  assert (Hlen : 0 <= len) by (subst len; lia).
  assert (Hq : 0 <= (- len) / limit).
  { pose proof (Z.div_mod (- len) limit ltac:(lia)).
    pose proof (Z.mod_neg_bound (- len) limit Hl). nia. }
  split; [|split].
  - unfold Array.slice, Array.relativeIndex. fold len.
    destruct (Z.eqb_spec page 1) as [->|Hne].
    + replace ((1 - 1) * limit) with 0 by lia. rewrite Z.add_0_l.
      change (0 <? 0) with false. cbv iota.
      destruct (Z.ltb_spec limit 0) as [_|?]; [|lia].
      replace (Z.to_nat (Z.min 0 len)) with O by lia. cbn [skipn].
      f_equal. lia.
    + destruct (Z.ltb_spec ((page - 1) * limit) 0) as [_|?]; [|nia].
      destruct (Z.ltb_spec ((page - 1) * limit + limit) 0) as [_|?];
        [|nia].
      replace (Z.to_nat (Z.max _ 0)) with O by nia. reflexivity.
  - unfold ceilDiv. destruct (Z.eqb_spec limit 0) as [?|_]; [lia|].
    cbn [ltCount]. apply Z.ltb_ge. lia.
  - unfold ceilDiv. destruct (Z.eqb_spec limit 0) as [?|_]; [lia|].
    eexists; split; [reflexivity|]. lia.
Qed.

(** A page size of 0 — which the handler never passes on — gives an
    empty page; [totalPages] is then no count: [Infinity] for a list
    that has items, with [hasNextPage] true on every page, and [NaN]
    for the empty list. *)
Theorem paginateResults_limit_zero (A : Type) (items : list A) (page : Z) :
  let result := paginateResults items page 0 in
  Page.data result = [] /\
  Pagination.totalPages (Page.pagination result) =
    (if decide (items = []) then CountNaN else CountInfinity false) /\
  Pagination.hasNextPage (Page.pagination result) =
    negb (bool_decide (items = [])).
Proof.
  cbn zeta. unfold paginateResults.
  cbn [Page.data Page.pagination Pagination.hasNextPage
       Pagination.totalPages].
  split.
  - unfold Array.slice. rewrite Z.mul_0_r, Z.add_0_r.
    rewrite Z.sub_diag. reflexivity.
  - destruct items as [|x r]; [split; reflexivity|].
    rewrite decide_False by discriminate.
    rewrite bool_decide_eq_false_2 by discriminate.
    split; reflexivity.
Qed.


Lemma paginateResults_negative_limit_witness :
  let result := paginateResults (seq 1 7) 1 (-2) in
  Page.data result = seq 1 5 /\
  Pagination.hasNextPage (Page.pagination result) = false.
Proof.
  pose proof (paginateResults_negative_limit nat (seq 1 7) 1 (-2)
                ltac:(lia) ltac:(lia)) as (Hd & Hn & _).
  split; assumption.
Defined.

(** ** Decimal texts *)

Module DigitFacts.
Import JsString.

Lemma digitChar_digit (d : Z) :
  0 <= d <= 9 -> In (digitChar d) decimalDigitChars.
Proof.
  intros Hd.
  assert (d = 0 \/ d = 1 \/ d = 2 \/ d = 3 \/ d = 4 \/ d = 5 \/ d = 6 \/
          d = 7 \/ d = 8 \/ d = 9) as H by lia.
  repeat (destruct H as [->|H]; [cbn; tauto|]). subst. cbn; tauto.
Qed.

Lemma digitVal_digitChar (d : Z) :
  0 <= d <= 9 -> digitVal (digitChar d) = Some d.
Proof.
  intros H. unfold digitVal, digitChar.
  rewrite N_ascii_embedding by lia.
  destruct (N.leb_spec 48 (48 + Z.to_N d)); [|lia].
  destruct (N.leb_spec (48 + Z.to_N d) 57); [|lia].
  cbn [andb]. f_equal. lia.
Qed.

Lemma decimalDigits_S (fuel : nat) (n : Z) (acc : string) :
  decimalDigits (S fuel) n acc =
  if n <? 10 then String (digitChar (n mod 10)) acc
  else decimalDigits fuel (n / 10) (String (digitChar (n mod 10)) acc).
Proof. reflexivity. Qed.

(** Reading the digits that [decimalDigits] wrote gives the number
    back. *)
Lemma digitsFrom_decimalDigits (fuel : nat) (n : Z) (acc : string)
    (c : nat) :
  0 <= n < 10 ^ Z.of_nat (S fuel) ->
  exists k,
    digitsFrom digitVal 10 (decimalDigits (S fuel) n acc) 0 c =
    digitsFrom digitVal 10 acc n (S (c + k)).
Proof.
  revert n acc c. induction fuel as [|fuel IH]; intros n acc c Hn;
    rewrite decimalDigits_S;
    pose proof (Z.mod_pos_bound n 10 ltac:(lia));
    pose proof (Z.div_mod n 10 ltac:(lia)).
  - exists O.
    destruct (Z.ltb_spec n 10) as [Hlt|?]; [|cbn in Hn; lia].
    rewrite Z.mod_small by lia. cbn [digitsFrom].
    rewrite digitVal_digitChar by lia.
    do 2 f_equal; lia.
  - destruct (Z.ltb_spec n 10) as [Hlt|Hge].
    + exists O. rewrite Z.mod_small by lia. cbn [digitsFrom].
      rewrite digitVal_digitChar by lia. do 2 f_equal; lia.
    + destruct (IH (n / 10) (String (digitChar (n mod 10)) acc) c)
        as [k Hk].
      { split; [apply Z.div_pos; lia|].
        apply Z.div_lt_upper_bound; [lia|].
        rewrite Nat2Z.inj_succ, Z.pow_succ_r in Hn by lia. lia. }
      exists (S k). rewrite Hk. cbn [digitsFrom].
      rewrite digitVal_digitChar by lia.
      do 2 f_equal; lia.
Qed.

(** [ofNat] gives [decimalDigits] fuel enough. *)
Lemma ofNat_fuel (n : Z) :
  0 <= n -> n < 10 ^ Z.of_nat (S (Z.to_nat (Z.log2 n))).
Proof.
  intros Hn. rewrite Nat2Z.inj_succ, Z2Nat.id by apply Z.log2_nonneg.
  destruct (Z.eq_dec n 0) as [->|Hne]; [reflexivity|].
  pose proof (Z.log2_spec n ltac:(lia)) as [_ Hlt].
  eapply Z.lt_le_trans; [exact Hlt|].
  apply Z.pow_le_mono_l. lia.
Qed.

Lemma digitsFrom_ofNat (n : Z) :
  0 <= n ->
  exists k,
    digitsFrom digitVal 10 (ofNat n) 0 O = (n, S k, EmptyString).
Proof.
  intros Hn.
  destruct (digitsFrom_decimalDigits _ n EmptyString O
              (conj Hn (ofNat_fuel n Hn))) as [k Hk].
  now exists k.
Qed.

Lemma decimalDigits_digitString (fuel : nat) (n : Z) (acc : string) :
  0 <= n -> digitString acc -> digitString (decimalDigits fuel n acc).
Proof.
  revert n acc. induction fuel as [|fuel IH]; intros n acc Hn Hacc;
    [exact Hacc|].
  rewrite decimalDigits_S.
  pose proof (Z.mod_pos_bound n 10 ltac:(lia)).
  assert (digitString (String (digitChar (n mod 10)) acc))
    by (split; [apply digitChar_digit; lia | exact Hacc]).
  destruct (n <? 10); [assumption|].
  apply IH; [apply Z.div_pos; lia | assumption].
Qed.

Lemma decimalDigits_nonempty (fuel : nat) (n : Z) (acc : string) :
  decimalDigits (S fuel) n acc <> EmptyString.
Proof.
  revert n acc. induction fuel as [|fuel IH]; intros n acc;
    rewrite decimalDigits_S; destruct (n <? 10); try discriminate.
  apply IH.
Qed.

Lemma ofNat_digitString (n : Z) : 0 <= n -> digitString (ofNat n).
Proof. intros Hn. now apply decimalDigits_digitString. Qed.

Lemma trimStart_digit (c : ascii) (r : string) :
  In c decimalDigitChars -> trimStart (String c r) = String c r.
Proof. intros H. cbn in H. intuition (subst; reflexivity). Qed.

Lemma signOf_digit (c : ascii) (r : string) :
  In c decimalDigitChars ->
  Number.signOf (String c r) = (false, String c r).
Proof. intros H. cbn in H. intuition (subst; reflexivity). Qed.

Lemma not_hex_mark (x : ascii) :
  In x decimalDigitChars -> (Ascii.eqb x "x" || Ascii.eqb x "X") = false.
Proof. intros H. cbn in H. intuition (subst; reflexivity). Qed.

(** The radix test of [parseInt] sees no prefix [0x] in a text of
    digits. *)
Lemma radix_digits (c : ascii) (r : string) :
  In c decimalDigitChars -> digitString r ->
  match String c r with
  | String "0" (String x h) =>
      if (Ascii.eqb x "x" || Ascii.eqb x "X")%bool
      then digitsFrom hexVal 16 h 0 O
      else digitsFrom digitVal 10 (String c r) 0 O
  | _ => digitsFrom digitVal 10 (String c r) 0 O
  end = digitsFrom digitVal 10 (String c r) 0 O.
Proof.
  intros Hc Hr. cbn in Hc.
  destruct r as [|x h];
    [intuition (subst; reflexivity)|].
  destruct Hr as [Hx _]. apply not_hex_mark in Hx.
  intuition (subst; try reflexivity). now rewrite Hx.
Qed.

(** [parseInt] reads the digits of an integer, with or without a minus
    sign, back as the integer. *)
Lemma parseInt_signed (negative : bool) (n : Z) :
  0 <= n ->
  Number.parseInt ((if negative then "-" else "") +:+ ofNat n) =
  Some (if negative then - n else n).
Proof.
  intros Hn.
  pose proof (ofNat_digitString n Hn) as Hds.
  pose proof (decimalDigits_nonempty (Z.to_nat (Z.log2 n)) n EmptyString)
    as Hne.
  fold (ofNat n) in Hne.
  destruct (digitsFrom_ofNat n Hn) as [k Hk].
  destruct (ofNat n) as [|c r] eqn:E; [contradiction|].
  destruct Hds as [Hc Hr].
  unfold Number.parseInt.
  assert (Hsign :
    Number.signOf
      (trimStart ((if negative then "-" else "") +:+ String c r)) =
    (negative, String c r)).
  { destruct negative.
    - reflexivity.
    - change ("" +:+ String c r)%string with (String c r).
      rewrite trimStart_digit, signOf_digit by assumption. reflexivity. }
  rewrite Hsign, radix_digits, Hk by assumption. reflexivity.
Qed.

Lemma parseInt_ofNat (n : Z) : 0 <= n -> Number.parseInt (ofNat n) = Some n.
Proof. intros Hn. exact (parseInt_signed false n Hn). Qed.

Lemma parseInt_decimalsText (token : Asset.t) :
  Number.parseInt (decimalsText (Asset.decimals token)) =
  Some (effectiveDecimals token).
Proof.
  unfold effectiveDecimals, decimalsText.
  destruct (Asset.decimals token) as [[|p|p]|]; try reflexivity.
  - exact (parseInt_signed false (Zpos p) ltac:(lia)).
  - exact (parseInt_signed true (Zpos p) ltac:(lia)).
Qed.

End DigitFacts.

Section Decimals.
Import Number.
Variable Math_pow : Number.float -> Number.float -> Number.float.

(** Without two positive USD prices and with a positive reserve of
    token0, the price is the quotient of the reserves times 10 to the
    difference of the decimals, where the decimals of a token are the
    integer of its [decimals] field, and 9 when the field is absent or
    0: a token with no decimal places is priced as one with 9. *)
Theorem pairPrice_from_reserves (token0 token1 : Asset.t)
    (token0Reserve token1Reserve token0UsdPrice token1UsdPrice : float) :
  Z.abs (effectiveDecimals token0) < 10 ^ 21 ->
  Z.abs (effectiveDecimals token1) < 10 ^ 21 ->
  ltb zero token0UsdPrice && ltb zero token1UsdPrice = false ->
  ltb zero token0Reserve = true ->
  pairPrice Math_pow token0 token1 token0Reserve token1Reserve
    token0UsdPrice token1UsdPrice =
  mul (div token1Reserve token0Reserve)
    (Math_pow ten
       (sub (ofZ (effectiveDecimals token0))
            (ofZ (effectiveDecimals token1)))).
Proof using Type.
  intros _ _ Husd Hres. unfold pairPrice. rewrite Husd, Hres.
  now rewrite !DigitFacts.parseInt_decimalsText.
Qed.

End Decimals.

Lemma pairPrice_from_reserves_witness :
  effectiveDecimals wholeUnitToken = 9 /\
  pairPrice Engine.pow wholeUnitToken sixDecimalsToken
    (Number.ofZ 100) (Number.ofZ 500) Number.zero Number.zero =
  Number.ofZ 5000.
Proof.
  split; [reflexivity|].
  rewrite (pairPrice_from_reserves Engine.pow wholeUnitToken
             sixDecimalsToken);
    [vm_compute; reflexivity | vm_compute; reflexivity..].
Defined.

(** A page or a limit sent as the decimal digits of an integer from 1
    up is read as that integer; one that is not sent is 1,
    respectively 50. *)
Theorem parseQuery_decimal_page_limit (q : Query.t) (n : Z) :
  1 <= n < 2 ^ 53 ->
  (Query.page q = Some (JsString.ofNat n) ->
   Params.page (parseQuery q) = n) /\
  (Query.limit q = Some (JsString.ofNat n) ->
   Params.limit (parseQuery q) = n) /\
  (Query.page q = None -> Params.page (parseQuery q) = 1) /\
  (Query.limit q = None -> Params.limit (parseQuery q) = 50).
Proof.
  intros Hn. unfold parseQuery. cbn [Params.page Params.limit].
  repeat split; intros ->; cbn [JsString.interpolate default from_option id];
    try reflexivity;
    rewrite DigitFacts.parseInt_ofNat by lia;
    destruct n; cbn; lia.
Qed.

Lemma parseQuery_decimal_page_limit_witness :
  let q := Query.mk (Some "12") None None None None None None in
  Params.page (parseQuery q) = 12 /\ Params.limit (parseQuery q) = 50.
Proof.
  intros q.
  destruct (parseQuery_decimal_page_limit q 12 ltac:(lia))
    as (Hp & _ & _ & Hl).
  split; [apply Hp | apply Hl]; reflexivity.
Defined.

(** ** The server's cache *)

Module ServerFacts.

Lemma validity_fresh (cache : Cache.t) (t now : Z) :
  Cache.lastUpdated cache = Some t -> t <> 0 ->
  validityTruthy (isCacheValid cache now) = (now - t <? CACHE_DURATION).
Proof.
  intros H Ht. unfold isCacheValid. rewrite H.
  destruct t; [contradiction|reflexivity..].
Qed.

Lemma stampIfUnset_set (t later : Z) :
  t <> 0 -> stampIfUnset (Some t) later = Some t.
Proof. intros H. destruct t; [contradiction|reflexivity..]. Qed.

Lemma routeSearch_within (term : string) (pair : Pair.t) :
  match routeSearchMatches term pair with
  | Some true => searchMatches term pair = Some true
  | Some false =>
      searchMatches term pair =
      Some (JsString.includes (JsString.toLowerCase (Pair.poolAddress pair))
              term)
  | None => searchMatches term pair = None
  end.
Proof.
  unfold routeSearchMatches, searchMatches.
  destruct (lowerIncludes (Some (Pair.name pair)) term) as [[|]|];
    cbn [orThrow]; try reflexivity.
  destruct (lowerIncludes (Token.symbol (Pair.token0 pair)) term)
    as [[|]|]; cbn [orThrow]; try reflexivity.
  destruct (lowerIncludes (Token.symbol (Pair.token1 pair)) term)
    as [[|]|]; cbn [orThrow]; try reflexivity.
  destruct (lowerIncludes (Token.name (Pair.token0 pair)) term)
    as [[|]|]; cbn [orThrow]; try reflexivity.
  destruct (lowerIncludes (Token.name (Pair.token1 pair)) term)
    as [[|]|]; cbn [orThrow]; reflexivity.
Qed.

Lemma filterThrow_within (term : string) (pairs found : list Pair.t) :
  filterThrow (routeSearchMatches term) pairs = Some found ->
  exists kept,
    filterThrow (searchMatches term) pairs = Some kept /\
    found =
      List.filter
        (fun pair => bool_decide (routeSearchMatches term pair = Some true))
        kept.
Proof.
  revert found. induction pairs as [|p r IH]; intros found;
    cbn [filterThrow].
  - intros [= <-]. now exists [].
  - pose proof (routeSearch_within term p) as Hp.
    destruct (routeSearchMatches term p) as [b|] eqn:E; [|discriminate].
    destruct (filterThrow (routeSearchMatches term) r) as [r'|];
      [|discriminate].
    intros [= <-]. destruct (IH r' eq_refl) as (kept & -> & Hk).
    destruct b; rewrite Hp.
    + exists (p :: kept). split; [reflexivity|]. cbn [List.filter].
      rewrite E, bool_decide_eq_true_2 by reflexivity. now f_equal.
    + eexists. split; [reflexivity|].
      destruct (JsString.includes _ term); [|exact Hk].
      cbn [List.filter].
      rewrite E, bool_decide_eq_false_2 by discriminate. exact Hk.
Qed.

End ServerFacts.

Section ServerProperties.
Import ServerFacts.
Variable Math_pow : Number.float -> Number.float -> Number.float.
Variable localeCompare : string -> string -> Number.float.
Variable toStringLarge : Number.float -> string.

Let derive := calculateTradingPairs Math_pow toStringLarge.
Let poolPair := pairOfPool Math_pow toStringLarge.
Let getPair := pairRoute Math_pow toStringLarge.
Let getSearch := searchRoute Math_pow toStringLarge.
Let answer := serve Math_pow toStringLarge.
Let answerAll := serveAll Math_pow toStringLarge.

Lemma derived_from_pool (assets : list Asset.t) (pools : list Pool.t)
    (p : Pair.t) :
  In p (derive assets pools) <->
  exists pool, In pool pools /\ poolPair (buildAssetMap assets) pool = Some p.
Proof using Type.
  unfold derive, calculateTradingPairs. rewrite SortFacts.sort_In.
  rewrite <- list_elem_of_In, list_elem_of_omap.
  split; intros (pool & H & E); exists pool; split; auto;
    now apply list_elem_of_In.
Qed.

(** What a refresh by the pair route leaves in the cache. *)
Lemma pairRoute_stores (cache : Cache.t) (now later : Z)
    (assets : list Asset.t) (pools : list Pool.t) (poolAddress : string) :
  validityTruthy (isCacheValid cache now) = false \/
  Cache.pairs cache = None ->
  snd (getPair cache now later (Upstream.mk (Some assets) (Some pools))
         poolAddress) =
  Cache.mk (Cache.assets cache) (Cache.pools cache) (Some later)
    (Some (derive assets pools)).
Proof using Type.
  intros Hstale. unfold getPair, pairRoute, refreshPairs.
  assert (Hc : negb (validityTruthy (isCacheValid cache now)) ||
               negb (bool_decide (is_Some (Cache.pairs cache))) = true).
  { destruct Hstale as [-> | ->]; [reflexivity|].
    rewrite bool_decide_eq_false_2 by (intros [? [=]]).
    apply orb_true_r. }
  rewrite Hc. cbn [Upstream.getAssets Upstream.getPools Cache.pairs].
  fold derive. destruct (find _ _); reflexivity.
Qed.

(** When the cache is not valid or holds no pairs, the pair route
    fetches, stores the derived pairs and the reading of the clock, and
    leaves the cached assets and pools alone. It then answers 200 with
    a pair of the requested pool address, derived from a pool of the
    upstream list that bears this address, or 404 when no pool with
    this address yields a pair; it never answers 500. *)
Theorem pairRoute_refresh (cache : Cache.t) (now later : Z)
    (assets : list Asset.t) (pools : list Pool.t) (poolAddress : string) :
  validityTruthy (isCacheValid cache now) = false \/
  Cache.pairs cache = None ->
  let '(response, cache') :=
    getPair cache now later (Upstream.mk (Some assets) (Some pools))
      poolAddress in
  cache' =
    Cache.mk (Cache.assets cache) (Cache.pools cache) (Some later)
      (Some (derive assets pools)) /\
  match response with
  | PairFound found lastUpdated =>
      lastUpdated = Some later /\
      Pair.poolAddress found = poolAddress /\
      exists pool,
        In pool pools /\
        Pool.address pool = Some poolAddress /\
        poolPair (buildAssetMap assets) pool = Some found
  | PairNotFound _ =>
      forall pool,
        In pool pools ->
        poolQualifies (buildAssetMap assets) pool = true ->
        Pool.address pool <> Some poolAddress
  | PairError => False
  end.
Proof using Type.
  intros Hstale. unfold getPair, pairRoute, refreshPairs.
  assert (Hc : negb (validityTruthy (isCacheValid cache now)) ||
               negb (bool_decide (is_Some (Cache.pairs cache))) = true).
  { destruct Hstale as [-> | ->]; [reflexivity|].
    rewrite bool_decide_eq_false_2 by (intros [? [=]]).
    apply orb_true_r. }
  rewrite Hc. cbn [Upstream.getAssets Upstream.getPools Cache.pairs
                   Cache.lastUpdated].
  fold derive.
  destruct (find _ (derive assets pools)) as [found|] eqn:E.
  - split; [reflexivity|].
    apply find_some in E. destruct E as [Hin Haddr].
    apply String.eqb_eq in Haddr.
    split; [reflexivity|]. split; [exact Haddr|].
    apply derived_from_pool in Hin. destruct Hin as (pool & Hin & Hp).
    exists pool. split; [exact Hin|]. split; [|exact Hp].
    destruct (poolQualifies (buildAssetMap assets) pool) eqn:Q.
    + destruct (pairOfPool_qualifies Math_pow toStringLarge _ _ Q)
        as (pair' & Hp' & _ & Ha & _).
      fold poolPair in Hp'. congruence.
    + pose proof (pairOfPool_not_qualifies Math_pow toStringLarge _ _ Q)
        as Hn.
      fold poolPair in Hn. congruence.
  - split; [reflexivity|].
    intros pool Hin Q Ha.
    destruct (pairOfPool_qualifies Math_pow toStringLarge _ _ Q)
      as (pair' & Hp' & _ & Ha' & _).
    assert (Hd : In pair' (derive assets pools))
      by (apply derived_from_pool; now exists pool).
    pose proof (find_none _ _ E _ Hd) as Hf. cbn in Hf.
    rewrite Ha in Ha'. injection Ha' as Heq. rewrite Heq in Hf.
    now rewrite String.eqb_refl in Hf.
Qed.

(** For the cache duration after a refresh the pair route answers
    from the pairs of that refresh, prices included, whatever the
    upstream answers in the meantime, even nothing: it gives the very
    response the refreshing request would have given, and leaves the
    cache as it is. *)
Theorem pairRoute_serves_cached (cache : Cache.t) (now later : Z)
    (assets : list Asset.t) (pools : list Pool.t)
    (first second : string) (now' later' : Z) (upstream : Upstream.t) :
  validityTruthy (isCacheValid cache now) = false \/
  Cache.pairs cache = None ->
  later <> 0 -> now' - later < CACHE_DURATION ->
  let fresh := Upstream.mk (Some assets) (Some pools) in
  let refreshed := snd (getPair cache now later fresh first) in
  getPair refreshed now' later' upstream second =
  (fst (getPair cache now later fresh second), refreshed).
Proof using Type.
  intros Hstale Hlater Hnow fresh refreshed.
  pose proof (pairRoute_stores cache now later assets pools first Hstale)
    as H1.
  pose proof (pairRoute_stores cache now later assets pools second Hstale)
    as H2.
  fold fresh in H1, H2. subst refreshed.
  destruct (getPair cache now later fresh first) as [r1 c1].
  destruct (getPair cache now later fresh second) as [r2 c2] eqn:E2.
  cbn [snd] in H1, H2. subst c1 c2. cbn [fst snd].
  revert E2. unfold getPair, pairRoute, refreshPairs.
  assert (Hc : negb (validityTruthy (isCacheValid cache now)) ||
               negb (bool_decide (is_Some (Cache.pairs cache))) = true).
  { destruct Hstale as [-> | ->]; [reflexivity|].
    rewrite bool_decide_eq_false_2 by (intros [? [=]]).
    apply orb_true_r. }
  rewrite Hc.
  set (refreshed := Cache.mk _ _ (Some later) _).
  rewrite (validity_fresh refreshed later now' eq_refl Hlater).
  destruct (Z.ltb_spec (now' - later) CACHE_DURATION) as [_|?]; [|lia].
  subst refreshed.
  cbn [Cache.pairs negb orb Upstream.getAssets Upstream.getPools
       Cache.lastUpdated fresh].
  rewrite bool_decide_eq_true_2 by (eexists; reflexivity). cbn [negb].
  cbn [Cache.pairs Cache.lastUpdated].
  destruct (find _ _); now intros [= <-].
Qed.

(** Once the time stamp is older than the cache duration, the routes of
    the assets and the pools fetch on every request: they store what
    they fetched and leave the stamp as it is. *)
Theorem metadata_never_cached_again (cache : Cache.t) (t : Z)
    (arrivals : list Arrival.t) :
  Cache.lastUpdated cache = Some t -> t <> 0 ->
  Forall (fun a =>
            (Arrival.request a = GetAssets \/ Arrival.request a = GetPools) /\
            t + CACHE_DURATION <= Arrival.now a) arrivals ->
  let '(replies, cache') := answerAll cache arrivals in
  Forall (fun r => servedFromCache r = false) replies /\
  Cache.lastUpdated cache' = Some t.
Proof using Type.
  intros Ht Hne Hall. revert cache Ht.
  induction Hall as [|a rest [Hreq Hnow] Hrest IH]; intros cache Ht;
    cbn [answerAll serveAll]; [now split|].
  assert (Hv : validityTruthy (isCacheValid cache (Arrival.now a)) = false).
  { rewrite (validity_fresh cache t _ Ht Hne). apply Z.ltb_ge. lia. }
  assert (Hs : exists r c, answer cache a = (r, c) /\
                 servedFromCache r = false /\
                 Cache.lastUpdated c = Some t).
  { unfold answer, serve.
    destruct Hreq as [-> | ->]; unfold assetsRoute, poolsRoute;
      rewrite Hv;
      [destruct (Upstream.getAssets _) | destruct (Upstream.getPools _)];
      do 2 eexists; (split; [reflexivity|]); split; try reflexivity;
      cbn [Cache.lastUpdated]; rewrite ?Ht; try reflexivity;
      now apply stampIfUnset_set. }
  destruct Hs as (r & c & Hrc & Hr & Hc).
  fold answer. rewrite Hrc.
  specialize (IH c Hc). fold answerAll.
  destruct (answerAll c rest) as [rs c'].
  destruct IH as [IH1 IH2]. split; [now constructor | exact IH2].
Qed.

(** A refresh by the pair route makes the assets the cache holds pass
    for fresh, however long ago they were fetched. *)
Theorem pairRoute_revalidates_assets (cache : Cache.t) (now later : Z)
    (assets : list Asset.t) (pools : list Pool.t) (poolAddress : string)
    (old : list Asset.t) (now' later' : Z) (upstream : Upstream.t) :
  validityTruthy (isCacheValid cache now) = false \/
  Cache.pairs cache = None ->
  Cache.assets cache = Some old ->
  later <> 0 -> now' - later < CACHE_DURATION ->
  let refreshed :=
    snd (getPair cache now later (Upstream.mk (Some assets) (Some pools))
           poolAddress) in
  assetsRoute refreshed now' later' upstream =
  (Listed old true None, refreshed).
Proof using Type.
  intros Hstale Hold Hlater Hnow refreshed.
  subst refreshed.
  rewrite (pairRoute_stores cache now later assets pools poolAddress
             Hstale).
  unfold assetsRoute.
  set (refreshed := Cache.mk _ _ (Some later) _).
  rewrite (validity_fresh refreshed later now' eq_refl Hlater).
  subst refreshed.
  destruct (Z.ltb_spec (now' - later) CACHE_DURATION) as [_|?]; [|lia].
  cbn [Cache.assets]. now rewrite Hold.
Qed.

(** What the search route returns, the search filter of [GET /api/pairs]
    keeps as well; the filter also keeps the pairs whose pool address
    alone matches. *)
Theorem searchRoute_within_filter (cache cache' : Cache.t) (now later : Z)
    (upstream : Upstream.t) (query : string) (data : list Pair.t)
    (echoed : string) (totalResults : Z) (lastUpdated : option Z) :
  query <> EmptyString ->
  getSearch cache now later upstream query =
    (SearchResults data echoed totalResults lastUpdated, cache') ->
  echoed = query /\
  totalResults = Z.of_nat (length data) /\
  lastUpdated = Cache.lastUpdated cache' /\
  exists pairs kept,
    Cache.pairs cache' = Some pairs /\
    applyFilters pairs
      (Filters.mk query "liquidity" "desc" Number.zero "all") = Some kept /\
    data =
      List.filter
        (fun pair =>
           bool_decide
             (routeSearchMatches (JsString.toLowerCase query) pair =
              Some true))
        kept.
Proof using Type.
  intros Hq. unfold getSearch, searchRoute.
  destruct (refreshPairs _ _ _ _ _ _) as [c|]; [|discriminate].
  destruct (Cache.pairs c) as [pairs|] eqn:Ep; [|discriminate].
  destruct (filterThrow _ pairs) as [found|] eqn:E; [|discriminate].
  intros [= <- <- <- <- <-]. repeat split.
  destruct (filterThrow_within _ _ _ E) as (kept & Hk & Hf).
  exists pairs, kept. split; [exact Ep|]. split; [|exact Hf].
  unfold applyFilters. cbn [Filters.search].
  destruct query as [|c0 r0]; [contradiction|]. rewrite Hk. reflexivity.
Qed.

(** When several derived pairs bear the requested pool address, the
    pair route answers with the one that stands first in the order of
    [calculateTradingPairs]: none of the others has a higher
    liquidity. *)
Theorem pairRoute_first_of_duplicates (cache : Cache.t) (now later : Z)
    (assets : list Asset.t) (pools : list Pool.t) (poolAddress : string)
    (found : Pair.t) (lastUpdated : option Z) :
  validityTruthy (isCacheValid cache now) = false \/
  Cache.pairs cache = None ->
  Forall rankable (derive assets pools) ->
  fst (getPair cache now later (Upstream.mk (Some assets) (Some pools))
         poolAddress) = PairFound found lastUpdated ->
  forall other,
    In other (derive assets pools) ->
    Pair.poolAddress other = poolAddress ->
    canonicalOrder found other.
Proof using Type.
  intros Hstale Hrank. unfold getPair, pairRoute, refreshPairs.
  assert (Hc : negb (validityTruthy (isCacheValid cache now)) ||
               negb (bool_decide (is_Some (Cache.pairs cache))) = true).
  { destruct Hstale as [-> | ->]; [reflexivity|].
    rewrite bool_decide_eq_false_2 by (intros [? [=]]).
    apply orb_true_r. }
  rewrite Hc. cbn [Upstream.getAssets Upstream.getPools Cache.pairs
                   Cache.lastUpdated].
  fold derive.
  destruct (find _ (derive assets pools)) as [p|] eqn:E; [|discriminate].
  cbn [fst]. intros [= <- <-] other Hin Haddr.
  pose proof (derived_sorted Math_pow toStringLarge assets pools Hrank)
    as Hsorted.
  pose proof (derived_ranked Math_pow toStringLarge assets pools Hrank)
    as Hr.
  rewrite List.Forall_forall in Hr.
  pose proof (find_some _ _ E) as [Hp _].
  apply CanonicalFacts.canonical_order; [now apply Hr..|].
  destruct (CanonicalFacts.find_sorted _ _ _ _ _ Hsorted E other Hin)
    as [-> | H]; [now apply String.eqb_eq | | exact H].
  unfold Array.notAfter.
  rewrite CanonicalFacts.canonical_sgn by now apply Hr.
  now rewrite !Z.compare_refl.
Qed.

End ServerProperties.

Lemma pairRoute_refresh_witness :
  pairRoute Engine.pow Engine.toStringLarge Cache.initial 5000 5001
    scenarioUpstream "P1" =
  (PairFound (pairWith "P1" (Number.ofZ 1000)) (Some 5001),
   Cache.mk None None (Some 5001)
     (Some [pairWith "P2" (Number.ofZ 2000);
            pairWith "P1" (Number.ofZ 1000)])) /\
  exists message,
    fst (pairRoute Engine.pow Engine.toStringLarge Cache.initial 5000 5001
           scenarioUpstream "P7") = PairNotFound message.
Proof.
  pose proof (pairRoute_refresh Engine.pow Engine.toStringLarge
                Cache.initial 5000 5001 scenarioAssets
                [scenarioPool; deeperPool] "P7" (or_intror eq_refl)) as H.
  split; [vm_compute; reflexivity|].
  change (Upstream.mk (Some scenarioAssets)
            (Some [scenarioPool; deeperPool])) with scenarioUpstream in H.
  destruct (pairRoute _ _ _ _ _ _ _) as [[found t|message|] c];
    [|now exists message|destruct H as [_ []]].
  destruct H as (_ & _ & Haddr & pool & Hin & Hpool & _).
  destruct Hin as [<-|[<-|[]]]; discriminate Hpool.
Defined.

Lemma pairRoute_serves_cached_witness :
  let refreshed :=
    snd (pairRoute Engine.pow Engine.toStringLarge Cache.initial 5000 5001
           scenarioUpstream "P1") in
  pairRoute Engine.pow Engine.toStringLarge refreshed 65000 65001
    (Upstream.mk None None) "P2" =
  (PairFound (pairWith "P2" (Number.ofZ 2000)) (Some 5001), refreshed).
Proof.
  intros refreshed. subst refreshed. unfold scenarioUpstream.
  rewrite (pairRoute_serves_cached Engine.pow Engine.toStringLarge
             Cache.initial 5000 5001 scenarioAssets
             [scenarioPool; deeperPool] "P1" "P2" 65000 65001
             (Upstream.mk None None) (or_intror eq_refl));
    [vm_compute; reflexivity | discriminate | reflexivity].
Defined.

Lemma metadata_never_cached_again_witness :
  let arrivals :=
    [Arrival.mk GetAssets 61000 61001 scenarioUpstream;
     Arrival.mk GetPools 61002 61003 scenarioUpstream;
     Arrival.mk GetAssets 61004 61005 scenarioUpstream] in
  let '(replies, cache') :=
    serveAll Engine.pow Engine.toStringLarge stampedCache arrivals in
  Forall (fun r => servedFromCache r = false) replies /\
  Cache.lastUpdated cache' = Some 1000.
Proof.
  intros arrivals.
  apply (metadata_never_cached_again Engine.pow Engine.toStringLarge
           stampedCache 1000 arrivals eq_refl); [discriminate|].
  subst arrivals.
  repeat (apply List.Forall_cons;
          [split; [first [left; reflexivity | right; reflexivity]
                  | cbn; unfold CACHE_DURATION; lia]|]).
  apply List.Forall_nil.
Defined.

Lemma pairRoute_revalidates_assets_witness :
  let refreshed :=
    snd (pairRoute Engine.pow Engine.toStringLarge stampedCache
           900000 900001 scenarioUpstream "P1") in
  assetsRoute refreshed 900002 900003 scenarioUpstream =
  (Listed [namelessTon] true None, refreshed).
Proof.
  apply (pairRoute_revalidates_assets Engine.pow Engine.toStringLarge
           stampedCache 900000 900001 scenarioAssets
           [scenarioPool; deeperPool] "P1" [namelessTon] 900002 900003
           scenarioUpstream);
    [left; reflexivity | reflexivity | discriminate | reflexivity].
Defined.

Lemma searchRoute_within_filter_witness :
  exists cache',
    searchRoute Engine.pow Engine.toStringLarge Cache.initial 5000 5001
      scenarioUpstream "p2" =
      (SearchResults [] "p2" 0 (Some 5001), cache') /\
    exists pairs kept,
      Cache.pairs cache' = Some pairs /\
      applyFilters pairs
        (Filters.mk "p2" "liquidity" "desc" Number.zero "all") =
        Some kept /\
      map Pair.id kept = ["P2"%string].
Proof.
  eexists. split; [vm_compute; reflexivity|].
  destruct (searchRoute_within_filter Engine.pow Engine.toStringLarge
              Cache.initial _ 5000 5001 scenarioUpstream "p2" [] "p2" 0
              (Some 5001) ltac:(discriminate)
              ltac:(vm_compute; reflexivity))
    as (_ & _ & _ & pairs & kept & Hp & Hk & _).
  exists pairs, kept. split; [exact Hp|]. split; [exact Hk|].
  injection Hp as <-. vm_compute in Hk. injection Hk as <-. reflexivity.
Defined.

Lemma pairRoute_first_of_duplicates_witness :
  let pools := [scenarioPool;
                Pool.mk (Some "P1") (Some "T0") (Some "T1") (Some "100")
                  (Some "500") (Some "3000") None None None None] in
  fst (pairRoute Engine.pow Engine.toStringLarge Cache.initial 5000 5001
         (Upstream.mk (Some scenarioAssets) (Some pools)) "P1") =
    PairFound (pairWith "P1" (Number.ofZ 3000)) (Some 5001) /\
  canonicalOrder (pairWith "P1" (Number.ofZ 3000))
    (pairWith "P1" (Number.ofZ 1000)).
Proof.
  intros pools. split; [vm_compute; reflexivity|].
  apply (pairRoute_first_of_duplicates Engine.pow Engine.toStringLarge
           Cache.initial 5000 5001 scenarioAssets pools "P1" _ (Some 5001)
           (or_intror eq_refl)).
  - vm_compute. repeat constructor; discriminate.
  - vm_compute. reflexivity.
  - vm_compute. right. left. reflexivity.
  - reflexivity.
Defined.


(** ** Which asset a token address resolves to *)

Lemma buildAssetMap_get_witness :
  AssetMap.get (buildAssetMap [scenarioTon; namelessTon]) "T0" =
  Some namelessTon.
Proof.
  rewrite buildAssetMap_get; try reflexivity; discriminate.
Defined.

(** ** The formatted price *)

Module FormatFacts.
Import JsString Number FloatOrder.

Lemma append_cons (c : ascii) (a b : string) :
  (String c a +:+ b)%string = String c (a +:+ b).
Proof. reflexivity. Qed.

Lemma digitString_app (a b : string) :
  digitString a -> digitString b -> digitString (a +:+ b).
Proof.
  induction a as [|c a IH]; simpl; [tauto|]. intros [Hc Ha] Hb.
  split; [exact Hc | now apply IH].
Qed.

Lemma digitString_zeros (k : nat) : digitString (zeros k).
Proof. induction k; cbn; [exact I|]. split; [tauto|assumption]. Qed.

Lemma length_zeros (k : nat) : String.length (zeros k) = k.
Proof. induction k as [|k IH]; cbn; [reflexivity | now rewrite IH]. Qed.

Lemma length_app (a b : string) :
  String.length (a +:+ b) = (String.length a + String.length b)%nat.
Proof. induction a as [|c a IH]; simpl; [reflexivity | now rewrite IH]. Qed.

Lemma take_drop (k : nat) (s : string) : (take k s +:+ drop k s)%string = s.
Proof.
  revert s; induction k as [|k IH]; intros [|c s]; simpl; try reflexivity.
  rewrite append_cons. f_equal. apply IH.
Qed.

Lemma digitString_take (k : nat) (s : string) :
  digitString s -> digitString (take k s).
Proof.
  revert s; induction k as [|k IH]; intros [|c s]; cbn; try tauto.
  intros [Hc Hs]. split; [exact Hc | now apply IH].
Qed.

Lemma digitString_drop (k : nat) (s : string) :
  digitString s -> digitString (drop k s).
Proof.
  revert s; induction k as [|k IH]; intros [|c s]; cbn; try tauto.
  intros [Hc Hs]. now apply IH.
Qed.

Lemma length_drop (k : nat) (s : string) :
  String.length (drop k s) = (String.length s - k)%nat.
Proof.
  revert s; induction k as [|k IH]; intros [|c s]; cbn; try reflexivity.
  apply IH.
Qed.

Lemma take_nonempty (k : nat) (s : string) :
  k <> O -> s <> EmptyString -> take k s <> EmptyString.
Proof. destruct k, s; cbn; congruence. Qed.

(** Leading zeros do not change the integer a numeral denotes. *)
Lemma digitsFrom_zeros (k : nat) (s : string) (c : nat) :
  exists c',
    digitsFrom digitVal 10 (zeros k +:+ s) 0 c =
    digitsFrom digitVal 10 s 0 c'.
Proof.
  revert c; induction k as [|k IH]; intros c; simpl; [now exists c|].
  apply IH.
Qed.

Lemma numeralValue_padStart (w : nat) (n : Z) :
  0 <= n -> numeralValue (padStart w (ofNat n)) = n.
Proof.
  intros Hn. unfold numeralValue, padStart.
  destruct (digitsFrom_zeros (w - String.length (ofNat n)) (ofNat n) O)
    as [c Hc].
  rewrite Hc.
  destruct (DigitFacts.digitsFrom_decimalDigits _ n EmptyString c
              (conj Hn (DigitFacts.ofNat_fuel n Hn))) as [k Hk].
  unfold ofNat. now rewrite Hk.
Qed.

Lemma append_empty (s : string) : (s +:+ "")%string = s.
Proof.
  induction s as [|c s IH]; [reflexivity|]. now rewrite append_cons, IH.
Qed.

(** The text [pointed] writes is the numeral of [n / 10^f]. *)
Lemma pointed_fixedPoint (n : Z) (f : nat) :
  0 <= n -> fixedPoint f n (pointed n f).
Proof.
  intros Hn. unfold pointed. destruct f as [|f].
  - exists (ofNat n), EmptyString.
    change ("" +:+ "")%string with EmptyString. rewrite !append_empty.
    repeat split; auto using DigitFacts.ofNat_digitString.
    + apply DigitFacts.decimalDigits_nonempty.
    + change (ofNat n) with (padStart 0 (ofNat n)).
      now apply numeralValue_padStart.
  - set (d := padStart (S (S f)) (ofNat n)).
    assert (Hd : digitString d)
      by (apply digitString_app;
          [apply digitString_zeros | now apply DigitFacts.ofNat_digitString]).
    assert (Hlen : (S (S f) <= String.length d)%nat).
    { subst d. unfold padStart. rewrite length_app, length_zeros. lia. }
    set (k := (String.length d - S f)%nat).
    exists (take k d), (drop k d). repeat split.
    + apply take_nonempty; [subst k; lia|].
      intros E. rewrite E in Hlen. cbn in Hlen. lia.
    + now apply digitString_take.
    + now apply digitString_drop.
    + rewrite length_drop. subst k. lia.
    + rewrite take_drop. subst d. now apply numeralValue_padStart.
Qed.



Lemma ltb_units_false (u v : float) :
  sortable u -> sortable v -> ltb u v = false <-> units v <= units u.
Proof.
  intros Hu Hv. unfold ltb, SFltb. rewrite (compare_units u v Hu Hv).
  destruct (Z.compare_spec (units u) (units v)); split; intros;
    try reflexivity; try discriminate; lia.
Qed.

Lemma leb_sortable (c x : float) :
  wellFormed x -> leb c x = true -> sortable x.
Proof.
  intros Hx H. split; [exact Hx|]. intros ->.
  destruct c; discriminate H.
Qed.

(** The fraction [toFixed] works on is the value of the Number. *)
Lemma units_fraction (m : positive) (e : Z) :
  wellFormed (S754_finite false m e) ->
  0 < fst (fraction m e) /\ 0 < snd (fraction m e) /\
  units (S754_finite false m e) * snd (fraction m e) =
  fst (fraction m e) * 2 ^ 1074.
Proof.
  intros H. destruct (wellFormed_finite _ _ _ H) as ((He & _) & _).
  unfold emin, SpecFloat.emin, prec, emax in He.
  unfold fraction, units. cbn [cond_Zopp].
  change (e - emin) with (e - (-1074)).
  destruct (Z.leb_spec 0 e) as [H0|H0]; cbn [fst snd].
  - pose proof (pow2_pos e H0). split; [lia|]. split; [lia|].
    replace (e - -1074) with (e + 1074) by lia.
    rewrite Z.pow_add_r by lia. lia.
  - pose proof (pow2_pos (- e) ltac:(lia)). split; [lia|]. split; [lia|].
    rewrite <- Z.mul_assoc, <- Z.pow_add_r by lia.
    do 2 f_equal. lia.
Qed.

Lemma roundHalfUp_spec (num den : Z) :
  0 <= num -> 0 < den ->
  0 <= roundHalfUp num den /\
  2 * den * roundHalfUp num den <= 2 * num + den <
  2 * den * (roundHalfUp num den + 1).
Proof.
  intros Hn Hd. unfold roundHalfUp.
  pose proof (Z.div_mod (2 * num + den) (2 * den) ltac:(lia)).
  pose proof (Z.mod_pos_bound (2 * num + den) (2 * den) ltac:(lia)).
  split; [apply Z.div_pos; lia | lia].
Qed.

Lemma nearest_scaled (U P den num T N : Z) :
  0 < den -> 0 < P -> U * den = num * P ->
  2 * den * N <= 2 * (num * T) + den < 2 * den * (N + 1) ->
  - P <= 2 * (U * T - N * P) < P.
Proof.
  intros Hden Hp Hu [Hlo Hhi].
  assert (E : den * (2 * (U * T)) = 2 * (num * T) * P).
  { replace (den * (2 * (U * T))) with (2 * T * (U * den)) by ring.
    rewrite Hu. ring. }
  assert (H1 : den * (2 * N * P) <= den * (2 * (U * T) + P)).
  { rewrite Z.mul_add_distr_l, E.
    replace (den * (2 * N * P)) with (2 * den * N * P) by ring.
    replace (2 * (num * T) * P + den * P)
      with ((2 * (num * T) + den) * P) by ring.
    apply Z.mul_le_mono_nonneg_r; lia. }
  assert (H2 : den * (2 * (U * T) + P) < den * (2 * (N + 1) * P)).
  { rewrite Z.mul_add_distr_l, E.
    replace (den * (2 * (N + 1) * P)) with (2 * den * (N + 1) * P) by ring.
    replace (2 * (num * T) * P + den * P)
      with ((2 * (num * T) + den) * P) by ring.
    apply Z.mul_lt_mono_pos_r; lia. }
  apply Z.mul_le_mono_pos_l in H1; [|exact Hden].
  apply Z.mul_lt_mono_pos_l in H2; [|exact Hden].
  replace (2 * (U * T - N * P)) with (2 * (U * T) - 2 * N * P) by ring.
  replace (2 * (N + 1) * P) with (2 * N * P + 2 * P) in H2 by ring.
  lia.
Qed.

Lemma fraction_below (U P den num K : Z) :
  0 < den -> 0 < P -> U * den = num * P -> U < K * P -> num < K * den.
Proof.
  intros Hden Hp Hu Hlt.
  assert (H : P * num < P * (K * den)).
  { replace (P * num) with (num * P) by ring. rewrite <- Hu.
    replace (P * (K * den)) with (K * P * den) by ring.
    apply Z.mul_lt_mono_pos_r; assumption. }
  now apply Z.mul_lt_mono_pos_l in H.
Qed.

(** [toFixed] of a positive Number below 10^21 writes the numeral of
    the nearest multiple of [10^-f]. *)
Lemma toFixed_nearest (toStringLarge : float -> string) (f : nat)
    (x : float) :
  wellFormed x -> 0 < units x < 10 ^ 21 * 2 ^ 1074 ->
  exists n,
    nearestScaled f x n /\ fixedPoint f n (toFixed toStringLarge f x).
Proof.
  intros Hx [Hpos Hlt].
  destruct x as [s|s| |s m e]; cbn [units] in Hpos, Hlt; try lia.
  { destruct s; cbn [cond_Zopp] in *; lia. }
  destruct s.
  { pose proof (units_finite_bound _ _ _ Hx). cbn [cond_Zopp] in *. lia. }
  assert (Hx' : wellFormed (S754_finite false m e)) by exact Hx.
  destruct (units_fraction m e Hx') as (Hnum & Hden & Hu).
  assert (Hp : 0 < 2 ^ 1074) by (apply pow2_pos; lia).
  unfold toFixed, nearestScaled.
  destruct (fraction m e) as [num den]. cbn [fst snd] in *.
  pose proof (fraction_below _ _ _ _ _ Hden Hp Hu Hlt) as Hsmall.
  destruct (Z.leb_spec (10 ^ 21 * den) num) as [Hbig|_];
    [exfalso; apply (Z.lt_irrefl num); eapply Z.lt_le_trans; eassumption|].
  set (T := 10 ^ Z.of_nat f).
  assert (HT : 0 < T) by (apply Z.pow_pos_nonneg; lia).
  destruct (roundHalfUp_spec (num * T) den
              ltac:(apply Z.mul_nonneg_nonneg; lia) Hden)
    as (Hn0 & Hrange).
  exists (roundHalfUp (num * T) den). split.
  - exact (nearest_scaled _ _ _ _ _ _ Hden Hp Hu Hrange).
  - change (signText false +:+ pointed ?n f)%string with (pointed n f).
    now apply pointed_fixedPoint.
Qed.

End FormatFacts.

Section Format.
Import Number FloatOrder FormatFacts.
Variable toStringLarge : float -> string.

Let format := formatPrice toStringLarge.

(** A price from 0.000001 up and below 10^21 is shown as a plain decimal
    numeral: with 6 decimals below 0.01, with 4 below 1, with 2 below
    100 and with none from 100 up; the digits are those of the integer
    nearest to the price times 10 to the number of decimals, the larger
    one on a tie. *)
Theorem formatPrice_fixed (price : float) :
  wellFormed price ->
  (leb (ofZ 1) price = true -> ltb price (ofZ 100) = true ->
   exists n, nearestScaled 2 price n /\ fixedPoint 2 n (format price)) /\
  (leb (ofDecimal false 1 (-2)) price = true -> ltb price (ofZ 1) = true ->
   exists n, nearestScaled 4 price n /\ fixedPoint 4 n (format price)) /\
  (leb (ofDecimal false 1 (-6)) price = true ->
   ltb price (ofDecimal false 1 (-2)) = true ->
   exists n, nearestScaled 6 price n /\ fixedPoint 6 n (format price)) /\
  (leb (ofZ 100) price = true -> ltb price (ofZ (10 ^ 21)) = true ->
   exists n, nearestScaled 0 price n /\ fixedPoint 0 n (format price)).
Proof using Type.
  intros Hx.
  set (c6 := ofDecimal false 1 (-6)). set (c2 := ofDecimal false 1 (-2)).
  set (c1 := ofZ 1). set (c100 := ofZ 100). set (c21 := ofZ (10 ^ 21)).
  assert (S0 : sortable zero)
    by (split; [vm_compute; reflexivity | vm_compute; discriminate]).
  assert (S6 : sortable c6)
    by (split; [vm_compute; reflexivity | vm_compute; discriminate]).
  assert (S2 : sortable c2)
    by (split; [vm_compute; reflexivity | vm_compute; discriminate]).
  assert (S1 : sortable c1)
    by (split; [vm_compute; reflexivity | vm_compute; discriminate]).
  assert (S100 : sortable c100)
    by (split; [vm_compute; reflexivity | vm_compute; discriminate]).
  assert (S21 : sortable c21)
    by (split; [vm_compute; reflexivity | vm_compute; discriminate]).
  assert (U0 : units zero = 0) by reflexivity.
  assert (U6 : 0 < units c6) by (vm_compute; reflexivity).
  assert (U2 : units c6 < units c2) by (vm_compute; reflexivity).
  assert (U1 : units c2 < units c1) by (vm_compute; reflexivity).
  assert (U100 : units c1 < units c100) by (vm_compute; reflexivity).
  assert (U21 : units c100 < units c21) by (vm_compute; reflexivity).
  assert (E21 : units c21 = 10 ^ 21 * 2 ^ 1074) by (vm_compute; reflexivity).
  assert (Hcase : forall lo hi,
            sortable lo -> sortable hi ->
            leb lo price = true -> ltb price hi = true ->
            sortable price /\ units lo <= units price < units hi).
  { intros lo hi Slo Shi Hlo Hhi.
    pose proof (leb_sortable lo price Hx Hlo) as Sp.
    split; [exact Sp|]. split.
    - now apply leb_units.
    - now apply CanonicalFacts.ltb_units. }
  assert (Hfmt : forall f,
            sortable price ->
            units c6 <= units price < units c21 ->
            format price = toFixed toStringLarge f price ->
            exists n, nearestScaled f price n /\
                      fixedPoint f n (format price)).
  { intros f Sp Hu ->. apply toFixed_nearest; [exact Hx|lia]. }
  assert (Hzero : sortable price -> 0 < units price ->
            eqb price zero = false).
  { intros Sp Hu. destruct (eqb price zero) eqn:E; [|reflexivity].
    apply eqb_units in E; [lia|assumption..]. }
  repeat split; intros Hlo Hhi.
  - destruct (Hcase c1 c100 S1 S100 Hlo Hhi) as (Sp & Hu).
    apply Hfmt; [exact Sp | lia |]. unfold format, formatPrice.
    fold c6 c2 c1 c100.
    rewrite Hzero by (auto; lia).
    rewrite (proj2 (ltb_units_false price c6 Sp S6)) by lia.
    rewrite (proj2 (ltb_units_false price c2 Sp S2)) by lia.
    rewrite (proj2 (ltb_units_false price c1 Sp S1)) by lia.
    now rewrite Hhi.
  - destruct (Hcase c2 c1 S2 S1 Hlo Hhi) as (Sp & Hu).
    apply Hfmt; [exact Sp | lia |]. unfold format, formatPrice.
    fold c6 c2 c1 c100.
    rewrite Hzero by (auto; lia).
    rewrite (proj2 (ltb_units_false price c6 Sp S6)) by lia.
    rewrite (proj2 (ltb_units_false price c2 Sp S2)) by lia.
    now rewrite Hhi.
  - destruct (Hcase c6 c2 S6 S2 Hlo Hhi) as (Sp & Hu).
    apply Hfmt; [exact Sp | lia |]. unfold format, formatPrice.
    fold c6 c2 c1 c100.
    rewrite Hzero by (auto; lia).
    rewrite (proj2 (ltb_units_false price c6 Sp S6)) by lia.
    now rewrite Hhi.
  - destruct (Hcase c100 c21 S100 S21 Hlo Hhi) as (Sp & Hu).
    apply Hfmt; [exact Sp | lia |]. unfold format, formatPrice.
    fold c6 c2 c1 c100.
    rewrite Hzero by (auto; lia).
    rewrite (proj2 (ltb_units_false price c6 Sp S6)) by lia.
    rewrite (proj2 (ltb_units_false price c2 Sp S2)) by lia.
    rewrite (proj2 (ltb_units_false price c1 Sp S1)) by lia.
    now rewrite (proj2 (ltb_units_false price c100 Sp S100)) by lia.
Qed.

(** What [formatPrice] shows for a price that is not positive: a zero
    of either sign is "0.00"; NaN and Infinity are shown by these very
    words; and a negative price, which the first comparison sends to
    the branch of the tiny prices, is shown in exponent notation. *)
Theorem formatPrice_not_positive :
  (forall s, format (S754_zero s) = "0.00"%string) /\
  format NaN = "NaN"%string /\
  format (infinity false) = "Infinity"%string /\
  (forall price,
     wellFormed price -> ltb price zero = true ->
     format price = toExponential 2 price).
Proof using Type.
  split; [intros [|]; reflexivity|].
  split; [reflexivity|]. split; [reflexivity|].
  intros price Hx Hneg.
  assert (Sp : sortable price).
  { split; [exact Hx|]. intros ->. discriminate Hneg. }
  assert (S0 : sortable zero) by (split; [reflexivity|discriminate]).
  assert (S6 : sortable (ofDecimal false 1 (-6)))
    by (split; [vm_compute; reflexivity | vm_compute; discriminate]).
  assert (U6 : 0 < units (ofDecimal false 1 (-6)))
    by (vm_compute; reflexivity).
  apply CanonicalFacts.ltb_units in Hneg; [|assumption..].
  change (units zero) with 0 in Hneg.
  unfold format, formatPrice.
  destruct (eqb price zero) eqn:E.
  { apply eqb_units in E; [|assumption..].
    change (units zero) with 0 in E. lia. }
  rewrite (proj2 (CanonicalFacts.ltb_units price _ Sp S6)) by lia.
  reflexivity.
Qed.

End Format.

Lemma formatPrice_fixed_witness :
  formatPrice Engine.toStringLarge (Number.ofZ 5) = "5.00"%string /\
  exists n,
    nearestScaled 2 (Number.ofZ 5) n /\
    fixedPoint 2 n (formatPrice Engine.toStringLarge (Number.ofZ 5)).
Proof.
  split; [vm_compute; reflexivity|].
  refine (proj1 (formatPrice_fixed Engine.toStringLarge (Number.ofZ 5) _)
            _ _); vm_compute; reflexivity.
Defined.

Lemma formatPrice_not_positive_witness :
  formatPrice Engine.toStringLarge (Number.ofZ (-5)) = "-5.00e+0"%string.
Proof.
  destruct (formatPrice_not_positive Engine.toStringLarge)
    as (_ & _ & _ & H).
  rewrite H; vm_compute; reflexivity.
Defined.

(** ** Products by one *)

Module FloatExact.
Import Number FloatOrder FloatValid.

Lemma shr_1_exact (m : positive) : shr_1 (exactRecord (Zpos m~0)) = exactRecord (Zpos m).
Proof. reflexivity. Qed.

(** Shifting out zeros loses nothing. *)
Lemma iter_shr_exact (p : positive) (m : positive) :
  SpecFloat.iter_pos shr_1 p (exactRecord (Zpos m * 2 ^ Zpos p)) = exactRecord (Zpos m).
Proof.
  revert m; induction p as [p IH|p IH|]; intros m;
    cbn [SpecFloat.iter_pos].
  - replace (Zpos m * 2 ^ Zpos p~1)
      with (Zpos ((m * 2 ^ p * 2 ^ p)~0))
      by (rewrite Pos2Z.inj_xO, !Pos2Z.inj_mul, !Pos2Z.inj_pow;
          replace (Zpos p~1) with (1 + Zpos p + Zpos p) by lia;
          rewrite !Z.pow_add_r by lia; change (2 ^ 1) with 2; ring).
    rewrite shr_1_exact.
    replace (Zpos (m * 2 ^ p * 2 ^ p))
      with (Zpos (m * 2 ^ p) * 2 ^ Zpos p)
      by (rewrite !Pos2Z.inj_mul, !Pos2Z.inj_pow; ring).
    rewrite IH.
    replace (Zpos (m * 2 ^ p)) with (Zpos m * 2 ^ Zpos p)
      by (rewrite !Pos2Z.inj_mul, !Pos2Z.inj_pow; ring).
    apply IH.
  - replace (Zpos m * 2 ^ Zpos p~0)
      with (Zpos (m * 2 ^ p) * 2 ^ Zpos p)
      by (rewrite !Pos2Z.inj_mul, !Pos2Z.inj_pow;
          replace (Zpos p~0) with (Zpos p + Zpos p) by lia;
          rewrite !Z.pow_add_r by lia; ring).
    rewrite IH.
    replace (Zpos (m * 2 ^ p)) with (Zpos m * 2 ^ Zpos p)
      by (rewrite !Pos2Z.inj_mul, !Pos2Z.inj_pow; ring).
    apply IH.
  - change (Zpos m * 2 ^ 1) with (Zpos m * 2).
    replace (Zpos m * 2) with (Zpos m~0) by lia. apply shr_1_exact.
Qed.

(** Rounding a binary64 value that is written with [k] more zeros gives
    the value back. *)
Lemma binary_round_aux_exact (s : bool) (m : positive) (e k : Z) :
  wellFormed (S754_finite s m e) -> 0 <= k ->
  binary_round_aux prec emax s (Zpos m * 2 ^ k) (e - k) loc_Exact =
  S754_finite s m e.
Proof.
  intros Hx Hk.
  assert (Hcanon : SpecFloat.fexp prec emax (Zpos (digits2_pos m) + e) = e /\
                   e <= emax - prec).
  { unfold wellFormed, valid_binary, bounded, canonical_mantissa in Hx.
    apply andb_true_iff in Hx. destruct Hx as [H1 H2].
    apply Z.eqb_eq in H1. apply Z.leb_le in H2. now split. }
  destruct Hcanon as [Hc Hb].
  assert (Hshift : shr_fexp prec emax (Zpos m * 2 ^ k) (e - k) loc_Exact =
                   (exactRecord (Zpos m), e)).
  { unfold shr_fexp. rewrite Zdigits2_mul by lia. cbn [Zdigits2].
    replace (Zpos (digits2_pos m) + k + (e - k))
      with (Zpos (digits2_pos m) + e) by lia.
    rewrite Hc. replace (e - (e - k)) with k by lia.
    change (shr_record_of_loc (Zpos m * 2 ^ k) loc_Exact)
      with (exactRecord (Zpos m * 2 ^ k)).
    unfold shr. destruct k as [|p|p]; try lia.
    - rewrite Z.mul_1_r. f_equal. lia.
    - rewrite iter_shr_exact. f_equal. lia. }
  unfold binary_round_aux. rewrite Hshift.
  cbn [exactRecord shr_m loc_of_shr_record round_nearest_even].
  assert (Hkeep : shr_fexp prec emax (Zpos m) e loc_Exact =
                  (exactRecord (Zpos m), e)).
  { unfold shr_fexp. cbn [Zdigits2]. rewrite Hc, Z.sub_diag. reflexivity. }
  rewrite Hkeep. cbn [exactRecord shr_m].
  destruct (Z.leb_spec e (emax - prec)); [reflexivity|lia].
Qed.

Lemma mul_one (x : float) : wellFormed x -> mul x one = x.
Proof.
  intros Hx.
  destruct x as [s|s| |s m e]; try reflexivity;
    try (destruct s; reflexivity).
  change one with (S754_finite false 4503599627370496 (-52)).
  unfold mul, SFmul.
  replace (xorb s false) with s by (now destruct s).
  rewrite Pos2Z.inj_mul. change (Zpos 4503599627370496) with (2 ^ 52).
  change (e + -52) with (e - 52).
  now apply binary_round_aux_exact.
Qed.

(** Rounding cannot overflow on a value below [2^emax]. *)
Lemma binary_round_aux_finite (s : bool) (m e : Z) (l : location) :
  0 < m -> emin <= e -> e <= fexp (Zdigits2 m + e) ->
  Zdigits2 m + e < emax ->
  exists m' e', binary_round_aux prec emax s m e l = S754_finite s m' e'.
Proof.
  intros Hm Hmin He Hmax.
  destruct (binary_round_aux_positive s m e l Hm Hmin) as [H|H];
    [exact H|exfalso].
  revert H. unfold binary_round_aux.
  pose proof (shr_fexp_spec m e l ltac:(lia) He) as (E1 & N1 & C1).
  destruct (shr_fexp prec emax m e l) as [mrs' e']. cbn [fst snd] in *.
  pose proof (round_nearest_even_ge (shr_m mrs') (loc_of_shr_record mrs')).
  pose proof (round_nearest_even_le (shr_m mrs') (loc_of_shr_record mrs')).
  set (m1 := round_nearest_even _ _) in *.
  assert (Hd1 : Zdigits2 m1 + e' <= Zdigits2 m + e + 1).
  { destruct C1 as [(Hz & _) | (Hpos & Hd)].
    - assert (Hm1 : Zdigits2 m1 <= 1).
      { destruct (Z.eq_dec m1 0) as [->|?]; [cbn; lia|].
        assert (m1 = 1) as -> by lia. cbn. lia. }
      pose proof (Zdigits2_nonneg m).
      assert (1 <= Zdigits2 m) by (destruct m; cbn in *; lia).
      unfold SpecFloat.fexp, emin, SpecFloat.emin, prec, emax in *. lia.
    - assert (Zdigits2 m1 <= Zdigits2 (shr_m mrs') + 1).
      { pose proof (Zdigits2_mono m1 (2 * shr_m mrs') ltac:(lia)) as Hmono.
        replace (2 * shr_m mrs') with (shr_m mrs' * 2 ^ 1) in Hmono
          by (change (2 ^ 1) with 2; lia).
        rewrite Zdigits2_mul in Hmono by lia. exact Hmono. }
      lia. }
  assert (He' : e' <= fexp (Zdigits2 m1 + e')).
  { destruct C1 as [(_ & Hz) | (Hpos & Hd)].
    - assert (Hmin' : e' = emin).
      { destruct Hz as [-> | Hz]; [lia|exact Hz]. }
      pose proof (fexp_emin (Zdigits2 m1 + e')). lia.
    - assert (Hsame : fexp (Zdigits2 (shr_m mrs') + e') = e')
        by (rewrite Hd; symmetry; exact E1).
      rewrite <- Hsame at 1. apply fexp_mono.
      pose proof (Zdigits2_mono (shr_m mrs') m1 ltac:(lia)). lia. }
  pose proof (shr_fexp_spec m1 e' loc_Exact ltac:(lia) He') as (E2 & N2 & C2).
  destruct (shr_fexp prec emax m1 e' loc_Exact) as [mrs'' e''].
  cbn [fst snd] in *.
  destruct (shr_m mrs''); try discriminate.
  destruct (Z.leb_spec e'' (emax - prec)) as [_|Hover]; [discriminate|].
  unfold SpecFloat.fexp, emin, SpecFloat.emin, prec, emax in *. lia.
Qed.

Lemma ofZ_finite (z : Z) :
  z <> 0 -> Z.abs z < 2 ^ 1023 ->
  exists s m e, ofZ z = S754_finite s m e.
Proof.
  intros Hz Hlt.
  assert (Hgen : forall (s : bool) (p : positive),
            Zpos p < 2 ^ 1023 ->
            exists m e, binary_round prec emax s p 0 = S754_finite s m e).
  { clear Hz Hlt. intros s p Hp.
    pose proof (digits2_pos_bounds p) as [Hlo _].
    assert (Hdig : Zpos (digits2_pos p) <= 1023).
    { destruct (Z.le_gt_cases (Zpos (digits2_pos p)) 1023) as [H|H];
        [exact H|].
      assert (2 ^ 1023 <= 2 ^ (Zpos (digits2_pos p) - 1))
        by (apply Z.pow_le_mono_r; lia).
      lia. }
    clear Hp Hlo.
    unfold binary_round. fold fexp.
    set (f := fexp (Zpos (digits2_pos p) + 0)).
    pose proof (shl_align_exponent p 0 f) as He.
    pose proof (shl_align_value p 0 (Z.min 0 f) ltac:(lia)) as Hv.
    assert (Hsame : shl_align p 0 (Z.min 0 f) = shl_align p 0 f).
    { unfold shl_align. destruct (Z.min_spec 0 f) as [[? ->]|[? ->]];
        [|reflexivity].
      replace (0 - 0) with 0 by lia. destruct (f - 0) eqn:E; try lia.
      reflexivity. }
    rewrite Hsame in Hv.
    destruct (shl_align p 0 f) as [mz ez]. cbn [fst snd] in *.
    assert (Hd : Zdigits2 (Zpos mz) + ez = Zpos (digits2_pos p) + 0).
    { rewrite Hv, Zdigits2_mul by lia. cbn [Zdigits2]. rewrite He. lia. }
    apply binary_round_aux_finite; try lia.
    - pose proof (fexp_emin (Zpos (digits2_pos p) + 0)) as Hf.
      fold f in Hf. rewrite He.
      unfold emin, SpecFloat.emin, prec, emax in *. lia.
    - rewrite Hd. fold f. lia.
    - rewrite Hd. unfold emax. lia. }
  unfold ofZ, binary_normalize. destruct z as [|p|p]; [contradiction| |].
  - destruct (Hgen false p Hlt) as (m & e & H). eauto.
  - destruct (Hgen true p Hlt) as (m & e & H). eauto.
Qed.

Lemma sub_self (s : bool) (m : positive) (e : Z) :
  sub (S754_finite s m e) (S754_finite s m e) = zero.
Proof.
  unfold sub, SFsub. cbv zeta. rewrite Z.sub_diag. reflexivity.
Qed.

Lemma sub_ofZ_self (z : Z) :
  z <> 0 -> Z.abs z < 2 ^ 1023 -> sub (ofZ z) (ofZ z) = zero.
Proof.
  intros Hz Hlt. destruct (ofZ_finite z Hz Hlt) as (s & m & e & ->).
  apply sub_self.
Qed.

End FloatExact.

Lemma effectiveDecimals_nonzero (token : Asset.t) :
  effectiveDecimals token <> 0.
Proof.
  unfold effectiveDecimals.
  destruct (Asset.decimals token) as [[|p|p]|]; lia.
Qed.

Section EqualDecimals.
Import Number.
Variable Math_pow : Number.float -> Number.float -> Number.float.

(** For two tokens of the same decimals the adjustment is a product by
    1: the price of the reserve branch is the quotient of the reserves,
    rounded once, given that [Math.pow(10, 0)] is 1 as ECMAScript
    prescribes. *)
Theorem pairPrice_equal_decimals (token0 token1 : Asset.t)
    (token0Reserve token1Reserve token0UsdPrice token1UsdPrice : float) :
  (forall x, Math_pow x zero = one) ->
  effectiveDecimals token0 = effectiveDecimals token1 ->
  Z.abs (effectiveDecimals token0) < 10 ^ 21 ->
  ltb zero token0UsdPrice && ltb zero token1UsdPrice = false ->
  ltb zero token0Reserve = true ->
  pairPrice Math_pow token0 token1 token0Reserve token1Reserve
    token0UsdPrice token1UsdPrice =
  div token1Reserve token0Reserve.
Proof using Type.
  intros Hpow Heq Hsize Husd Hres. unfold pairPrice. rewrite Husd, Hres.
  rewrite !DigitFacts.parseInt_decimalsText. cbn [ofInt].
  rewrite <- Heq, FloatExact.sub_ofZ_self, Hpow.
  - apply FloatExact.mul_one, FloatValid.div_valid.
  - apply effectiveDecimals_nonzero.
  - eapply Z.lt_trans; [exact Hsize|]. reflexivity.
Qed.

End EqualDecimals.

Lemma pairPrice_equal_decimals_witness :
  pairPrice Engine.pow scenarioTon scenarioSton
    (Number.ofZ 300) (Number.ofZ 100) Number.zero Number.zero =
  Number.div (Number.ofZ 100) (Number.ofZ 300).
Proof.
  apply pairPrice_equal_decimals;
    [exact EngineFacts.pow_zero | reflexivity..].
Defined.

(** ** The order of the result *)

Module KeyFacts.
Import Number FloatOrder Array.

(** How the comparator of [filterAndSortPairs] orders two pairs on a
    numeric key. *)
Lemma sortCompare_sgn (localeCompare : string -> string -> float)
    (f : Filters.t) (key : Pair.t -> float) (x y : Pair.t) :
  (forall p, sortKey (Filters.sortBy f) p = Some (key p)) ->
  sortable (key x) -> sortable (key y) ->
  sgn (sortCompare localeCompare f) x y =
  if String.eqb (Filters.sortOrder f) "asc"
  then units (key x) ?= units (key y)
  else units (key y) ?= units (key x).
Proof.
  intros Hkey Hx Hy. unfold sgn, sortCompare.
  destruct (comparisonBy_cases localeCompare (Filters.sortBy f))
    as [(key' & Hk & Hc) | (Hk & _)];
    [|specialize (Hk x); rewrite Hkey in Hk; discriminate].
  assert (E : forall p, key' p = key p).
  { intros p. specialize (Hk p). rewrite Hkey in Hk. congruence. }
  rewrite Hc, !E.
  destruct (String.eqb (Filters.sortOrder f) "asc").
  - rewrite sign_neg, sub_sign by assumption.
    now rewrite <- Z.compare_antisym.
  - now apply sub_sign.
Qed.

End KeyFacts.

Section KeyOrder.
Import Number FloatOrder Array KeyFacts.
Variable localeCompare : string -> string -> float.

Let query := filterAndSortPairs localeCompare.

(** Sorting on a numeric key — liquidity, volume, APY or price, none
    of them NaN — gives a result in which the key never increases, and
    with the sort order [asc] one in which it never decreases. *)
Theorem filterAndSortPairs_sorted_on_key
    (pairs result : list Pair.t) (f : Filters.t) (key : Pair.t -> float) :
  (forall p, sortKey (Filters.sortBy f) p = Some (key p)) ->
  Forall (keySortable (Filters.sortBy f)) pairs ->
  query pairs f = Some result ->
  (Filters.sortOrder f = "asc"%string ->
   StronglySorted (fun a b => leb (key a) (key b) = true) result) /\
  (Filters.sortOrder f <> "asc"%string ->
   StronglySorted (fun a b => leb (key b) (key a) = true) result).
Proof using Type.
  intros Hkey Hall. unfold query, filterAndSortPairs.
  destruct (applyFilters pairs f) as [filtered|] eqn:E; [|discriminate].
  cbn [mbind option_bind]. intros [= <-].
  assert (Hs : forall p, In p pairs -> sortable (key p)).
  { rewrite List.Forall_forall in Hall. intros p Hp.
    specialize (Hall p Hp). unfold keySortable in Hall.
    now rewrite Hkey in Hall. }
  assert (Hf : Forall (fun p => sortable (key p)) filtered).
  { rewrite List.Forall_forall. intros p Hp. apply Hs.
    now apply (applyFilters_sublist _ _ _ E). }
  assert (Hsorted : StronglySorted (notAfter (sortCompare localeCompare f))
                      (sort (sortCompare localeCompare f) filtered)).
  { apply (SortOrder.sort_sorted _ (fun p => sortable (key p))).
    - intros x y Hx Hy.
      rewrite !(sortCompare_sgn localeCompare f key) by assumption.
      destruct (String.eqb _ _); apply Z.compare_antisym.
    - intros x y z Hx Hy Hz. unfold notAfter.
      rewrite !(sortCompare_sgn localeCompare f key) by assumption.
      destruct (String.eqb _ _); rewrite !Z.compare_le_iff; lia.
    - exact Hf. }
  assert (Hr : forall p,
            In p (sort (sortCompare localeCompare f) filtered) ->
            sortable (key p)).
  { intros p Hp. apply SortFacts.sort_In in Hp.
    rewrite List.Forall_forall in Hf. now apply Hf. }
  split; intros Hord;
    (eapply SortOrder.StronglySorted_In; [|exact Hsorted]);
    intros x y Hx Hy; unfold notAfter;
    rewrite (sortCompare_sgn localeCompare f key) by auto.
  - rewrite Hord. cbn. rewrite leb_units by auto.
    now rewrite Z.compare_le_iff.
  - apply String.eqb_neq in Hord. rewrite Hord.
    rewrite leb_units by auto. now rewrite Z.compare_le_iff.
Qed.

(** Sorting on the name goes the other way: the comparison is that of
    the first name with the second, not of the second with the first
    as for the numeric keys. *)
Hypothesis localeCompare_antisym :
  forall a b,
    Array.sign (localeCompare a b) = CompOpp (Array.sign (localeCompare b a)).
Hypothesis localeCompare_trans :
  forall a b c,
    Array.sign (localeCompare a b) <> Gt ->
    Array.sign (localeCompare b c) <> Gt ->
    Array.sign (localeCompare a c) <> Gt.

(** With [sortBy = name] and a consistent [localeCompare], the default
    sort order [desc] lists the names in ascending collation order, and
    [asc] lists them in descending order. *)
Theorem filterAndSortPairs_sorted_on_name
    (pairs result : list Pair.t) (f : Filters.t) :
  Filters.sortBy f = "name"%string ->
  query pairs f = Some result ->
  (Filters.sortOrder f <> "asc"%string ->
   StronglySorted
     (fun a b => sign (localeCompare (Pair.name a) (Pair.name b)) <> Gt)
     result) /\
  (Filters.sortOrder f = "asc"%string ->
   StronglySorted
     (fun a b => sign (localeCompare (Pair.name b) (Pair.name a)) <> Gt)
     result).
Proof using localeCompare_antisym localeCompare_trans.
  intros Hby. unfold query, filterAndSortPairs.
  destruct (applyFilters pairs f) as [filtered|]; [|discriminate].
  cbn [mbind option_bind]. intros [= <-].
  assert (Hsgn : forall x y,
            sgn (sortCompare localeCompare f) x y =
            if String.eqb (Filters.sortOrder f) "asc"
            then sign (localeCompare (Pair.name y) (Pair.name x))
            else sign (localeCompare (Pair.name x) (Pair.name y))).
  { intros x y. unfold sgn, sortCompare, comparisonBy. rewrite Hby. cbn.
    destruct (String.eqb _ _); [|reflexivity].
    now rewrite sign_neg, <- localeCompare_antisym. }
  assert (Hsorted : StronglySorted (notAfter (sortCompare localeCompare f))
                      (sort (sortCompare localeCompare f) filtered)).
  { apply (SortOrder.sort_sorted _ (fun _ => True)).
    - intros x y _ _. rewrite !Hsgn.
      destruct (String.eqb _ _); apply localeCompare_antisym.
    - intros x y z _ _ _. unfold notAfter. rewrite !Hsgn.
      destruct (String.eqb _ _); intros H1 H2;
        eapply localeCompare_trans; eassumption.
    - rewrite List.Forall_forall. trivial. }
  split; intros Hord;
    (eapply SortOrder.StronglySorted_In; [|exact Hsorted]);
    intros x y _ _; unfold notAfter; rewrite Hsgn.
  - apply String.eqb_neq in Hord. now rewrite Hord.
  - rewrite Hord. trivial.
Qed.

End KeyOrder.

Lemma filterAndSortPairs_sorted_on_key_witness :
  let pairs := [pairWith "P1" (Number.ofZ 3); pairWith "P2" (Number.ofZ 1);
                pairWith "P3" (Number.ofZ 2)] in
  let f := Filters.mk "" "liquidity" "asc" Number.zero "all" in
  exists result,
    filterAndSortPairs Engine.localeCompare pairs f = Some result /\
    map Pair.id result = ["P2"; "P3"; "P1"]%string /\
    StronglySorted
      (fun a b => Number.leb (Pair.liquidity a) (Pair.liquidity b) = true)
      result.
Proof.
  intros pairs f. eexists. split; [vm_compute; reflexivity|].
  split; [reflexivity|].
  refine (proj1 (filterAndSortPairs_sorted_on_key Engine.localeCompare
                   pairs _ f Pair.liquidity _ _ _) eq_refl).
  - intros p. reflexivity.
  - repeat constructor; vm_compute; try reflexivity; discriminate.
  - vm_compute. reflexivity.
Defined.

Lemma filterAndSortPairs_sorted_on_name_witness :
  let pairs := [pairNamed "TON" "Toncoin" "USDT" "Tether";
                pairNamed "NOT" "Notcoin" "TON" "Toncoin"] in
  let f := Filters.mk "" "name" "desc" Number.zero "all" in
  exists result,
    filterAndSortPairs Engine.localeCompare pairs f = Some result /\
    map Pair.name result = ["NOT/TON"; "TON/USDT"]%string /\
    StronglySorted
      (fun a b =>
         Array.sign (Engine.localeCompare (Pair.name a) (Pair.name b)) <> Gt)
      result.
Proof.
  intros pairs f. eexists. split; [vm_compute; reflexivity|].
  split; [reflexivity|].
  refine (proj1 (filterAndSortPairs_sorted_on_name Engine.localeCompare
                   EngineFacts.localeCompare_antisym
                   EngineFacts.localeCompare_trans pairs _ f eq_refl _) _).
  - vm_compute. reflexivity.
  - discriminate.
Defined.

(** ** The request without parameters, and the first fetch *)

Section DefaultRequest.
Import Number FloatOrder Array.
Variable Math_pow : Number.float -> Number.float -> Number.float.
Variable localeCompare : string -> string -> Number.float.
Variable toStringLarge : Number.float -> string.

Let derive := calculateTradingPairs Math_pow toStringLarge.
Let handle := handler Math_pow localeCompare toStringLarge.

(** A GET request without parameters is answered with the first 50
    derived pairs, in the order [calculateTradingPairs] gave them, that
    is, the 50 pairs of highest liquidity. *)
Theorem handler_default_request (assets : list Asset.t)
    (pools : list Pool.t) :
  Forall rankable (derive assets pools) ->
  exists body,
    handle "GET"%string noQuery assets pools = Success body /\
    Body.data body = firstn 50 (derive assets pools) /\
    Body.totalPairs body = Z.of_nat (length (derive assets pools)) /\
    Pagination.totalItems (Body.pagination body) = Body.totalPairs body /\
    Pagination.currentPage (Body.pagination body) = 1 /\
    Pagination.itemsPerPage (Body.pagination body) = 50 /\
    Body.filters body = defaultFilters.
Proof using Type.
  intros H. unfold handle, handler.
  cbn [String.eqb Ascii.eqb Bool.eqb negb]. fold derive.
  change (parseQuery noQuery) with (Params.mk 1 50 defaultFilters).
  cbn [Params.filters Params.page Params.limit].
  assert (Hq : filterAndSortPairs localeCompare (derive assets pools)
                 defaultFilters = Some (derive assets pools)).
  { unfold filterAndSortPairs.
    change (applyFilters (derive assets pools) defaultFilters)
      with (Some (derive assets pools)).
    cbn [mbind option_bind]. f_equal. apply CanonicalFacts.sort_sorted_id.
    pose proof (derived_ranked Math_pow toStringLarge _ _ H) as Hr.
    rewrite List.Forall_forall in Hr.
    eapply SortOrder.StronglySorted_In;
      [|apply (derived_sorted Math_pow toStringLarge); exact H].
    intros x y Hx Hy Hxy.
    destruct (Hr x Hx) as [Lx Px]. destruct (Hr y Hy) as [Ly Py].
    apply CanonicalFacts.canonical_notAfter in Hxy; auto.
    unfold notAfter, sgn, sortCompare, comparisonBy. cbn.
    rewrite sub_sign by assumption. apply Z.compare_le_iff. lia. }
  rewrite Hq. eexists. split; [reflexivity|].
  cbn [Body.data Body.totalPairs Body.pagination Body.filters].
  split; [|repeat split].
  exact (PageFacts.page_data _ (derive assets pools) 1 50
           ltac:(lia) ltac:(lia)).
Qed.

End DefaultRequest.

Lemma handler_default_request_witness :
  exists body,
    handler Engine.pow Engine.localeCompare Engine.toStringLarge "GET"
      noQuery scenarioAssets [scenarioPool; deeperPool] = Success body /\
    map Pair.id (Body.data body) = ["P2"; "P1"]%string.
Proof.
  destruct (handler_default_request Engine.pow Engine.localeCompare
              Engine.toStringLarge scenarioAssets [scenarioPool; deeperPool])
    as (body & Hb & Hd & _).
  - vm_compute. repeat constructor; discriminate.
  - exists body. split; [exact Hb|]. rewrite Hd. vm_compute. reflexivity.
Defined.

(** The first request for the assets that a server answers: it fetches,
    stores what it fetched and stamps the cache. For the cache duration
    from that stamp a further request is answered from the cache, with
    the same assets and no total, and the health route reports the
    metadata as cached; the pools, which were not fetched, are still
    fetched on request, and that fetch leaves the stamp as it is. *)
Theorem assetsRoute_first_fetch (now later now' later' : Z)
    (assets : list Asset.t) (upstream upstream' : Upstream.t) :
  Upstream.getAssets upstream = Some assets ->
  later <> 0 -> now' - later < CACHE_DURATION ->
  let stamped := Cache.mk (Some assets) None (Some later) None in
  assetsRoute Cache.initial now later upstream =
    (Listed assets false (Some (Z.of_nat (length assets))), stamped) /\
  assetsRoute stamped now' later' upstream' =
    (Listed assets true None, stamped) /\
  Health.assetsMetadataCached (healthRoute stamped now') =
    ValidityBool true /\
  Health.lastMetadataUpdate (healthRoute stamped now') = Some later /\
  forall pools,
    Upstream.getPools upstream' = Some pools ->
    poolsRoute stamped now' later' upstream' =
    (Listed pools false (Some (Z.of_nat (length pools))),
     Cache.mk (Some assets) (Some pools) (Some later) None).
Proof.
  intros Hup Hlater Hnow stamped.
  assert (Hv : validityTruthy (isCacheValid stamped now') = true).
  { rewrite (ServerFacts.validity_fresh stamped later now' eq_refl Hlater).
    now apply Z.ltb_lt. }
  assert (Hv' : isCacheValid stamped now' = ValidityBool true).
  { revert Hv. unfold isCacheValid. cbn [Cache.lastUpdated stamped].
    destruct later; [contradiction| |]; cbn; now intros ->. }
  split; [|split; [|split; [|split]]].
  - unfold assetsRoute. cbn. now rewrite Hup.
  - unfold assetsRoute. now rewrite Hv.
  - exact Hv'.
  - reflexivity.
  - intros pools Hp. unfold poolsRoute. rewrite Hv, Hp.
    cbn [Cache.pools stamped Cache.lastUpdated Cache.assets Cache.pairs].
    now rewrite ServerFacts.stampIfUnset_set.
Qed.

Lemma assetsRoute_first_fetch_witness :
  assetsRoute (Cache.mk (Some scenarioAssets) None (Some 5001) None)
    60000 60001 (Upstream.mk None None) =
  (Listed scenarioAssets true None,
   Cache.mk (Some scenarioAssets) None (Some 5001) None).
Proof.
  refine (proj1 (proj2 (assetsRoute_first_fetch 5000 5001 60000 60001
                          scenarioAssets scenarioUpstream
                          (Upstream.mk None None) eq_refl _ _))).
  - discriminate.
  - reflexivity.
Defined.

(** ** The swap route *)

Section SwapProperties.
Variable Simulation : Type.
Variable simulateSwap : SwapQuery.t -> option Simulation.

Let route := simulateSwapRoute Simulation simulateSwap.

(** The swap route calls the client exactly when the body is an object
    (or another value that can be destructured) whose [tokenAAddress],
    [tokenBAddress] and [amountIn] are all truthy, and then with these
    three values as they came and with the slippage tolerance of the
    body, ["0.001"] if the body has none; in every other case the answer
    is 400 — or 500 for a body that is [undefined] or [null] — whatever
    the client would say. *)
Theorem simulateSwapRoute_validation (body : option Json)
    (data : Simulation) :
  route body = SwapSimulated data <->
  exists b tokenA tokenB units,
    body = Some b /\
    jsonField b "tokenAAddress" = Some tokenA /\
    jsonField b "tokenBAddress" = Some tokenB /\
    jsonField b "amountIn" = Some units /\
    jsonTruthy (Some tokenA) = true /\
    jsonTruthy (Some tokenB) = true /\
    jsonTruthy (Some units) = true /\
    simulateSwap
      (SwapQuery.mk tokenA tokenB units
         (default (JString "0.001") (jsonField b "slippageTolerance"))) =
    Some data.
Proof using Type.
  unfold route, simulateSwapRoute. split.
  - destruct body as [b|]; [|discriminate].
    assert (Hgen :
      match jsonField b "tokenAAddress", jsonField b "tokenBAddress",
            jsonField b "amountIn" with
      | Some a, Some b', Some u =>
          if negb (jsonTruthy (jsonField b "tokenAAddress")) ||
             negb (jsonTruthy (jsonField b "tokenBAddress")) ||
             negb (jsonTruthy (jsonField b "amountIn"))
          then SwapBadRequest
          else
            match simulateSwap
                    (SwapQuery.mk a b' u
                       (default (JString "0.001")
                          (jsonField b "slippageTolerance"))) with
            | Some simulation => SwapSimulated simulation
            | None => SwapError
            end
      | _, _, _ => SwapBadRequest
      end = SwapSimulated data ->
      exists b0 tokenA tokenB units,
        Some b = Some b0 /\
        jsonField b0 "tokenAAddress" = Some tokenA /\
        jsonField b0 "tokenBAddress" = Some tokenB /\
        jsonField b0 "amountIn" = Some units /\
        jsonTruthy (Some tokenA) = true /\
        jsonTruthy (Some tokenB) = true /\
        jsonTruthy (Some units) = true /\
        simulateSwap
          (SwapQuery.mk tokenA tokenB units
             (default (JString "0.001")
                (jsonField b0 "slippageTolerance"))) = Some data).
    { destruct (jsonField b "tokenAAddress") as [a|] eqn:Ea;
        [|discriminate].
      destruct (jsonField b "tokenBAddress") as [b'|] eqn:Eb;
        [|discriminate].
      destruct (jsonField b "amountIn") as [u|] eqn:Eu; [|discriminate].
      destruct (jsonTruthy (Some a)) eqn:Ta; [|discriminate].
      destruct (jsonTruthy (Some b')) eqn:Tb; [|discriminate].
      destruct (jsonTruthy (Some u)) eqn:Tu; [|discriminate].
      cbn [negb orb].
      destruct (simulateSwap _) as [sim|] eqn:Es; [|discriminate].
      intros [= <-]. exists b, a, b', u. repeat split; assumption. }
    destruct b; try exact Hgen. discriminate.
  - intros (b & a & b' & u & -> & Ea & Eb & Eu & Ta & Tb & Tu & Es).
    assert (Hb : b <> JNull) by (intros ->; discriminate).
    destruct b; try contradiction;
      rewrite ?Ea, ?Eb, ?Eu, ?Ta, ?Tb, ?Tu; cbn [negb orb];
      try (cbn in Ea; discriminate);
      now rewrite Es.
Qed.

End SwapProperties.

Lemma simulateSwapRoute_validation_witness :
  let client (q : SwapQuery.t) := Some (SwapQuery.slippageTolerance q) in
  let body :=
    JObject [("tokenAAddress", JString "A"); ("tokenBAddress", JString "B");
             ("amountIn", JString "0")]%string in
  simulateSwapRoute Json client (Some body) =
    SwapSimulated (JString "0.001") /\
  simulateSwapRoute Json client
    (Some (JObject [("tokenAAddress", JString "A");
                    ("tokenBAddress", JString "B");
                    ("amountIn", JNumber Number.zero)]%string)) =
    SwapBadRequest.
Proof.
  intros client body. split; [|reflexivity].
  apply (proj2 (simulateSwapRoute_validation Json client (Some body)
                  (JString "0.001"))).
  exists body, (JString "A"), (JString "B"), (JString "0").
  repeat split.
Defined.

(** ** Methods, and what a failing request leaves behind *)

Section Failures.
Variable Math_pow : Number.float -> Number.float -> Number.float.
Variable localeCompare : string -> string -> Number.float.
Variable toStringLarge : Number.float -> string.

Let derive := calculateTradingPairs Math_pow toStringLarge.
Let handle := handler Math_pow localeCompare toStringLarge.
Let getPair := pairRoute Math_pow toStringLarge.
Let getSearch := searchRoute Math_pow toStringLarge.

(** Both serverless handlers answer 405 to every method but [GET],
    written in capitals, and to [GET] they never do. *)
Theorem serverless_method_check (method : string) :
  (healthHandler method = HealthMethodNotAllowed <->
   method <> "GET"%string) /\
  (forall q assets pools,
     handle method q assets pools = MethodNotAllowed <->
     method <> "GET"%string).
Proof using Type.
  split; [|intros q assets pools]; unfold healthHandler, handle, handler;
    destruct (String.eqb_spec method "GET") as [E|E]; cbn [negb];
    split; try congruence; try discriminate.
  destruct (filterAndSortPairs _ _ _); discriminate.
Qed.


End Failures.

Lemma serverless_method_check_witness :
  healthHandler "get" = HealthMethodNotAllowed /\
  handler Engine.pow Engine.localeCompare Engine.toStringLarge "POST"
    noQuery scenarioAssets [scenarioPool] = MethodNotAllowed.
Proof.
  split.
  - apply (proj1 (serverless_method_check Engine.pow Engine.localeCompare
                    Engine.toStringLarge "get")).
    discriminate.
  - apply (proj2 (serverless_method_check Engine.pow Engine.localeCompare
                    Engine.toStringLarge "POST")).
    discriminate.
Defined.


(** ** Integers as Numbers, and the labels of a page *)

Module IntegerFacts.
Import Number FloatOrder FloatValid FloatExact.

Lemma digits_le (p : positive) :
  Zpos p < 2 ^ 53 -> Zpos (digits2_pos p) <= 53.
Proof.
  intros H. pose proof (digits2_pos_bounds p) as [Hlo _].
  destruct (Z.le_gt_cases (Zpos (digits2_pos p)) 53) as [L|L]; [exact L|].
  assert (2 ^ 53 <= 2 ^ (Zpos (digits2_pos p) - 1))
    by (apply Z.pow_le_mono_r; lia).
  lia.
Qed.

Lemma integerMantissa_value (p : positive) :
  Zpos p < 2 ^ 53 ->
  Zpos (integerMantissa p) = Zpos p * 2 ^ (53 - Zpos (digits2_pos p)).
Proof.
  intros H. pose proof (digits_le p H).
  unfold integerMantissa. rewrite Z2Pos.id; [reflexivity|].
  pose proof (pow2_pos (53 - Zpos (digits2_pos p)) ltac:(lia)). nia.
Qed.

Lemma integerNumber_wellFormed (p : positive) :
  Zpos p < 2 ^ 53 -> wellFormed (integerNumber p).
Proof.
  intros H. pose proof (digits_le p H) as Hd.
  unfold integerNumber, wellFormed, valid_binary, bounded, canonical_mantissa.
  assert (Hm : Zpos (digits2_pos (integerMantissa p)) = 53).
  { change (Zpos (digits2_pos (integerMantissa p)))
      with (Zdigits2 (Zpos (integerMantissa p))).
    rewrite integerMantissa_value, Zdigits2_mul by lia.
    cbn [Zdigits2]. lia. }
  rewrite Hm. apply andb_true_iff. split.
  - apply Z.eqb_eq. unfold SpecFloat.fexp, SpecFloat.emin, prec, emax. lia.
  - apply Z.leb_le. unfold prec, emax. lia.
Qed.

(** Rounding an integer below 2^53 that is written at least as finely
    as a Number writes it gives that integer. *)
Lemma binary_round_aux_integer (s : bool) (M p : positive) (e : Z) :
  Zpos p < 2 ^ 53 -> e <= Zpos (digits2_pos p) - 53 ->
  Zpos M = Zpos p * 2 ^ (- e) ->
  binary_round_aux prec emax s (Zpos M) e loc_Exact =
  S754_finite s (integerMantissa p) (Zpos (digits2_pos p) - 53).
Proof.
  intros Hp He HM. pose proof (digits_le p Hp) as Hd.
  set (d := Zpos (digits2_pos p)) in *.
  set (k := d - 53 - e).
  replace e with (d - 53 - k) at 1 by (subst k; lia).
  replace (Zpos M) with (Zpos (integerMantissa p) * 2 ^ k).
  - apply binary_round_aux_exact; [|subst k; lia].
    pose proof (integerNumber_wellFormed p Hp) as Hw.
    unfold integerNumber in Hw. fold d in Hw.
    revert Hw. unfold wellFormed, valid_binary, bounded. 
    now destruct s.
  - rewrite HM, integerMantissa_value by assumption. fold d.
    rewrite <- Z.mul_assoc, <- Z.pow_add_r by (subst k; lia).
    do 2 f_equal. subst k. lia.
Qed.

Lemma binary_round_integer (s : bool) (M p : positive) (e : Z) :
  Zpos p < 2 ^ 53 -> e <= 0 ->
  Zpos M = Zpos p * 2 ^ (- e) ->
  binary_round prec emax s M e =
  S754_finite s (integerMantissa p) (Zpos (digits2_pos p) - 53).
Proof.
  intros Hp He HM. pose proof (digits_le p Hp) as Hd.
  unfold binary_round. fold fexp.
  assert (HdM : Zpos (digits2_pos M) + e = Zpos (digits2_pos p)).
  { change (Zpos (digits2_pos M)) with (Zdigits2 (Zpos M)).
    rewrite HM, Zdigits2_mul by lia. cbn [Zdigits2]. lia. }
  rewrite HdM.
  set (d := Zpos (digits2_pos p)) in *.
  assert (Hf : fexp d = d - 53).
  { unfold SpecFloat.fexp, SpecFloat.emin, prec, emax. subst d. lia. }
  rewrite Hf.
  pose proof (shl_align_exponent M e (d - 53)) as Hez.
  pose proof (shl_align_value M e (Z.min e (d - 53)) ltac:(lia)) as Hv.
  assert (Hsame : shl_align M e (Z.min e (d - 53)) = shl_align M e (d - 53)).
  { unfold shl_align. destruct (Z.min_spec e (d - 53)) as [[? ->]|[? ->]];
      [|reflexivity].
    replace (e - e) with 0 by lia. destruct (d - 53 - e) eqn:E; try lia.
    reflexivity. }
  rewrite Hsame in Hv.
  destruct (shl_align M e (d - 53)) as [mz ez]. cbn [fst snd] in *.
  apply binary_round_aux_integer; [assumption|fold d; lia|].
  rewrite Hv, HM, <- Z.mul_assoc, <- Z.pow_add_r by lia.
  do 2 f_equal. lia.
Qed.

Lemma ofZ_integer (p : positive) :
  Zpos p < 2 ^ 53 -> ofZ (Zpos p) = integerNumber p.
Proof.
  intros Hp. unfold ofZ, binary_normalize, integerNumber.
  apply binary_round_integer; [assumption|lia|].
  change (- 0) with 0. lia.
Qed.

Lemma ofZ_pos (a : Z) :
  0 < a < 2 ^ 53 -> exists p, a = Zpos p /\ ofZ a = integerNumber p.
Proof.
  intros [H0 H]. destruct a as [|p|p]; try lia.
  exists p. split; [reflexivity|]. now apply ofZ_integer.
Qed.

Lemma integerNumber_aligned (p : positive) (ez : Z) :
  Zpos p < 2 ^ 53 -> ez <= Zpos (digits2_pos p) - 53 ->
  Zpos (fst (shl_align (integerMantissa p) (Zpos (digits2_pos p) - 53) ez)) =
  Zpos p * 2 ^ (- ez).
Proof.
  intros Hp He. pose proof (digits_le p Hp).
  rewrite shl_align_value by assumption.
  rewrite integerMantissa_value by assumption.
  rewrite <- Z.mul_assoc, <- Z.pow_add_r by lia. do 2 f_equal. lia.
Qed.

Lemma add_integer (a b : Z) :
  0 <= a -> 0 < b -> a + b < 2 ^ 53 ->
  numberAdd (ofZ a) (ofZ b) = ofZ (a + b).
Proof.
  intros Ha Hb Hab.
  destruct (ofZ_pos b ltac:(lia)) as (q & -> & Eq).
  destruct (Z.eq_dec a 0) as [->|Hne].
  { rewrite Z.add_0_l, Eq. reflexivity. }
  destruct (ofZ_pos a ltac:(lia)) as (p & -> & Ep).
  destruct (ofZ_pos (Zpos p + Zpos q) ltac:(lia)) as (r & Hr & Er).
  rewrite Ep, Eq, Er. unfold numberAdd, SFadd, integerNumber.
  cbv zeta. cbn [cond_Zopp].
  set (ez := Z.min (Zpos (digits2_pos p) - 53) (Zpos (digits2_pos q) - 53)).
  pose proof (digits_le p ltac:(lia)). pose proof (digits_le q ltac:(lia)).
  rewrite !integerNumber_aligned by (subst ez; lia).
  rewrite <- Z.mul_add_distr_r, Hr.
  assert (Hpos : 0 < Zpos r * 2 ^ (- ez)).
  { pose proof (pow2_pos (- ez) ltac:(subst ez; lia)). nia. }
  destruct (Zpos r * 2 ^ (- ez)) as [|M|M] eqn:EM; try lia.
  cbn [binary_normalize].
  apply binary_round_integer; [lia|subst ez; lia|now symmetry].
Qed.

Lemma sub_integer (a b : Z) :
  0 < b -> b <= a -> a < 2 ^ 53 ->
  sub (ofZ a) (ofZ b) = ofZ (a - b).
Proof.
  intros Hb Hba Ha.
  destruct (ofZ_pos b ltac:(lia)) as (q & -> & Eq).
  destruct (ofZ_pos a ltac:(lia)) as (p & -> & Ep).
  rewrite Ep, Eq. unfold sub, SFsub, integerNumber.
  cbv zeta. cbn [cond_Zopp].
  set (ez := Z.min (Zpos (digits2_pos p) - 53) (Zpos (digits2_pos q) - 53)).
  pose proof (digits_le p ltac:(lia)). pose proof (digits_le q ltac:(lia)).
  rewrite !integerNumber_aligned by (subst ez; lia).
  rewrite <- Z.mul_sub_distr_r.
  destruct (Z.eq_dec (Zpos p) (Zpos q)) as [E|Hne].
  { rewrite E, Z.sub_diag. reflexivity. }
  destruct (ofZ_pos (Zpos p - Zpos q) ltac:(lia)) as (r & Hr & Er).
  rewrite Er, Hr.
  assert (Hpos : 0 < Zpos r * 2 ^ (- ez)).
  { pose proof (pow2_pos (- ez) ltac:(subst ez; lia)). nia. }
  destruct (Zpos r * 2 ^ (- ez)) as [|M|M] eqn:EM; try lia.
  cbn [binary_normalize].
  apply binary_round_integer; [lia|subst ez; lia|now symmetry].
Qed.

Lemma mul_integer (a b : Z) :
  0 <= a -> 0 < b < 2 ^ 53 -> a * b < 2 ^ 53 ->
  mul (ofZ a) (ofZ b) = ofZ (a * b).
Proof.
  intros Ha Hb Hab.
  destruct (ofZ_pos b Hb) as (q & -> & Eq).
  destruct (Z.eq_dec a 0) as [->|Hne].
  { rewrite Z.mul_0_l, Eq. reflexivity. }
  destruct (ofZ_pos a ltac:(nia)) as (p & -> & Ep).
  destruct (ofZ_pos (Zpos p * Zpos q) ltac:(lia)) as (r & Hr & Er).
  rewrite Ep, Eq, Er. unfold mul, SFmul, integerNumber. cbn [xorb].
  pose proof (digits_le p ltac:(nia)). pose proof (digits_le q ltac:(nia)).
  pose proof (Zdigits2_product p q) as Hd.
  rewrite <- Pos2Z.inj_mul in Hr. injection Hr as Hr. rewrite Hr in Hd.
  cbn [Zdigits2] in Hd.
  apply binary_round_aux_integer; [lia|lia|].
  rewrite Pos2Z.inj_mul, !integerMantissa_value by nia.
  rewrite <- Hr, Pos2Z.inj_mul.
  replace (- (Zpos (digits2_pos p) - 53 + (Zpos (digits2_pos q) - 53)))
    with ((53 - Zpos (digits2_pos p)) + (53 - Zpos (digits2_pos q))) by lia.
  rewrite Z.pow_add_r by lia. ring.
Qed.

Lemma units_integer (a : Z) :
  0 <= a < 2 ^ 53 -> units (ofZ a) = a * 2 ^ 1074.
Proof.
  intros [H0 H]. destruct (Z.eq_dec a 0) as [->|Hne]; [reflexivity|].
  destruct (ofZ_pos a ltac:(lia)) as (p & -> & ->).
  pose proof (digits_le p H).
  unfold integerNumber. cbn [units cond_Zopp].
  rewrite integerMantissa_value by assumption.
  rewrite <- Z.mul_assoc, <- Z.pow_add_r
    by (unfold emin, SpecFloat.emin, prec, emax; lia).
  do 2 f_equal. unfold emin, SpecFloat.emin, prec, emax. lia.
Qed.

Lemma ofZ_sortable (a : Z) : 0 <= a < 2 ^ 53 -> sortable (ofZ a).
Proof.
  intros [H0 H]. split; [apply ofZ_valid|].
  destruct (Z.eq_dec a 0) as [->|Hne]; [discriminate|].
  destruct (ofZ_pos a ltac:(lia)) as (p & -> & ->). discriminate.
Qed.

Lemma min_integer (a b : Z) :
  0 <= a < 2 ^ 53 -> 0 <= b < 2 ^ 53 ->
  Math_min (ofZ a) (ofZ b) = ofZ (Z.min a b).
Proof.
  intros Ha Hb.
  assert (Hlt : ltb (ofZ b) (ofZ a) = (b <? a)).
  { pose proof (CanonicalFacts.ltb_units (ofZ b) (ofZ a)
                  (ofZ_sortable b Hb) (ofZ_sortable a Ha)) as Hiff.
    rewrite !units_integer in Hiff by assumption.
    destruct (Z.ltb_spec b a) as [L|L].
    - apply Hiff. nia.
    - apply not_true_is_false. intros E. apply Hiff in E. nia. }
  assert (Hpick : (if ltb (ofZ b) (ofZ a) then ofZ b else ofZ a) =
                  ofZ (Z.min a b)).
  { rewrite Hlt. destruct (Z.ltb_spec b a) as [L|L]; f_equal; lia. }
  destruct (Z.eq_dec a 0) as [->|Hna].
  - destruct (Z.eq_dec b 0) as [->|Hnb]; [reflexivity|].
    destruct (ofZ_pos b ltac:(lia)) as (q & Eb & Eq).
    rewrite <- Hpick, Eq. reflexivity.
  - destruct (ofZ_pos a ltac:(lia)) as (p & Ea & Ep).
    rewrite <- Hpick, Ep.
    destruct (Z.eq_dec b 0) as [->|Hnb]; [reflexivity|].
    destruct (ofZ_pos b ltac:(lia)) as (q & Eb & Eq).
    rewrite Eq. reflexivity.
Qed.

End IntegerFacts.

(** [startIndex] and [endIndex] number the items of the page from 1:
    the page holds the items from [startIndex] to [endIndex] of the
    list. Past the last page [endIndex] is below [startIndex] and the
    page is empty. The code computes both labels on Numbers; as long
    as [page * limit] is below 2^53 no step of that computation rounds,
    so the two Numbers it reports are these integers. Beyond that bound
    the product [(page - 1) * limit] may be rounded, and nothing is
    said of the labels. *)
Theorem paginateResults_index_labels (A : Type) (items : list A)
    (page limit : Z) :
  1 <= page -> 1 <= limit -> page * limit < 2 ^ 53 ->
  Z.of_nat (length items) < 2 ^ 53 ->
  let result := paginateResults items page limit in
  let startIndex := Pagination.startIndex (Page.pagination result) in
  let endIndex := Pagination.endIndex (Page.pagination result) in
  startIndexLabel (Number.ofZ page) (Number.ofZ limit) =
    Number.ofZ startIndex /\
  endIndexLabel (Number.ofZ page) (Number.ofZ limit)
    (Number.ofZ (Z.of_nat (length items))) = Number.ofZ endIndex /\
  startIndex = (page - 1) * limit + 1 /\
  endIndex = Z.min (page * limit) (Z.of_nat (length items)) /\
  Page.data result =
    firstn (Z.to_nat (endIndex - startIndex + 1))
      (skipn (Z.to_nat (startIndex - 1)) items) /\
  Z.of_nat (length (Page.data result)) =
    Z.max 0 (endIndex - startIndex + 1).
Proof.
  intros Hp Hl Hb Hn result startIndex endIndex.
  assert (Hs : startIndex = (page - 1) * limit + 1) by reflexivity.
  assert (He : endIndex = Z.min (page * limit) (Z.of_nat (length items))).
  { subst endIndex result. cbn. f_equal. ring. }
  assert (Hd : Page.data result =
    firstn (Z.to_nat (endIndex - startIndex + 1))
      (skipn (Z.to_nat (startIndex - 1)) items)).
  { subst result. rewrite PageFacts.page_data by assumption.
    rewrite Hs, He.
    replace ((page - 1) * limit + 1 - 1) with ((page - 1) * limit) by ring.
    set (s := (page - 1) * limit).
    assert (0 <= s) by (subst s; nia).
    destruct (Z.le_gt_cases (page * limit) (Z.of_nat (length items))).
    - f_equal. subst s. lia.
    - replace (Z.min _ _) with (Z.of_nat (length items)) by lia.
      rewrite !firstn_all2; [reflexivity| |];
        rewrite length_skipn; subst s; lia. }
  assert (Hstart : Number.mul (Number.sub (Number.ofZ page) Number.one)
                     (Number.ofZ limit) = Number.ofZ ((page - 1) * limit)).
  { unfold Number.one.
    rewrite IntegerFacts.sub_integer by nia.
    apply IntegerFacts.mul_integer; nia. }
  repeat split; try assumption.
  - unfold startIndexLabel. rewrite Hstart, Hs. unfold Number.one.
    apply IntegerFacts.add_integer; nia.
  - unfold endIndexLabel. rewrite Hstart.
    rewrite IntegerFacts.add_integer by nia.
    rewrite IntegerFacts.min_integer by nia.
    rewrite He. do 2 f_equal. ring.
  - rewrite Hd, length_firstn, length_skipn. rewrite Hs, He. nia.
Qed.

(** Past the bound the label is rounded: at page 2^53 with limit 3 the
    code reports 27021597764222972 where [(page - 1) * limit + 1] is
    27021597764222974. *)
Lemma startIndexLabel_rounded :
  startIndexLabel (Number.ofZ (2 ^ 53)) (Number.ofZ 3) =
    Number.ofZ 27021597764222972 /\
  (2 ^ 53 - 1) * 3 + 1 = 27021597764222974 /\
  Number.ofZ 27021597764222972 <> Number.ofZ 27021597764222974.
Proof.
  split; [vm_compute; reflexivity|]. split; [reflexivity|].
  vm_compute. discriminate.
Qed.

Lemma paginateResults_index_labels_witness :
  let result := paginateResults (seq 1 7) 3 3 in
  startIndexLabel (Number.ofZ 3) (Number.ofZ 3) = Number.ofZ 7 /\
  endIndexLabel (Number.ofZ 3) (Number.ofZ 3) (Number.ofZ 7) =
    Number.ofZ 7 /\
  Pagination.startIndex (Page.pagination result) = 7 /\
  Pagination.endIndex (Page.pagination result) = 7 /\
  Page.data result = [7%nat] /\
  Z.of_nat (length (Page.data result)) = 1.
Proof.
  pose proof (paginateResults_index_labels nat (seq 1 7) 3 3
                ltac:(lia) ltac:(lia) ltac:(lia) ltac:(cbn; lia))
    as (Hsn & Hen & Hs & He & Hd & Hl).
  rewrite Hs, He in Hd, Hl. repeat split; assumption.
Defined.
